(** * AcademiML result-synthesis engine: correlation engine and result synthesizer

    A shallow embedding of [calculateCorrelation], [calculateFeatureImpacts]
    (utils) and [simulateBackendTraining] (the mock training service).

    Numbers.  A JavaScript number is modelled as an extended real with a
    not-a-number element: IEEE doubles are idealised as exact reals (no
    rounding error, no overflow, a single zero which behaves as +0), while
    the infinities and NaN that arise from division by zero, from
    [undefined] entering arithmetic or from [Math.sqrt] of a negative number
    are kept.  The synthesizer works on integer counts and on clamped
    values, which rounding does not disturb.  [calculateCorrelation]
    subtracts nearly equal sums, where rounding decides the outcome: it is
    given a second time on binary64 floats, bit for bit (module [F64]).
    [calculateHistogram] and [calculateColumnStats] compute with the cells
    themselves, of any magnitude: their arithmetic overflows to the
    infinities and underflows to 0 at the two ends of the binary64 range.

    [Math.random()] is modelled by naming each draw: every call site
    receives an arbitrary real of [0,1); the call sites that redraw while
    the draw is 0 read a stream of draws. *)

From Stdlib Require Import Reals Lra Lia ZArith List String Bool Arith.
From Stdlib Require Import Permutation Sorted.
From Stdlib Require PrimFloat.
Import ListNotations.

Set Warnings "-inexact-float".

Open Scope R_scope.

(** ** JavaScript numbers *)

Module JS.

Inductive jsnum : Type :=
| Fin (x : R)
| PInf
| NInf
| NaN.

Definition Reqb (a b : R) : bool := if Req_dec_T a b then true else false.
Definition Rltb (a b : R) : bool := if Rlt_dec a b then true else false.
Definition Rleb (a b : R) : bool := if Rle_dec a b then true else false.

Definition inf_of_sign (positive : bool) : jsnum :=
  if positive then PInf else NInf.

Definition neg (a : jsnum) : jsnum :=
  match a with
  | Fin x => Fin (- x)
  | PInf => NInf
  | NInf => PInf
  | NaN => NaN
  end.

(** [a + b] on numbers. *)
Definition add (a b : jsnum) : jsnum :=
  match a, b with
  | NaN, _ | _, NaN => NaN
  | Fin x, Fin y => Fin (x + y)
  | PInf, NInf | NInf, PInf => NaN
  | PInf, _ | _, PInf => PInf
  | NInf, _ | _, NInf => NInf
  end.

(** [a - b]. *)
Definition sub (a b : jsnum) : jsnum := add a (neg b).

(** An infinity of sign [positive] times the finite [y]. *)
Definition mul_inf (positive : bool) (y : R) : jsnum :=
  if Reqb y 0 then NaN
  else if Rltb 0 y then inf_of_sign positive
       else inf_of_sign (negb positive).

(** [a * b]. *)
Definition mul (a b : jsnum) : jsnum :=
  match a, b with
  | NaN, _ | _, NaN => NaN
  | Fin x, Fin y => Fin (x * y)
  | Fin x, PInf | PInf, Fin x => mul_inf true x
  | Fin x, NInf | NInf, Fin x => mul_inf false x
  | PInf, PInf | NInf, NInf => PInf
  | PInf, NInf | NInf, PInf => NInf
  end.

(** [a / b]; the divisor zero is +0. *)
Definition div (a b : jsnum) : jsnum :=
  match a, b with
  | NaN, _ | _, NaN => NaN
  | Fin x, Fin y =>
      if Reqb y 0 then
        if Reqb x 0 then NaN else inf_of_sign (Rltb 0 x)
      else Fin (x / y)
  | Fin _, (PInf | NInf) => Fin 0
  | PInf, Fin y => inf_of_sign (Rleb 0 y)
  | NInf, Fin y => inf_of_sign (negb (Rleb 0 y))
  | (PInf | NInf), (PInf | NInf) => NaN
  end.

(** [Math.sqrt]. *)
Definition Math_sqrt (a : jsnum) : jsnum :=
  match a with
  | Fin x => if Rltb x 0 then NaN else Fin (sqrt x)
  | PInf => PInf
  | NInf | NaN => NaN
  end.

(** [Math.abs]. *)
Definition Math_abs (a : jsnum) : jsnum :=
  match a with
  | Fin x => Fin (Rabs x)
  | PInf | NInf => PInf
  | NaN => NaN
  end.

(** The order of the extended reals; false as soon as a NaN is involved. *)
Definition leb (a b : jsnum) : bool :=
  match a, b with
  | NaN, _ | _, NaN => false
  | NInf, _ | _, PInf => true
  | Fin x, Fin y => Rleb x y
  | _, _ => false
  end.

(** [Math.min] and [Math.max] of two arguments. *)
Definition Math_min (a b : jsnum) : jsnum :=
  match a, b with
  | NaN, _ | _, NaN => NaN
  | _, _ => if leb a b then a else b
  end.

Definition Math_max (a b : jsnum) : jsnum :=
  match a, b with
  | NaN, _ | _, NaN => NaN
  | _, _ => if leb a b then b else a
  end.

(** [Math.round]: the nearest integer, ties towards +infinity. *)
Definition Math_round (a : jsnum) : jsnum :=
  match a with
  | Fin x => Fin (IZR (Zfloor (x + / 2)))
  | other => other
  end.

(** [isNaN]. *)
Definition isNaN (a : jsnum) : bool :=
  match a with NaN => true | _ => false end.

(** [a === 0]. *)
Definition is_zero (a : jsnum) : bool :=
  match a with Fin x => Reqb x 0 | _ => false end.

(** [a > 0]. *)
Definition is_pos (a : jsnum) : bool :=
  match a with
  | Fin x => Rltb 0 x
  | PInf => true
  | NInf | NaN => false
  end.

(** [a || 0] on numbers: the falsy numbers are 0 and NaN. *)
Definition or_zero (a : jsnum) : jsnum :=
  match a with
  | NaN => Fin 0
  | other => other
  end.

(** [a.toFixed(d)] read back as a number, as in [parseFloat(a.toFixed(d))]:
    [a] rounded to [d] decimals, the sign taken
    apart first and ties going to the larger magnitude; numbers of magnitude
    1e21 and above are printed in full and come back unchanged. *)
Definition round_dec (d : nat) (x : R) : R :=
  let m := IZR (Zfloor (Rabs x * 10 ^ d + / 2)) / 10 ^ d in
  if Rltb x 0 then - m else m.

Definition toFixed (d : nat) (a : jsnum) : jsnum :=
  match a with
  | Fin x => if Rleb (10 ^ 21) (Rabs x) then Fin x else Fin (round_dec d x)
  | other => other
  end.

End JS.

Import JS.

(** ** JavaScript values held by dataset cells *)

Inductive value : Type :=
| VNum (n : jsnum)
| VStr (s : string)
| VBool (b : bool)
| VNull
| VUndef.

(** Numbers as values. *)
Definition num (x : R) : value := VNum (Fin x).
Definition nums (l : list R) : list value := map num l.

(** [typeof v === 'string'] *)
Definition is_string (v : value) : bool :=
  match v with VStr _ => true | _ => false end.

(** [v !== null] *)
Definition not_null (v : value) : bool :=
  match v with VNull => false | _ => true end.

Definition jsnum_same (a b : jsnum) : bool :=
  match a, b with
  | Fin x, Fin y => Reqb x y
  | PInf, PInf | NInf, NInf | NaN, NaN => true
  | _, _ => false
  end.

(** SameValueZero, the equality of [Set]. *)
Definition same_value_zero (a b : value) : bool :=
  match a, b with
  | VNum m, VNum n => jsnum_same m n
  | VStr s, VStr t => String.eqb s t
  | VBool p, VBool q => Bool.eqb p q
  | VNull, VNull | VUndef, VUndef => true
  | _, _ => false
  end.

(** [a === b], the equality of [indexOf]: NaN differs from itself. *)
Definition strict_equals (a b : value) : bool :=
  match a, b with
  | VNum NaN, _ | _, VNum NaN => false
  | _, _ => same_value_zero a b
  end.

(** ** Arrays *)

(** [arr.reduce((acc, a, i) => f(acc, a, i), init)] *)
Fixpoint reduce_from {A B : Type} (f : B -> A -> nat -> B)
    (l : list A) (i : nat) (acc : B) : B :=
  match l with
  | [] => acc
  | a :: l' => reduce_from f l' (S i) (f acc a i)
  end.

Definition reduce {A B : Type} (f : B -> A -> nat -> B) (l : list A) (init : B) : B :=
  reduce_from f l 0%nat init.

(** [arr[i]]: reading past the end gives [undefined]. *)
Definition at_index (l : list value) (i : nat) : value := nth i l VUndef.

(** [Array.from(new Set(arr))]: the distinct values in order of first
    occurrence. *)
Definition set_add (seen : list value) (v : value) : list value :=
  if existsb (same_value_zero v) seen then seen else seen ++ [v].

Definition distinct (l : list value) : list value := fold_left set_add l [].

(** [arr.indexOf(v)] *)
Fixpoint indexOf_from (l : list value) (v : value) (i : Z) : Z :=
  match l with
  | [] => (-1)%Z
  | a :: l' => if strict_equals a v then i else indexOf_from l' v (i + 1)%Z
  end.

Definition indexOf (l : list value) (v : value) : Z := indexOf_from l v 0%Z.

(** [arr.sort(cmp)] for a comparator returning a number: a stable sort, an
    element moving behind another only when the comparator is positive (a NaN
    comparison counts as 0). *)
Section Sort.
Context {A : Type} (cmp : A -> A -> jsnum).

Fixpoint sort_insert (a : A) (l : list A) : list A :=
  match l with
  | [] => [a]
  | b :: l' => if is_pos (cmp a b) then b :: sort_insert a l' else a :: l
  end.

Fixpoint sort (l : list A) : list A :=
  match l with
  | [] => []
  | a :: l' => sort_insert a (sort l')
  end.
End Sort.

(** ** Data model (types) *)

Inductive ColumnType : Type := TString | TNumber | TBoolean | TUnknown.

Definition ColumnType_eqb (a b : ColumnType) : bool :=
  match a, b with
  | TString, TString | TNumber, TNumber
  | TBoolean, TBoolean | TUnknown, TUnknown => true
  | _, _ => false
  end.

Record DatasetColumn : Type := {
  name : string;
  type : ColumnType;
  missingCount : nat;
  uniqueCount : nat
}.

(** A row is an object from column names to cell values. *)
Definition Row : Type := list (string * value).

(** [r[k]]: a missing key reads as [undefined]. *)
Fixpoint get (r : Row) (k : string) : value :=
  match r with
  | [] => VUndef
  | (k', v) :: r' => if String.eqb k' k then v else get r' k
  end.

Record Dataset : Type := {
  dataset_name : string;
  rows : list Row;
  columns : list DatasetColumn;
  totalRows : nat
}.

Inductive ModelCategory : Type := ML | DL | NLP.

Record TuningConfig : Type := {
  tuning_enabled : bool;
  tuning_method : string;
  paramGrid : list (string * string)
}.

Record CrossValidationConfig : Type := {
  cv_enabled : bool;
  kFold : nat
}.

Record ModelConfig : Type := {
  category : ModelCategory;
  modelName : string;
  targetColumn : string;
  hyperparameters : list (string * value);
  tuning : TuningConfig;
  crossValidation : CrossValidationConfig
}.

Record TextProcessing : Type := {
  removeStopwords : bool;
  lemmatization : bool;
  stemming : bool;
  vectorization : string
}.

Record PreprocessingConfig : Type := {
  missingValueStrategy : string;
  scaling : string;
  encoding : string;
  splitRatio : R;
  outlierRemoval : string;
  dimensionalityReduction : string;
  classBalancing : string;
  featureEngineering : string;
  textProcessing : TextProcessing;
  droppedColumns : list string
}.

Record FeatureImpact : Type := {
  feature_name : string;
  impact : jsnum
}.

(** ** Correlation engine *)

Section Engine.

(** The two conversions between numbers and strings are left open: the
    decimal rendering of a number ([ToString]) and the parsing of a string
    as a number ([ToNumber]).  They matter only when a string cell reaches
    arithmetic through an [as number[]] cast. *)
Variable number_to_string : jsnum -> string.
Variable string_to_number : string -> jsnum.

Definition ToNumber (v : value) : jsnum :=
  match v with
  | VNum n => n
  | VStr s => string_to_number s
  | VBool true => Fin 1
  | VBool false => Fin 0
  | VNull => Fin 0
  | VUndef => NaN
  end.

Definition ToString (v : value) : string :=
  match v with
  | VNum n => number_to_string n
  | VStr s => s
  | VBool true => "true"
  | VBool false => "false"
  | VNull => "null"
  | VUndef => "undefined"
  end.

(** [a + b]: concatenation as soon as one side is a string. *)
Definition js_plus (a b : value) : value :=
  if is_string a || is_string b
  then VStr (ToString a ++ ToString b)
  else VNum (add (ToNumber a) (ToNumber b)).

(** [a * b] *)
Definition js_times (a b : value) : jsnum := mul (ToNumber a) (ToNumber b).

Definition calculateCorrelation (x y : list value) : jsnum :=
  let n := List.length x in
  if (n =? 0)%nat then Fin 0 else
  let sumX := reduce (fun a b _ => js_plus a b) x (num 0) in
  let sumY := reduce (fun a b _ => js_plus a b) y (num 0) in
  let sumXY := reduce (fun sum xi i => add sum (js_times xi (at_index y i))) x (Fin 0) in
  let sumX2 := reduce (fun sum xi _ => add sum (js_times xi xi)) x (Fin 0) in
  let sumY2 := reduce (fun sum yi _ => add sum (js_times yi yi)) y (Fin 0) in
  let numerator := sub (mul (Fin (INR n)) sumXY) (js_times sumX sumY) in
  let denominator :=
    Math_sqrt (mul (sub (mul (Fin (INR n)) sumX2) (js_times sumX sumX))
                   (sub (mul (Fin (INR n)) sumY2) (js_times sumY sumY))) in
  if is_zero denominator then Fin 0 else div numerator denominator.

(** Label encoding: [raw.map(v => uniqueVals.indexOf(v))] with
    [uniqueVals = Array.from(new Set(raw))]. *)
Definition labelEncode (raw : list value) : list value :=
  let uniqueVals := distinct raw in
  map (fun v => VNum (Fin (IZR (indexOf uniqueVals v)))) raw.

(** [typeof targetRaw.find(v => v !== null) === 'string'] *)
Definition targetIsString (targetRaw : list value) : bool :=
  match find not_null targetRaw with
  | Some v => is_string v
  | None => false
  end.

(** Step 1 of [calculateFeatureImpacts]: the target as numbers. *)
Definition targetNums (dataset : Dataset) (targetCol : string) : list value :=
  let targetRaw := map (fun r => get r targetCol) (rows dataset) in
  if targetIsString targetRaw then labelEncode targetRaw else targetRaw.

(** The numbers of one feature column. *)
Definition featureNums (dataset : Dataset) (col : DatasetColumn) : list value :=
  let rawVals := map (fun r => get r (name col)) (rows dataset) in
  if negb (ColumnType_eqb (type col) TNumber) then labelEncode rawVals else rawVals.

(** Step 2: one entry per column other than the target, in column order. *)
Definition impactOf (dataset : Dataset) (target : list value) (col : DatasetColumn)
  : FeatureImpact :=
  let corr := calculateCorrelation (featureNums dataset col) target in
  {| feature_name := name col; impact := if isNaN corr then Fin 0 else corr |}.

Definition impacts (dataset : Dataset) (targetCol : string) : list FeatureImpact :=
  map (impactOf dataset (targetNums dataset targetCol))
      (filter (fun col => negb (String.eqb (name col) targetCol)) (columns dataset)).

(** [(a, b) => Math.abs(b.impact) - Math.abs(a.impact)] *)
Definition byAbsImpact (a b : FeatureImpact) : jsnum :=
  sub (Math_abs (impact b)) (Math_abs (impact a)).

Definition calculateFeatureImpacts (dataset : Dataset) (targetCol : string)
  : list FeatureImpact :=
  if String.eqb targetCol "" then [] else
  sort byAbsImpact (impacts dataset targetCol).

End Engine.

(** ** [calculateCorrelation] on binary64 numbers *)

(** The same function on arrays of numbers, every operation being the
    IEEE 754 binary64 one that JavaScript performs. *)
Module F64.

Import PrimFloat.

(** An array length as a number (exact below 2^53). *)
Fixpoint of_nat (n : nat) : float :=
  match n with
  | O => 0%float
  | S k => (of_nat k + 1)%float
  end.

Definition calculateCorrelation (x y : list float) : float :=
  let n := of_nat (List.length x) in
  if (List.length x =? 0)%nat then 0%float else
  let sumX := reduce (fun a b _ => a + b)%float x 0%float in
  let sumY := reduce (fun a b _ => a + b)%float y 0%float in
  let sumXY := reduce (fun sum xi i => sum + xi * nth i y nan)%float x 0%float in
  let sumX2 := reduce (fun sum xi _ => sum + xi * xi)%float x 0%float in
  let sumY2 := reduce (fun sum yi _ => sum + yi * yi)%float y 0%float in
  let numerator := (n * sumXY - sumX * sumY)%float in
  let denominator :=
    PrimFloat.sqrt ((n * sumX2 - sumX * sumX) * (n * sumY2 - sumY * sumY))%float in
  if (denominator =? 0)%float then 0%float else (numerator / denominator)%float.

End F64.

(** ** Result synthesizer *)

(** The outcome of a run: a value, or a thrown [TypeError]. *)
Inductive result (A : Type) : Type :=
| Ok (a : A)
| Throw (e : string).
Arguments Ok {A} a.
Arguments Throw {A} e.

Definition bind {A B : Type} (m : result A) (k : A -> result B) : result B :=
  match m with
  | Ok a => k a
  | Throw e => Throw e
  end.

Notation "x <- m ;; k" := (bind m (fun x => k))
  (at level 61, m at next level, right associativity).

(** [arr[i].field]: reading a property of [undefined] throws. *)
Definition element {A : Type} (l : list A) (i : nat) : result A :=
  match nth_error l i with
  | Some a => Ok a
  | None => Throw "TypeError: Cannot read properties of undefined"
  end.

(** The values returned by the calls of [Math.random()], one name per call
    site; the sites inside loops and callbacks are indexed by the epoch and
    by the position of the feature. *)
Record Draws : Type := {
  draw_accuracy : R;
  draw_tp : R;
  draw_fp : R;
  draw_rmse : R;
  draw_mae : R;
  draw_loss : nat -> R;
  draw_shap : nat -> R;
  draw_lime : nat -> R
}.

Definition unit_interval (r : R) : Prop := 0 <= r < 1.

(** Every draw is a number of [0,1), as [Math.random()] promises. *)
Record draws_ok (d : Draws) : Prop := {
  ok_accuracy : unit_interval (draw_accuracy d);
  ok_tp : unit_interval (draw_tp d);
  ok_fp : unit_interval (draw_fp d);
  ok_rmse : unit_interval (draw_rmse d);
  ok_mae : unit_interval (draw_mae d);
  ok_loss : forall i, unit_interval (draw_loss d i);
  ok_shap : forall i, unit_interval (draw_shap d i);
  ok_lime : forall i, unit_interval (draw_lime d i)
}.

Record TrainingMetrics : Type := {
  accuracy : jsnum;
  precision : jsnum;
  recall : jsnum;
  f1Score : jsnum;
  auc : option jsnum;
  rmse : option jsnum;
  mae : option jsnum
}.

Record EpochLog : Type := {
  epoch : nat;
  loss : jsnum;
  log_accuracy : jsnum;
  val_loss : jsnum;
  val_accuracy : jsnum
}.

Record FeatureImp : Type := {
  imp_feature : string;
  importance : jsnum
}.

Record FeatureValue : Type := {
  feature : string;
  fv_value : jsnum
}.

Record RadarMetric : Type := {
  metric : string;
  radar_value : jsnum;
  fullMark : jsnum
}.

(** The values interpolated into the explanation template; the accuracy
    percentage is the number printed by [toFixed(1)]. *)
Record Explanation : Type := {
  expl_modelName : string;
  expl_accuracyPercent : jsnum;
  expl_kFold : option nat;
  expl_tp : jsnum;
  expl_tn : jsnum;
  topFeatName : string;
  secondFeatName : string
}.

(** The result bundle without its chart series.  The series that read
    nothing but the accuracy and further draws (ROC and precision-recall
    curves, residuals, learning curve, layer activations, the three
    projections and the word cloud) are added by [TrainingBundle] below; the
    artificial delay before the computation is left out. *)
Record TrainingResult : Type := {
  metrics : TrainingMetrics;
  confusionMatrix : list (list jsnum);
  featureImportance : list FeatureImp;
  lossHistory : list EpochLog;
  radarData : list RadarMetric;
  shapValues : list FeatureValue;
  limeValues : list FeatureValue;
  explanation : Explanation;
  modelCategory : ModelCategory
}.

Definition classificationModels : list string :=
  [ "Logistic Regression"; "Random Forest"; "XGBoost"; "SVM"; "Decision Tree";
    "Gradient Boosting"; "AdaBoost"; "K-Nearest Neighbors"; "Naive Bayes";
    "CNN"; "ANN"; "RNN"; "Simple Transformer";
    "TF-IDF Classifier"; "DistilBERT"; "BERT (Base)"; "RoBERTa" ]%string.

(** [arr.includes(s)] on strings. *)
Definition includes (l : list string) (s : string) : bool :=
  existsb (String.eqb s) l.

Definition isClassification (modelConfig : ModelConfig) : bool :=
  includes classificationModels (modelName modelConfig).

Definition isDL (modelConfig : ModelConfig) : bool :=
  match category modelConfig with DL => true | _ => false end.

(** The model names offered by the model-selection panel. *)
Definition models (c : ModelCategory) : list string :=
  match c with
  | ML => [ "Logistic Regression"; "Random Forest"; "XGBoost"; "SVM"; "Decision Tree";
            "Gradient Boosting"; "AdaBoost"; "K-Nearest Neighbors"; "Naive Bayes" ]
  | DL => [ "Artificial Neural Network (ANN)"; "Convolutional Neural Network (CNN)";
            "LSTM"; "Recurrent Neural Network (RNN)"; "Simple Transformer" ]
  | NLP => [ "TF-IDF Classifier"; "DistilBERT"; "BERT (Base)"; "RoBERTa" ]
  end%string.

Definition baseAccuracy (modelConfig : ModelConfig) : jsnum :=
  let baseAccuracy := Fin 0.82 in
  let baseAccuracy := if isDL modelConfig then Fin 0.88 else baseAccuracy in
  if tuning_enabled (tuning modelConfig)
  then add baseAccuracy (Fin 0.05) else baseAccuracy.

(** [realImpacts.length > 0 ? Math.abs(realImpacts[0].impact) : 0.5] *)
Definition maxCorrelation (realImpacts : list FeatureImpact) : result jsnum :=
  if (0 <? List.length realImpacts)%nat
  then first <- element realImpacts 0 ;; Ok (Math_abs (impact first))
  else Ok (Fin 0.5).

Definition accuracyModifier (maxCorrelation : jsnum) : jsnum :=
  mul (sub maxCorrelation (Fin 0.5)) (Fin 0.2).

Definition actualAccuracy (modelConfig : ModelConfig) (maxCorrelation : jsnum)
    (d : Draws) : jsnum :=
  Math_min (Fin 0.99)
    (Math_max (Fin 0.6)
       (add (add (baseAccuracy modelConfig) (accuracyModifier maxCorrelation))
            (mul (Fin (draw_accuracy d)) (Fin 0.05)))).

Definition totalSamples : jsnum := Fin 200.

(** The four counts [(tp, fp, fn, tn)] built from the target accuracy. *)
Record Counts : Type := {
  tp : jsnum;
  fp : jsnum;
  fn : jsnum;
  tn : jsnum
}.

Definition counts (actualAccuracy : jsnum) (d : Draws) : Counts :=
  let totalCorrect := Math_round (mul totalSamples actualAccuracy) in
  let totalWrong := sub totalSamples totalCorrect in
  let tp := Math_round (mul totalCorrect (add (Fin 0.5) (mul (Fin (draw_tp d)) (Fin 0.1)))) in
  let tn := sub totalCorrect tp in
  let fp := Math_round (mul totalWrong (add (Fin 0.4) (mul (Fin (draw_fp d)) (Fin 0.2)))) in
  let fn := sub totalWrong fp in
  {| tp := tp; fp := fp; fn := fn; tn := tn |}.

Definition deriveMetrics (isClassification : bool) (c : Counts) (d : Draws)
  : TrainingMetrics :=
  let precision := or_zero (div (tp c) (add (tp c) (fp c))) in
  let recall := or_zero (div (tp c) (add (tp c) (fn c))) in
  let f1Score :=
    or_zero (div (mul (mul (Fin 2) precision) recall) (add precision recall)) in
  let accuracy := div (add (tp c) (tn c)) totalSamples in
  {| accuracy := toFixed 4 accuracy;
     precision := toFixed 4 precision;
     recall := toFixed 4 recall;
     f1Score := toFixed 4 f1Score;
     auc := if isClassification
            then Some (toFixed 4 (add accuracy (Fin 0.02))) else None;
     rmse := if negb isClassification
             then Some (toFixed 2 (mul (Fin (draw_rmse d)) (Fin 1000))) else None;
     mae := if negb isClassification
            then Some (toFixed 2 (mul (Fin (draw_mae d)) (Fin 800))) else None |}.

(** One pass of the epoch loop: the new [currLoss] and [currAcc]. *)
Definition nextLoss (currLoss : jsnum) (draw : R) : jsnum :=
  let decay := Fin 0.9 in
  Math_max (Fin 0.1) (add (mul currLoss decay) (mul (Fin draw) (Fin 0.02))).

Definition nextAcc (metricsAccuracy currAcc : jsnum) : jsnum :=
  Math_min (add metricsAccuracy (Fin 0.02))
           (add currAcc (mul (sub metricsAccuracy currAcc) (Fin 0.2))).

(** [for (let i = 1; i <= epochs; i++)], with [remaining] passes to go from
    epoch [i] on. *)
Fixpoint lossLoop (metricsAccuracy : jsnum) (d : Draws) (remaining i : nat)
    (currLoss currAcc : jsnum) : list EpochLog :=
  match remaining with
  | O => []
  | S k =>
      let currLoss := nextLoss currLoss (draw_loss d i) in
      let currAcc := nextAcc metricsAccuracy currAcc in
      {| epoch := i;
         loss := toFixed 4 currLoss;
         log_accuracy := toFixed 4 currAcc;
         val_loss := toFixed 4 (add currLoss (Fin 0.05));
         val_accuracy := toFixed 4 (sub currAcc (Fin 0.03)) |}
      :: lossLoop metricsAccuracy d k (S i) currLoss currAcc
  end.

Definition epochs (modelConfig : ModelConfig) : nat :=
  if isDL modelConfig then 30%nat else 20%nat.

Definition simulateLossHistory (modelConfig : ModelConfig)
    (metricsAccuracy : jsnum) (d : Draws) : list EpochLog :=
  lossLoop metricsAccuracy d (epochs modelConfig) 1 (Fin 0.7) (Fin 0.5).

(** [arr.map((item, i) => f(item, i))] *)
Fixpoint mapi_from {A B : Type} (f : A -> nat -> B) (l : list A) (i : nat) : list B :=
  match l with
  | [] => []
  | a :: l' => f a i :: mapi_from f l' (S i)
  end.

Definition explainShap (topFeatures : list FeatureImpact) (d : Draws)
  : list FeatureValue :=
  mapi_from (fun item i =>
    {| feature := feature_name item;
       fv_value := mul (Math_abs (impact item))
                       (add (Fin 0.8) (mul (Fin (draw_shap d i)) (Fin 0.2))) |})
    topFeatures 0.

Definition explainLime (topFeatures : list FeatureImpact) (d : Draws)
  : list FeatureValue :=
  mapi_from (fun item i =>
    {| feature := feature_name item;
       fv_value := mul (impact item)
                       (add (Fin 0.5) (mul (Fin (draw_lime d i)) (Fin 0.5))) |})
    topFeatures 0.

(** [metrics.auc || 0] *)
Definition auc_or_zero (m : TrainingMetrics) : jsnum :=
  match auc m with
  | Some a => or_zero a
  | None => Fin 0
  end.

Definition buildRadar (m : TrainingMetrics) : list RadarMetric :=
  [ {| metric := "Accuracy"; radar_value := accuracy m; fullMark := Fin 1 |};
    {| metric := "Precision"; radar_value := precision m; fullMark := Fin 1 |};
    {| metric := "Recall"; radar_value := recall m; fullMark := Fin 1 |};
    {| metric := "F1 Score"; radar_value := f1Score m; fullMark := Fin 1 |};
    {| metric := "AUC"; radar_value := auc_or_zero m; fullMark := Fin 1 |} ].

(** [shapValues.length > k ? shapValues[k].feature : fallback] *)
Definition featNameAt (shapValues : list FeatureValue) (k : nat) (fallback : string)
  : result string :=
  if (k <? List.length shapValues)%nat
  then s <- element shapValues k ;; Ok (feature s)
  else Ok fallback.

Section Synthesizer.

Variable number_to_string : jsnum -> string.
Variable string_to_number : string -> jsnum.

Definition simulateBackendTraining (dataset : Dataset) (modelConfig : ModelConfig)
    (preprocessing : PreprocessingConfig) (d : Draws) : result TrainingResult :=
  let realImpacts :=
    calculateFeatureImpacts number_to_string string_to_number
      dataset (targetColumn modelConfig) in
  maxCorrelation <- maxCorrelation realImpacts ;;
  let actualAccuracy := actualAccuracy modelConfig maxCorrelation d in
  let c := counts actualAccuracy d in
  let confusionMatrix := [[tp c; fp c]; [fn c; tn c]] in
  let metrics := deriveMetrics (isClassification modelConfig) c d in
  let lossHistory := simulateLossHistory modelConfig (accuracy metrics) d in
  let topFeatures := firstn 8 realImpacts in
  let shapValues := explainShap topFeatures d in
  let limeValues := explainLime topFeatures d in
  topFeatName <- featNameAt shapValues 0 "Feature X" ;;
  secondFeatName <- featNameAt shapValues 1 "Feature Y" ;;
  Ok {| metrics := metrics;
        confusionMatrix := confusionMatrix;
        featureImportance :=
          map (fun s => {| imp_feature := feature s;
                           importance := Math_abs (fv_value s) |}) shapValues;
        lossHistory := lossHistory;
        radarData := buildRadar metrics;
        shapValues := shapValues;
        limeValues := limeValues;
        explanation :=
          {| expl_modelName := modelName modelConfig;
             expl_accuracyPercent := toFixed 1 (mul (accuracy metrics) (Fin 100));
             expl_kFold :=
               if cv_enabled (crossValidation modelConfig)
               then Some (kFold (crossValidation modelConfig)) else None;
             expl_tp := tp c;
             expl_tn := tn c;
             topFeatName := topFeatName;
             secondFeatName := secondFeatName |};
        modelCategory := category modelConfig |}.

End Synthesizer.

(** ** Mathematical counterparts used in the statements *)

(** The sum of a sequence, the sum of products of two sequences, and the
    two quantities of the Pearson formula. *)
Fixpoint sum (l : list R) : R :=
  match l with
  | [] => 0
  | a :: l' => a + sum l'
  end.

Fixpoint dot (x y : list R) : R :=
  match x, y with
  | a :: x', b :: y' => a * b + dot x' y'
  | _, _ => 0
  end.

(** [n * sumXY - sumX * sumY] *)
Definition covTerm (x y : list R) : R :=
  INR (List.length x) * dot x y - sum x * sum y.

(** [n * sumX2 - sumX * sumX] *)
Definition varTerm (x : list R) : R := covTerm x x.

(** All differences [x_i - x_j] with [i < j]. *)
Fixpoint diffs (x : list R) : list R :=
  match x with
  | [] => []
  | a :: x' => map (fun c => a - c) x' ++ diffs x'
  end.

(** A sequence is constant when all its elements are equal. *)
Definition constant (x : list R) : Prop :=
  forall a b, In a x -> In b x -> a = b.

(** Conversions for the runs in which no string reaches arithmetic: they
    are never consulted there. *)
Definition unrendered : jsnum -> string := fun _ => EmptyString.
Definition unparsed : string -> jsnum := fun _ => NaN.

(** The Pearson coefficient as the code computes it on real numbers. *)
Definition pearson (x y : list R) : R :=
  if (List.length x =? 0)%nat then 0
  else
    let denominator := sqrt (varTerm x * varTerm y) in
    if Reqb denominator 0 then 0 else covTerm x y / denominator.

(** [a] may stand before [b] in the ranking: [|impact b| <= |impact a|]. *)
Definition ranksBefore (a b : FeatureImpact) : Prop :=
  leb (Math_abs (impact b)) (Math_abs (impact a)) = true.

Definition notNaN (e : FeatureImpact) : Prop := isNaN (impact e) = false.

(** The columns other than the target, in dataset order. *)
Definition featureColumns (dataset : Dataset) (targetCol : string) : list DatasetColumn :=
  filter (fun col => negb (String.eqb (name col) targetCol)) (columns dataset).

(** The counts as integers, for a finite target accuracy [a]. *)
Definition totalCorrectZ (a : R) : Z := Zfloor (200 * a + / 2).

Definition tpZ (a : R) (d : Draws) : Z :=
  Zfloor (IZR (totalCorrectZ a) * (0.5 + draw_tp d * 0.1) + / 2).

Definition fpZ (a : R) (d : Draws) : Z :=
  Zfloor ((200 + - IZR (totalCorrectZ a)) * (0.4 + draw_fp d * 0.2) + / 2).

Definition tnZ (a : R) (d : Draws) : Z := (totalCorrectZ a - tpZ a d)%Z.

Definition fnZ (a : R) (d : Draws) : Z := (200 - totalCorrectZ a - fpZ a d)%Z.

(** The metrics as the specification words them, on integer counts. *)
Definition specPrecision (TP FP : Z) : R :=
  if (TP + FP =? 0)%Z then 0 else IZR TP / IZR (TP + FP).

Definition specRecall (TP FN : Z) : R :=
  if (TP + FN =? 0)%Z then 0 else IZR TP / IZR (TP + FN).

Definition specF1 (p r : R) : R :=
  if Reqb (p + r) 0 then 0 else 2 * p * r / (p + r).

Definition specAccuracy (TP TN : Z) : R := IZR (TP + TN) / 200.

(** The training accuracy and the loss after [k] epochs, as real numbers:
    the recurrences of the epoch loop, the cap of the accuracy left out. *)
Fixpoint accAt (A : R) (k : nat) : R :=
  match k with
  | O => 0.5
  | S k' => accAt A k' + (A - accAt A k') * 0.2
  end.

Fixpoint lossAt (d : Draws) (k : nat) : R :=
  match k with
  | O => 0.7
  | S k' => Rmax 0.1 (lossAt d k' * 0.9 + draw_loss d (S k') * 0.02)
  end.

(** The entry logged for epoch [i]. *)
Definition entryAt (A : R) (d : Draws) (i : nat) : EpochLog :=
  {| epoch := i;
     loss := Fin (round_dec 4 (lossAt d i));
     log_accuracy := Fin (round_dec 4 (accAt A i));
     val_loss := Fin (round_dec 4 (lossAt d i) + 0.05);
     val_accuracy := Fin (round_dec 4 (accAt A i) - 0.03) |}.

(** The draws [d] with the two regression draws replaced. *)
Definition with_regression_draws (d : Draws) (r1 r2 : R) : Draws :=
  {| draw_accuracy := draw_accuracy d;
     draw_tp := draw_tp d;
     draw_fp := draw_fp d;
     draw_rmse := r1;
     draw_mae := r2;
     draw_loss := draw_loss d;
     draw_shap := draw_shap d;
     draw_lime := draw_lime d |}.

(** Two rows, a numeric feature and a boolean target. *)
Definition flags : Dataset :=
  {| dataset_name := "flags.csv";
     rows := [ [("f", num 0); ("t", VBool true)];
               [("f", num 1); ("t", VBool false)] ]%string;
     columns :=
       [ {| name := "f"; type := TNumber; missingCount := 0; uniqueCount := 2 |};
         {| name := "t"; type := TBoolean; missingCount := 0; uniqueCount := 2 |} ]%string;
     totalRows := 2 |}.

(** Two rows, the feature missing from the second one. *)
Definition gappy : Dataset :=
  {| dataset_name := "gappy.csv";
     rows := [ [("a", num 1); ("t", num 1)]; [("t", num 2)] ]%string;
     columns :=
       [ {| name := "a"; type := TNumber; missingCount := 1; uniqueCount := 2 |};
         {| name := "t"; type := TNumber; missingCount := 0; uniqueCount := 2 |} ]%string;
     totalRows := 2 |}.

(** Two rows and the target as only column. *)
Definition solo : Dataset :=
  {| dataset_name := "solo.csv";
     rows := [ [("t", num 1)]; [("t", num 0)] ]%string;
     columns :=
       [ {| name := "t"; type := TNumber; missingCount := 0; uniqueCount := 2 |} ]%string;
     totalRows := 2 |}.

(** The initial configurations of the training page. *)
Definition initialPreprocessing : PreprocessingConfig :=
  {| missingValueStrategy := "mean";
     scaling := "standard";
     encoding := "label";
     splitRatio := 0.8;
     outlierRemoval := "none";
     dimensionalityReduction := "none";
     classBalancing := "none";
     featureEngineering := "none";
     textProcessing :=
       {| removeStopwords := true; lemmatization := false;
          stemming := false; vectorization := "tfidf" |};
     droppedColumns := [] |}.

Definition initialModelConfig : ModelConfig :=
  {| category := ML;
     modelName := "Random Forest";
     targetColumn := "";
     hyperparameters := [];
     tuning := {| tuning_enabled := false; tuning_method := "grid"; paramGrid := [] |};
     crossValidation := {| cv_enabled := false; kFold := 5 |} |}.

(** The initial configuration with a model and a target chosen. *)
Definition configFor (c : ModelCategory) (model target : string) : ModelConfig :=
  {| category := c;
     modelName := model;
     targetColumn := target;
     hyperparameters := hyperparameters initialModelConfig;
     tuning := tuning initialModelConfig;
     crossValidation := crossValidation initialModelConfig |}.

(** Draws that are all 0 but for the [rmse] one. *)
Definition drawsWithRmse (r : R) : Draws :=
  {| draw_accuracy := 0; draw_tp := 0; draw_fp := 0;
     draw_rmse := r; draw_mae := 0;
     draw_loss := fun _ => 0; draw_shap := fun _ => 0; draw_lime := fun _ => 0 |}.

(** ** Further numeric operations *)

(** [a < b] and [a === b] on numbers; false as soon as a NaN is involved. *)
Definition ltb (a b : jsnum) : bool :=
  match a, b with
  | NaN, _ | _, NaN => false
  | _, _ => negb (leb b a)
  end.

Definition num_equals (a b : jsnum) : bool :=
  match a, b with
  | NaN, _ | _, NaN => false
  | _, _ => jsnum_same a b
  end.

(** [Math.floor] *)
Definition Math_floor (a : jsnum) : jsnum :=
  match a with
  | Fin x => Fin (IZR (Zfloor x))
  | other => other
  end.

(** [Math.log] *)
Definition Math_log (a : jsnum) : jsnum :=
  match a with
  | Fin x => if Rltb x 0 then NaN else if Reqb x 0 then NInf else Fin (ln x)
  | PInf => PInf
  | NInf | NaN => NaN
  end.

(** [Math.cos] *)
Definition Math_cos (a : jsnum) : jsnum :=
  match a with
  | Fin x => Fin (cos x)
  | PInf | NInf | NaN => NaN
  end.

Definition is_integer (x : R) : bool := Reqb (IZR (Zfloor x)) x.

Definition is_odd_integer (x : R) : bool := is_integer x && Z.odd (Zfloor x).

(** [Math.pow(base, exponent)], case by case as the language defines it. *)
Definition Math_pow (base exponent : jsnum) : jsnum :=
  match exponent with
  | NaN => NaN
  | Fin e =>
      if Reqb e 0 then Fin 1 else
      match base with
      | NaN => NaN
      | PInf => if Rltb 0 e then PInf else Fin 0
      | NInf =>
          if Rltb 0 e then (if is_odd_integer e then NInf else PInf) else Fin 0
      | Fin b =>
          if Reqb b 0 then (if Rltb 0 e then Fin 0 else PInf)
          else if Rltb 0 b then Fin (Rpower b e)
          else if is_integer e
               then Fin ((if Z.odd (Zfloor e) then -1 else 1) * Rpower (- b) e)
               else NaN
      end
  | PInf =>
      match base with
      | NaN => NaN
      | PInf | NInf => PInf
      | Fin b =>
          if Rltb 1 (Rabs b) then PInf
          else if Reqb (Rabs b) 1 then NaN else Fin 0
      end
  | NInf =>
      match base with
      | NaN => NaN
      | PInf | NInf => Fin 0
      | Fin b =>
          if Rltb 1 (Rabs b) then Fin 0
          else if Reqb (Rabs b) 1 then NaN else PInf
      end
  end.

(** [Math.min(...values)] and [Math.max(...values)] *)
Definition Math_min_of (values : list jsnum) : jsnum := fold_left Math_min values PInf.
Definition Math_max_of (values : list jsnum) : jsnum := fold_left Math_max values NInf.

(** The array index denoted by a number used as a property key, if any. *)
Definition array_index (idx : jsnum) : option nat :=
  match idx with
  | Fin x => if is_integer x && Rleb 0 x then Some (Z.to_nat (Zfloor x)) else None
  | _ => None
  end.

(** ** Column helpers and statistics (utils) *)

Definition getNumericalColumns (dataset : Dataset) : list string :=
  map name (filter (fun c => ColumnType_eqb (type c) TNumber) (columns dataset)).

Definition getCategoricalColumns (dataset : Dataset) : list string :=
  map name
    (filter (fun c => ColumnType_eqb (type c) TString || ColumnType_eqb (type c) TBoolean)
       (columns dataset)).

(** [typeof v === 'number' && !isNaN(v)] *)
Definition is_number (v : value) : bool :=
  match v with
  | VNum n => negb (isNaN n)
  | _ => false
  end.

(** The numbers among a list of cells, as numbers. *)
Fixpoint numbersOf (l : list value) : list jsnum :=
  match l with
  | [] => []
  | VNum n :: l' => if isNaN n then numbersOf l' else n :: numbersOf l'
  | _ :: l' => numbersOf l'
  end.

Record HistogramBin : Type := {
  range : string;
  count : nat
}.

(** [histogram[binIndex].count++]; reading [count] of [undefined] throws. *)
Fixpoint bump (histogram : list HistogramBin) (i : nat) : option (list HistogramBin) :=
  match histogram, i with
  | [], _ => None
  | b :: h, O => Some ({| range := range b; count := S (count b) |} :: h)
  | b :: h, S i' =>
      match bump h i' with
      | Some h' => Some (b :: h')
      | None => None
      end
  end.

Definition bumpAt (histogram : list HistogramBin) (binIndex : jsnum)
  : result (list HistogramBin) :=
  match array_index binIndex with
  | Some i =>
      match bump histogram i with
      | Some h => Ok h
      | None => Throw "TypeError: Cannot read properties of undefined"
      end
  | None => Throw "TypeError: Cannot read properties of undefined"
  end.

Record CorrelationCell : Type := {
  cell_x : string;
  cell_y : string;
  cell_value : jsnum
}.

Record ColumnStats : Type := {
  stat_mean : option jsnum;
  stat_median : option value;
  stat_std : option jsnum;
  stat_min : option jsnum;
  stat_max : option jsnum;
  missing : nat;
  unique : nat;
  stat_type : ColumnType
}.

(** ** The range of binary64 numbers

    The arithmetic of the histogram and of the column statistics is exact
    within the range of the binary64 numbers and follows IEEE 754 at its two
    ends.  A result of magnitude [2^1024 - 2^970] or more, that is half way
    between the largest double and [2^1024] or beyond, becomes an infinity.
    A product or a quotient of magnitude [2^-1075] or less, half the
    smallest double, becomes 0; sums and differences of doubles are exact
    near 0 and never do. *)
Definition overflow_bound : R := 2 ^ 1024 - 2 ^ 970.
Definition smallest_double : R := / 2 ^ 1074.
Definition underflow_bound : R := smallest_double / 2.

Definition overflowing (a : jsnum) : jsnum :=
  match a with
  | Fin x =>
      if Rleb overflow_bound (Rabs x) then (if Rltb 0 x then PInf else NInf)
      else Fin x
  | other => other
  end.

Definition underflowing (a : jsnum) : jsnum :=
  match a with
  | Fin x => if Rleb (Rabs x) underflow_bound then Fin 0 else Fin x
  | other => other
  end.

Definition add64 (a b : jsnum) : jsnum := overflowing (add a b).
Definition sub64 (a b : jsnum) : jsnum := overflowing (sub a b).
Definition mul64 (a b : jsnum) : jsnum := underflowing (overflowing (mul a b)).
Definition div64 (a b : jsnum) : jsnum := underflowing (overflowing (div a b)).
Definition pow64 (a b : jsnum) : jsnum := underflowing (overflowing (Math_pow a b)).

(** [Array(n)] throws a RangeError unless [n] is below [2^32]. *)
Definition valid_array_length (n : nat) : bool := (Z.of_nat n <? 4294967296)%Z.

(** [v !== null && v !== undefined && v !== ''] *)
Definition is_present (v : value) : bool :=
  match v with
  | VNull | VUndef => false
  | VStr s => negb (String.eqb s "")
  | _ => true
  end.

Section Statistics.

Variable number_to_string : jsnum -> string.
Variable string_to_number : string -> jsnum.
(** [n.toFixed(d)] as the string it is. *)
Variable toFixed_string : nat -> jsnum -> string.

(** [a + b] on cells, within the range of the doubles. *)
Definition plus64 (a b : value) : value :=
  match js_plus number_to_string string_to_number a b with
  | VNum n => VNum (overflowing n)
  | other => other
  end.

(** The bin of one value: [Math.floor((v - min) / binSize)], brought back
    into [0, bins - 1]. *)
Definition binIndexOf (min binSize : jsnum) (bins : nat) (v : jsnum) : jsnum :=
  let binIndex := Math_floor (div64 (sub64 v min) binSize) in
  let binIndex :=
    if leb (Fin (INR bins)) binIndex then sub (Fin (INR bins)) (Fin 1) else binIndex in
  if ltb binIndex (Fin 0) then Fin 0 else binIndex.

(** [values.forEach(v => { ...; histogram[binIndex].count++ })] *)
Fixpoint fillBins (min binSize : jsnum) (bins : nat) (values : list jsnum)
    (histogram : list HistogramBin) : result (list HistogramBin) :=
  match values with
  | [] => Ok histogram
  | v :: values' =>
      histogram' <- bumpAt histogram (binIndexOf min binSize bins v) ;;
      fillBins min binSize bins values' histogram'
  end.

Definition calculateHistogram (dataset : Dataset) (columnName : string) (bins : nat)
  : result (list HistogramBin) :=
  let values := numbersOf (map (fun r => get r columnName) (rows dataset)) in
  if (List.length values =? 0)%nat then Ok [] else
  let min := Math_min_of values in
  let max := Math_max_of values in
  if num_equals min max
  then Ok [ {| range := number_to_string min; count := List.length values |} ]
  else
    let range := sub64 max min in
    let binSize := div64 range (Fin (INR bins)) in
    if negb (valid_array_length bins) then Throw "RangeError: Invalid array length"
    else
    let histogram :=
      map (fun i =>
             {| range :=
                  toFixed_string 1 (add64 min (mul64 (Fin (INR i)) binSize))
                  ++ " - "
                  ++ toFixed_string 1
                       (add64 min (mul64 (add (Fin (INR i)) (Fin 1)) binSize));
                count := 0 |})
          (seq 0 bins) in
    fillBins min binSize bins values histogram.

(** [(a, b) => a - b]; only the sign of the difference is used, and it is
    that of the exact difference. *)
Definition ascending (a b : value) : jsnum :=
  sub (ToNumber string_to_number a) (ToNumber string_to_number b).

Definition calculateColumnStats (dataset : Dataset) (columnName : string) : ColumnStats :=
  match find (fun c => String.eqb (name c) columnName) (columns dataset) with
  | None =>
      {| stat_mean := None; stat_median := None; stat_std := None;
         stat_min := None; stat_max := None;
         missing := 0; unique := 0; stat_type := TUnknown |}
  | Some col =>
      let values := filter is_present (map (fun r => get r columnName) (rows dataset)) in
      if ColumnType_eqb (type col) TNumber && (0 <? List.length values)%nat then
        let nums := values in
        let sum := reduce (fun a b _ => plus64 a b) nums (num 0) in
        let len := Fin (INR (List.length nums)) in
        let mean := toFixed 2 (div64 (ToNumber string_to_number sum) len) in
        let sorted := sort ascending nums in
        let mid := Nat.div (List.length sorted) 2 in
        let median :=
          if negb (Nat.modulo (List.length sorted) 2 =? 0)%nat
          then at_index sorted mid
          else VNum (div64 (ToNumber string_to_number
                              (plus64 (at_index sorted (mid - 1)) (at_index sorted mid)))
                           (Fin 2)) in
        let variance :=
          div64 (reduce (fun a b _ =>
                           add64 a (pow64 (sub64 (ToNumber string_to_number b) mean)
                                          (Fin 2)))
                   nums (Fin 0))
                len in
        {| stat_mean := Some mean;
           stat_median := Some median;
           stat_std := Some (toFixed 2 (Math_sqrt variance));
           stat_min := Some (Math_min_of (map (ToNumber string_to_number) nums));
           stat_max := Some (Math_max_of (map (ToNumber string_to_number) nums));
           missing := missingCount col;
           unique := uniqueCount col;
           stat_type := type col |}
      else
        {| stat_mean := None; stat_median := None; stat_std := None;
           stat_min := None; stat_max := None;
           missing := missingCount col;
           unique := uniqueCount col;
           stat_type := type col |}
  end.

Definition generateCorrelationMatrix (dataset : Dataset) : list CorrelationCell :=
  let numericCols := firstn 15 (getNumericalColumns dataset) in
  if (List.length numericCols <? 2)%nat then [] else
  flat_map (fun colA =>
    map (fun colB =>
      let cleanRows :=
        filter (fun r => is_number (get r colA) && is_number (get r colB))
          (rows dataset) in
      let valuesA := map (fun r => get r colA) cleanRows in
      let valuesB := map (fun r => get r colB) cleanRows in
      let corr := calculateCorrelation number_to_string string_to_number
                    valuesA valuesB in
      {| cell_x := colA; cell_y := colB;
         cell_value := if isNaN corr then Fin 0 else toFixed 2 corr |})
      numericCols)
    numericCols.

End Statistics.

(** The least and the greatest of a non-empty sequence of reals, and the
    total of the counts of a histogram. *)
Definition listMin (r : R) (rs : list R) : R := fold_left Rmin rs r.
Definition listMax (r : R) (rs : list R) : R := fold_left Rmax rs r.

(** The difference between the greatest and the least of a sequence. *)
Definition spread (rs : list R) : R :=
  match rs with
  | [] => 0
  | r :: rs' => listMax r rs' - listMin r rs'
  end.

Fixpoint totalCount (h : list HistogramBin) : nat :=
  match h with
  | [] => 0
  | b :: h' => count b + totalCount h'
  end.

(** What [calculateCorrelation] computes on two arrays of numbers. *)
Definition sumOf (xs : list jsnum) : jsnum := fold_left add xs (Fin 0).

Definition sumProducts (xs ys : list jsnum) : jsnum :=
  fold_left (fun s p => add s (mul (fst p) (snd p))) (combine xs ys) (Fin 0).

Definition correlationOf (xs ys : list jsnum) : jsnum :=
  let n := Fin (INR (List.length xs)) in
  if (List.length xs =? 0)%nat then Fin 0 else
  let numerator := sub (mul n (sumProducts xs ys)) (mul (sumOf xs) (sumOf ys)) in
  let denominator :=
    Math_sqrt (mul (sub (mul n (sumProducts xs xs)) (mul (sumOf xs) (sumOf xs)))
                   (sub (mul n (sumProducts ys ys)) (mul (sumOf ys) (sumOf ys)))) in
  if is_zero denominator then Fin 0 else div numerator denominator.

(** Two rows, a numeric feature equal to the numeric target. *)
Definition aligned : Dataset :=
  {| dataset_name := "aligned.csv";
     rows := [ [("f", num 0); ("t", num 0)]; [("f", num 1); ("t", num 1)] ]%string;
     columns :=
       [ {| name := "f"; type := TNumber; missingCount := 0; uniqueCount := 2 |};
         {| name := "t"; type := TNumber; missingCount := 0; uniqueCount := 2 |} ]%string;
     totalRows := 2 |}.

(** A configuration with hyperparameter tuning switched on. *)
Definition tunedConfig (c : ModelCategory) (model target : string) : ModelConfig :=
  {| category := c;
     modelName := model;
     targetColumn := target;
     hyperparameters := hyperparameters initialModelConfig;
     tuning := {| tuning_enabled := true; tuning_method := "grid"; paramGrid := [] |};
     crossValidation := crossValidation initialModelConfig |}.

(** ** Chart series of the synthesizer

    The series below are part of the returned bundle; they read nothing but
    the reported accuracy [metrics.accuracy] and further draws. *)

Record Point : Type := {
  point_x : jsnum;
  point_y : jsnum
}.

(** [4 + (metrics.accuracy * 4)] *)
Definition steepness (metricsAccuracy : jsnum) : jsnum :=
  add (Fin 4) (mul metricsAccuracy (Fin 4)).

(** The two points pushed by pass [i] of [for (let i = 0; i <= 20; i++)]. *)
Definition rocPoint (steepness : jsnum) (i : nat) : Point :=
  let x := div (Fin (INR i)) (Fin 20) in
  let tpr :=
    if num_equals x (Fin 0) then Fin 0
    else Math_min (Fin 1) (Math_pow x (div (Fin 1) steepness)) in
  {| point_x := toFixed 2 x; point_y := toFixed 2 tpr |}.

Definition prPoint (steepness : jsnum) (i : nat) : Point :=
  let x := div (Fin (INR i)) (Fin 20) in
  let p := Math_max (Fin 0) (sub (Fin 1) (Math_pow x steepness)) in
  {| point_x := toFixed 2 x; point_y := toFixed 2 p |}.

Definition rocCurve (metricsAccuracy : jsnum) : list Point :=
  map (rocPoint (steepness metricsAccuracy)) (seq 0 21).

Definition prCurve (metricsAccuracy : jsnum) : list Point :=
  map (prPoint (steepness metricsAccuracy)) (seq 0 21).

(** The ordinates of the two curves before rounding, as real numbers. *)
Definition rocY (s : R) (i : nat) : R :=
  match i with
  | O => 0
  | S _ => Rpower (INR i / 20) (1 / s)
  end.

Definition prY (s : R) (i : nat) : R :=
  match i with
  | O => 1
  | S _ => 1 - Rpower (INR i / 20) s
  end.

(** The values of [i] in [for (let i = 10; i <= 100; i += 10)]. *)
Definition decades : list nat := map (fun k => (10 * k)%nat) (seq 1 10).

Definition learningPoint (metricsAccuracy : jsnum) (i : nat) : Point :=
  {| point_x := Fin (INR i);
     point_y := Math_min metricsAccuracy
                  (add (Fin 0.5) (mul (Math_log (Fin (INR i))) (Fin 0.1))) |}.

Definition learningCurve (metricsAccuracy : jsnum) : list Point :=
  map (learningPoint metricsAccuracy) decades.

Record Word : Type := {
  text : string;
  word_value : jsnum
}.

Definition words : list string :=
  [ "dataset"; "features"; "model"; "training"; "accuracy"; "loss"; "python";
    "algorithm"; "neural"; "predict" ]%string.

(** [words.map(w => ({ text: w, value: Math.floor(Math.random() * 80) + 20 }))],
    the draw of the word at position [i] being [draw i]. *)
Definition wordCloud (draw : nat -> R) : list Word :=
  mapi_from (fun w i =>
    {| text := w;
       word_value := add (Math_floor (mul (Fin (draw i)) (Fin 80))) (Fin 20) |})
    words 0.

(** ** Normal deviates, residuals and projections

    The calls of [Math.random()] made by these series are read from a
    stream [s] of draws, the state being the position of the next draw.  The
    two [while] loops of [randn_bm] run for as long as the draws are 0: they
    are given [fuel] passes each, and the result is [None] when that does
    not suffice. *)

Definition Gen (A : Type) : Type := nat -> option (A * nat).

Definition gret {A : Type} (a : A) : Gen A := fun pos => Some (a, pos).

Definition gbind {A B : Type} (m : Gen A) (k : A -> Gen B) : Gen B :=
  fun pos =>
    match m pos with
    | Some (a, pos') => k a pos'
    | None => None
    end.

Notation "x <~ m ;; k" := (gbind m (fun x => k))
  (at level 61, m at next level, right associativity).

(** [Math.random()] *)
Definition Math_random (s : nat -> R) : Gen R := fun pos => Some (s pos, S pos).

(** [while (u === 0) u = Math.random();] *)
Fixpoint redraw_while_zero (s : nat -> R) (fuel : nat) (u : R) : Gen R :=
  fun pos =>
    if Reqb u 0 then
      match fuel with
      | O => None
      | S fuel' => redraw_while_zero s fuel' (s pos) (S pos)
      end
    else Some (u, pos).

Definition randn_bm (s : nat -> R) (fuel : nat) : Gen jsnum :=
  u <~ redraw_while_zero s fuel 0 ;;
  v <~ redraw_while_zero s fuel 0 ;;
  gret (mul (Math_sqrt (mul (Fin (-2)) (Math_log (Fin u))))
            (Math_cos (mul (mul (Fin 2) (Fin PI)) (Fin v)))).

(** [for (let i = 0; i < 50; i++) residuals.push({ x: Math.random() * 100,
    y: randn_bm() * 5 })], with [n] passes to go. *)
Fixpoint residualsLoop (s : nat -> R) (fuel n : nat) : Gen (list Point) :=
  match n with
  | O => gret []
  | S n' =>
      r <~ Math_random s ;;
      z <~ randn_bm s fuel ;;
      rest <~ residualsLoop s fuel n' ;;
      gret ({| point_x := mul (Fin r) (Fin 100); point_y := mul z (Fin 5) |} :: rest)
  end.

Definition residuals (s : nat -> R) (fuel : nat) : Gen (list Point) :=
  residualsLoop s fuel 50.

Record LabelledPoint : Type := {
  lp_x : jsnum;
  lp_y : jsnum;
  label : string
}.

(** The passes [i, i + n) of the loop of [generateProjection]. *)
Fixpoint projectionLoop (s : nat -> R) (fuel : nat) (separation spread : jsnum)
    (n i : nat) : Gen (list LabelledPoint) :=
  match n with
  | O => gret []
  | S n' =>
      point <~ (if (i <? 75)%nat then
                  z1 <~ randn_bm s fuel ;;
                  z2 <~ randn_bm s fuel ;;
                  r <~ Math_random s ;;
                  gret {| lp_x := sub (mul z1 spread) separation;
                          lp_y := add (mul z2 spread) (mul (Fin r) (Fin 2));
                          label := "Class 0" |}
                else
                  z1 <~ randn_bm s fuel ;;
                  z2 <~ randn_bm s fuel ;;
                  r <~ Math_random s ;;
                  gret {| lp_x := add (mul z1 spread) separation;
                          lp_y := sub (mul z2 spread) (mul (Fin r) (Fin 2));
                          label := "Class 1" |}) ;;
      rest <~ projectionLoop s fuel separation spread n' (S i) ;;
      gret (point :: rest)
  end.

Definition generateProjection (s : nat -> R) (fuel : nat)
    (separation spread : jsnum) : Gen (list LabelledPoint) :=
  projectionLoop s fuel separation spread 150 0.

(** The Box-Muller deviate of two draws. *)
Definition boxMuller (u v : R) : R := sqrt (-2 * ln u) * cos (2 * PI * v).

(** A stream of draws with zeros before the two draws that count. *)
Definition sparseDraws : nat -> R :=
  fun i => match i with 1%nat => / 2 | 3%nat => / 4 | _ => 0 end.

(** A stream of draws without zero. *)
Definition halves : nat -> R := fun _ => / 2.

(** ** The bundle in full

    [simulateBackendTraining] with every field of the object it returns: the
    nine fields of [TrainingResult] and the nine chart series.  The draws of
    the two projection loops and of the residuals depend on how often
    [randn_bm] redraws, so each of these call sites reads a stream of its
    own from position 0.  The outcome is [None] when a [while] loop of
    [randn_bm] is still running after [fuel] passes. *)
Record ChartDraws : Type := {
  draw_pca : nat -> R;
  draw_tsne : nat -> R;
  draw_umap : nat -> R;
  draw_residuals : nat -> R;
  draw_words : nat -> R;
  draw_activations : nat -> R
}.

Record charts_ok (c : ChartDraws) : Prop := {
  ok_pca : forall i, unit_interval (draw_pca c i);
  ok_tsne : forall i, unit_interval (draw_tsne c i);
  ok_umap : forall i, unit_interval (draw_umap c i);
  ok_residuals : forall i, unit_interval (draw_residuals c i);
  ok_words : forall i, unit_interval (draw_words c i);
  ok_activations : forall i, unit_interval (draw_activations c i)
}.

(** Among any [fuel] draws in a row of the stream, one is not 0. *)
Definition fair (s : nat -> R) (fuel : nat) : Prop :=
  forall pos, exists k, (k < fuel)%nat /\ s (pos + k)%nat <> 0.

Definition charts_fair (c : ChartDraws) (fuel : nat) : Prop :=
  fair (draw_pca c) fuel /\ fair (draw_tsne c) fuel /\
  fair (draw_umap c) fuel /\ fair (draw_residuals c) fuel.

Record TrainingBundle : Type := {
  bundle_result : TrainingResult;
  bundle_rocCurve : list Point;
  bundle_precisionRecallCurve : list Point;
  bundle_residuals : list Point;
  bundle_learningCurve : list Point;
  bundle_layerActivations : list jsnum;
  bundle_pcaComponents : list LabelledPoint;
  bundle_tsneComponents : list LabelledPoint;
  bundle_umapComponents : list LabelledPoint;
  bundle_wordCloud : list Word
}.

(** [Array.from({ length: 20 }, () => Math.random())] *)
Definition layerActivations (draw : nat -> R) : list jsnum :=
  map (fun i => Fin (draw i)) (seq 0 20).

Section Bundle.

Variable number_to_string : jsnum -> string.
Variable string_to_number : string -> jsnum.

Definition simulateBackendTrainingBundle (dataset : Dataset) (modelConfig : ModelConfig)
    (preprocessing : PreprocessingConfig) (d : Draws) (c : ChartDraws) (fuel : nat)
  : option (result TrainingBundle) :=
  let realImpacts :=
    calculateFeatureImpacts number_to_string string_to_number
      dataset (targetColumn modelConfig) in
  match maxCorrelation realImpacts with
  | Throw e => Some (Throw e)
  | Ok maxCorrelation =>
  let actualAccuracy := actualAccuracy modelConfig maxCorrelation d in
  let k := counts actualAccuracy d in
  let confusionMatrix := [[tp k; fp k]; [fn k; tn k]] in
  let rawAccuracy := div (add (tp k) (tn k)) totalSamples in
  let metrics := deriveMetrics (isClassification modelConfig) k d in
  let rocCurve := rocCurve (accuracy metrics) in
  let prCurve := prCurve (accuracy metrics) in
  let lossHistory := simulateLossHistory modelConfig (accuracy metrics) d in
  match generateProjection (draw_pca c) fuel (mul (Fin 2) rawAccuracy) (Fin 1.5) 0%nat with
  | None => None
  | Some (pcaComponents, _) =>
  match generateProjection (draw_tsne c) fuel (mul (Fin 4) rawAccuracy) (Fin 0.8) 0%nat with
  | None => None
  | Some (tsneComponents, _) =>
  match generateProjection (draw_umap c) fuel (mul (Fin 5) rawAccuracy) (Fin 0.5) 0%nat with
  | None => None
  | Some (umapComponents, _) =>
  let topFeatures := firstn 8 realImpacts in
  let shapValues := explainShap topFeatures d in
  let limeValues := explainLime topFeatures d in
  match residuals (draw_residuals c) fuel 0%nat with
  | None => None
  | Some (residuals, _) =>
  let learningCurve := learningCurve (accuracy metrics) in
  let radarData := buildRadar metrics in
  let wordCloud := wordCloud (draw_words c) in
  match featNameAt shapValues 0 "Feature X" with
  | Throw e => Some (Throw e)
  | Ok topFeatName =>
  match featNameAt shapValues 1 "Feature Y" with
  | Throw e => Some (Throw e)
  | Ok secondFeatName =>
  Some (Ok
    {| bundle_result :=
         {| metrics := metrics;
            confusionMatrix := confusionMatrix;
            featureImportance :=
              map (fun s => {| imp_feature := feature s;
                               importance := Math_abs (fv_value s) |}) shapValues;
            lossHistory := lossHistory;
            radarData := radarData;
            shapValues := shapValues;
            limeValues := limeValues;
            explanation :=
              {| expl_modelName := modelName modelConfig;
                 expl_accuracyPercent := toFixed 1 (mul (accuracy metrics) (Fin 100));
                 expl_kFold :=
                   if cv_enabled (crossValidation modelConfig)
                   then Some (kFold (crossValidation modelConfig)) else None;
                 expl_tp := tp k;
                 expl_tn := tn k;
                 topFeatName := topFeatName;
                 secondFeatName := secondFeatName |};
            modelCategory := category modelConfig |};
       bundle_rocCurve := rocCurve;
       bundle_precisionRecallCurve := prCurve;
       bundle_residuals := residuals;
       bundle_learningCurve := learningCurve;
       bundle_layerActivations := layerActivations (draw_activations c);
       bundle_pcaComponents := pcaComponents;
       bundle_tsneComponents := tsneComponents;
       bundle_umapComponents := umapComponents;
       bundle_wordCloud := wordCloud |})
  end end end end end end end.

End Bundle.

(** Chart draws that are all one half. *)
Definition halfCharts : ChartDraws :=
  {| draw_pca := halves; draw_tsne := halves; draw_umap := halves;
     draw_residuals := halves; draw_words := halves; draw_activations := halves |}.

(** A projection as [generateProjection] builds it: 150 points with real
    coordinates, the first 75 labelled Class 0 and the others Class 1. *)
Definition projection_ok (pts : list LabelledPoint) : Prop :=
  List.length pts = 150%nat /\
  forall k p,
    nth_error pts k = Some p ->
    label p = (if (k <? 75)%nat then "Class 0" else "Class 1")%string /\
    exists x y, lp_x p = Fin x /\ lp_y p = Fin y.

(** The residuals: 50 points with an abscissa of [0, 100) and a real
    ordinate. *)
Definition residuals_ok (pts : list Point) : Prop :=
  List.length pts = 50%nat /\
  Forall (fun p => exists x y,
            p = {| point_x := Fin x; point_y := Fin y |} /\ 0 <= x < 100) pts.

(** ** Page state (App, TrainingSection, ResultsSection, DataAnalysisSection) *)

(** The updater of [handleDropColumn]: the column leaves the list when it
    is in it, and is appended otherwise. *)
Definition handleDropColumn (colName : string) (prev : PreprocessingConfig)
  : PreprocessingConfig :=
  let isDropped := includes (droppedColumns prev) colName in
  {| missingValueStrategy := missingValueStrategy prev;
     scaling := scaling prev;
     encoding := encoding prev;
     splitRatio := splitRatio prev;
     outlierRemoval := outlierRemoval prev;
     dimensionalityReduction := dimensionalityReduction prev;
     classBalancing := classBalancing prev;
     featureEngineering := featureEngineering prev;
     textProcessing := textProcessing prev;
     droppedColumns :=
       if isDropped
       then filter (fun c => negb (String.eqb c colName)) (droppedColumns prev)
       else droppedColumns prev ++ [colName] |}.

(** The updater of [toggleProjection], on the selected projections. *)
Definition toggleProjection (id : string) (prev : list string) : list string :=
  if includes prev id
  then filter (fun p => negb (String.eqb p id)) prev
  else prev ++ [id].

Definition initialProjections : list string := ["pca"%string].

(** The progress bar and the log lines of the training panel. *)
Record TrainingView : Type := {
  progress : jsnum;
  logs : list string
}.

(** What the effect sets when the status becomes [TRAINING]. *)
Definition startTraining : TrainingView :=
  {| progress := Fin 5;
     logs := [ "Initializing training environment..."; "Loading dataset...";
               "Applying preprocessing pipelines..." ]%string |}.

(** [arr.slice(-n)] *)
Definition slice_last {A : Type} (n : nat) (l : list A) : list A :=
  skipn (List.length l - n) l.

(** One firing of the interval: [draw] is the draw of the progress step and
    [line] the log line built from the other draws. *)
Definition tick (draw : R) (line : string) (v : TrainingView) : TrainingView :=
  {| progress :=
       if leb (Fin 95) (progress v) then progress v
       else add (progress v) (Math_floor (mul (Fin draw) (Fin 8)));
     logs := slice_last 6 (logs v ++ [line]) |}.

(** The panel after [n] firings. *)
Fixpoint ticks (draw : nat -> R) (line : nat -> string) (n : nat) : TrainingView :=
  match n with
  | O => startTraining
  | S k => tick (draw k) (line k) (ticks draw line k)
  end.

(** [arr.splice(i, 0, x)] *)
Definition splice_insert {A : Type} (l : list A) (i : nat) (x : A) : list A :=
  firstn i l ++ x :: skipn i l.

(** The tabs of the results panel, as (id, label). *)
Definition availableTabs (result : option TrainingResult) : list (string * string) :=
  match result with
  | None => []
  | Some result =>
      let tabs := [ ("ml", "Evaluation Metrics"); ("preprocessing", "Data Projection");
                    ("explainability", "Interpretability") ]%string in
      let tabs :=
        match modelCategory result with
        | DL => splice_insert tabs 1 ("dl", "Deep Learning")%string
        | _ => tabs
        end in
      let tabs :=
        match modelCategory result with
        | NLP => tabs ++ [ ("nlp", "NLP Insights")%string ]
        | _ => tabs
        end in
      tabs
  end.

(** The effect of the analysis panel that picks a column to show: the
    selection after the effect, given the one before. *)
Definition resetSelectedColumn (dataset : option Dataset) (selectedColumn : string)
  : string :=
  match dataset with
  | Some dataset =>
      let numericalCols := getNumericalColumns dataset in
      let categoricalCols := getCategoricalColumns dataset in
      if String.eqb selectedColumn "" ||
         negb (existsb (fun c => String.eqb (name c) selectedColumn) (columns dataset))
      then
        if (0 <? List.length numericalCols)%nat then nth 0 numericalCols selectedColumn
        else if (0 <? List.length categoricalCols)%nat
             then nth 0 categoricalCols selectedColumn
             else selectedColumn
      else selectedColumn
  | None => EmptyString
  end.

(** After the toggles [ids], in this order, from the selection [start]. *)
Definition toggled (start : list string) (ids : list string) : list string :=
  fold_left (fun prev id => toggleProjection id prev) ids start.

(** ** CSV parser (utils)

    [row[k] = v] on a plain object: the value of an existing key is
    replaced, a new key is appended.  (The key [__proto__] is the only one
    that an assignment leaves without own property; headers of that name are
    excluded where it matters.) *)
Fixpoint assign (r : Row) (k : string) (v : value) : Row :=
  match r with
  | [] => [(k, v)]
  | (k', v') :: r' =>
      if String.eqb k' k then (k', v) :: r' else (k', v') :: assign r' k v
  end.

(** [v === '' || v === null || v === undefined] *)
Definition is_missing (v : value) : bool :=
  match v with
  | VNull | VUndef => true
  | VStr s => String.eqb s ""
  | _ => false
  end.

(** The type given to a column from its first cell that is not missing. *)
Definition typeOfFirst (firstNonEmpty : option value) : ColumnType :=
  match firstNonEmpty with
  | Some (VNum _) => TNumber
  | Some (VBool _) => TBoolean
  | _ => TString
  end.

Section Parser.

(** The string primitives are left open: [content.split(/\r?\n/)],
    [s.trim()], [s.split(',')], [s.replace(/^"|"$/g, '')] and
    [parseFloat(s)]. *)
Variable split_lines : string -> list string.
Variable trim : string -> string.
Variable split_comma : string -> list string.
Variable unquote : string -> string.
Variable parseFloat : string -> jsnum.

(** [line.split(',').map(v => v.trim().replace(/^"|"$/g, ''))] *)
Definition fields (line : string) : list string :=
  map (fun v => unquote (trim v)) (split_comma line).

(** The cell stored for [val = values[index]], [None] standing for
    [undefined], whose parse is NaN. *)
Definition cell (val : option string) : value :=
  let numVal := match val with Some s => parseFloat s | None => NaN end in
  let nonEmpty := match val with Some s => negb (String.eqb s "") | None => true end in
  if negb (isNaN numVal) && nonEmpty then VNum numVal
  else match val with Some s => VStr s | None => VUndef end.

(** The object built for one line: [headers.forEach((header, index) => ...)]. *)
Definition parseRow (headers : list string) (line : string) : Row :=
  let values := fields line in
  fold_left (fun row hi => assign row (fst hi) (cell (nth_error values (snd hi))))
            (combine headers (seq 0 (List.length headers))) [].

Definition parseColumn (rawData : list Row) (header : string) : DatasetColumn :=
  let values := map (fun row => get row header) rawData in
  {| name := header;
     type := typeOfFirst (find (fun v => negb (is_missing v)) values);
     missingCount := List.length (filter is_missing values);
     uniqueCount := List.length (distinct values) |}.

Definition parseCSV (content filename : string) : result Dataset :=
  let lines := filter (fun line => negb (String.eqb (trim line) ""))
                 (split_lines content) in
  match lines with
  | [] => Throw "Empty CSV file"
  | first :: rest =>
      let headers := fields first in
      let rawData := map (parseRow headers) rest in
      Ok {| dataset_name := filename;
            rows := rawData;
            columns := map (parseColumn rawData) headers;
            totalRows := List.length rawData |}
  end.

End Parser.

(** A cell as the parser stores it: a number other than NaN, a string, or
    [undefined]. *)
Definition parsed_cell (v : value) : Prop :=
  match v with
  | VNum n => isNaN n = false
  | VStr _ | VUndef => True
  | _ => False
  end.

(** ** Value counts (utils)

    The tally [counts] is a plain object used as a map from strings to
    counts; it is kept as the list of its own properties in creation order.
    Reading a key that the object does not own yields [undefined] unless
    the key names a property inherited from [Object.prototype]; these keys
    are listed here and excluded where the tally is reasoned about. *)
Definition prototype_keys : list string :=
  [ "constructor"; "hasOwnProperty"; "isPrototypeOf"; "propertyIsEnumerable";
    "toLocaleString"; "toString"; "valueOf"; "__proto__";
    "__defineGetter__"; "__defineSetter__"; "__lookupGetter__";
    "__lookupSetter__" ]%string.

(** [counts[k] = (counts[k] || 0) + 1] *)
Fixpoint count_key (counts : list (string * nat)) (k : string) : list (string * nat) :=
  match counts with
  | [] => [(k, 1%nat)]
  | (k', c) :: rest =>
      if String.eqb k' k then (k', S c) :: rest else (k', c) :: count_key rest k
  end.

(** The array index that a property key denotes, if any: a decimal numeral
    without leading zero, below 2^32 - 1. *)
Definition digit_of (a : Ascii.ascii) : option N :=
  let n := Ascii.N_of_ascii a in
  if (48 <=? n)%N && (n <=? 57)%N then Some (n - 48)%N else None.

Fixpoint decimal_value (s : string) (acc : N) : option N :=
  match s with
  | EmptyString => Some acc
  | String a s' =>
      match digit_of a with
      | Some d => decimal_value s' (10 * acc + d)%N
      | None => None
      end
  end.

Definition array_index_key (s : string) : option N :=
  match s with
  | EmptyString => None
  | String a s' =>
      if (Ascii.N_of_ascii a =? 48)%N
      then (if String.eqb s' "" then Some 0%N else None)
      else match decimal_value s 0 with
           | Some n => if (n <? 4294967295)%N then Some n else None
           | None => None
           end
  end.

(** [Object.entries(o)]: the keys that are array indices first, in
    ascending numeric order, then the other keys in creation order. *)
Fixpoint insert_index (e : N * (string * nat)) (l : list (N * (string * nat)))
  : list (N * (string * nat)) :=
  match l with
  | [] => [e]
  | e' :: l' => if (fst e <? fst e')%N then e :: l else e' :: insert_index e l'
  end.

Fixpoint index_entries (o : list (string * nat)) : list (N * (string * nat)) :=
  match o with
  | [] => []
  | e :: o' =>
      match array_index_key (fst e) with
      | Some n => insert_index (n, e) (index_entries o')
      | None => index_entries o'
      end
  end.

Definition is_index_key (e : string * nat) : bool :=
  match array_index_key (fst e) with Some _ => true | None => false end.

Definition Object_entries (o : list (string * nat)) : list (string * nat) :=
  map snd (index_entries o) ++ filter (fun e => negb (is_index_key e)) o.

Record ValueCount : Type := {
  vc_name : string;
  vc_value : nat
}.

(** [(a, b) => b[1] - a[1]] *)
Definition byCount (a b : string * nat) : jsnum :=
  sub (Fin (INR (snd b))) (Fin (INR (snd a))).

Section ValueCounts.

Variable number_to_string : jsnum -> string.

(** The key under which a cell is counted. *)
Definition value_key (val : value) : string :=
  let val := if is_missing val then VStr "Missing" else val in
  ToString number_to_string val.

Definition tally (dataset : Dataset) (columnName : string) : list (string * nat) :=
  fold_left (fun counts r => count_key counts (value_key (get r columnName)))
            (rows dataset) [].

Definition calculateValueCounts (dataset : Dataset) (columnName : string)
    (limit : nat) : list ValueCount :=
  map (fun e => {| vc_name := fst e; vc_value := snd e |})
      (firstn limit (sort byCount (Object_entries (tally dataset columnName)))).

End ValueCounts.

(** The sum of the counts of a list of entries. *)
Fixpoint totalValue (l : list ValueCount) : nat :=
  match l with
  | [] => 0
  | e :: l' => vc_value e + totalValue l'
  end.

(** The count that a tally records for a key, 0 when it has none, and the
    sum of its counts. *)
Fixpoint lookup (o : list (string * nat)) (k : string) : nat :=
  match o with
  | [] => 0
  | (k', c) :: o' => if String.eqb k' k then c else lookup o' k
  end.

Fixpoint totalOf (o : list (string * nat)) : nat :=
  match o with
  | [] => 0
  | e :: o' => snd e + totalOf o'
  end.

(** Entries by non-increasing count. *)
Definition countsBefore (a b : string * nat) : Prop := (snd b <= snd a)%nat.

(** A small table with a repeated value, a missing cell and the literal
    string Missing. *)
Definition pets : Dataset :=
  {| dataset_name := "pets.csv";
     rows := [ [("pet", VStr "cat")]; [("pet", VStr "dog")]; [("pet", VStr "cat")];
               [("pet", VStr "")]; [("pet", VStr "Missing")] ]%string;
     columns :=
       [ {| name := "pet"; type := TString; missingCount := 1; uniqueCount := 4 |} ]%string;
     totalRows := 5 |}.

(** ** The page (App) and the upload panel *)

Inductive AppStatus : Type := IDLE | ANALYZING | TRAINING | COMPLETED | ERROR.

Record App : Type := {
  app_dataset : option Dataset;
  app_preprocessing : PreprocessingConfig;
  app_modelConfig : ModelConfig;
  status : AppStatus;
  results : option TrainingBundle;
  activeSection : nat
}.

Definition initialApp : App :=
  {| app_dataset := None;
     app_preprocessing := initialPreprocessing;
     app_modelConfig := initialModelConfig;
     status := IDLE;
     results := None;
     activeSection := 1 |}.

(** [{...prev, targetColumn: t}] *)
Definition withTarget (prev : ModelConfig) (t : string) : ModelConfig :=
  {| category := category prev;
     modelName := modelName prev;
     targetColumn := t;
     hyperparameters := hyperparameters prev;
     tuning := tuning prev;
     crossValidation := crossValidation prev |}.

Definition handleDatasetUpload (newDataset : Dataset) (app : App) : App :=
  if String.eqb (dataset_name newDataset) "" then
    {| app_dataset := None;
       app_preprocessing := app_preprocessing app;
       app_modelConfig := app_modelConfig app;
       status := IDLE;
       results := None;
       activeSection := 1 |}
  else
    {| app_dataset := Some newDataset;
       app_preprocessing := app_preprocessing app;
       app_modelConfig :=
         if (0 <? List.length (columns newDataset))%nat
         then match nth_error (columns newDataset)
                      (List.length (columns newDataset) - 1) with
              | Some col => withTarget (app_modelConfig app) (name col)
              | None => app_modelConfig app
              end
         else app_modelConfig app;
       status := status app;
       results := results app;
       activeSection := 2 |}.

(** The page while [handleTrain] awaits the service. *)
Definition trainingStarted (app : App) : App :=
  {| app_dataset := app_dataset app;
     app_preprocessing := app_preprocessing app;
     app_modelConfig := app_modelConfig app;
     status := TRAINING;
     results := results app;
     activeSection := 5 |}.

(** [s.endsWith(suffix)] *)
Definition endsWith (s suffix : string) : bool :=
  (String.length suffix <=? String.length s)%nat &&
  String.eqb (substring (String.length s - String.length suffix)
                        (String.length suffix) s) suffix.

Section Page.

Variable number_to_string : jsnum -> string.
Variable string_to_number : string -> jsnum.
Variable split_lines : string -> list string.
Variable trim : string -> string.
Variable split_comma : string -> list string.
Variable unquote : string -> string.
Variable parseFloat : string -> jsnum.

(** [handleTrain], run to its end without other event in between: the page
    once the service has answered.  A service that throws leaves the page
    in the state [trainingStarted]; it is reported as [Throw], and a service
    that is still redrawing when the fuel is spent as [None]. *)
Definition handleTrain (d : Draws) (c : ChartDraws) (fuel : nat) (app : App)
  : option (result App) :=
  match app_dataset app with
  | None => Some (Ok app)
  | Some dataset =>
      match simulateBackendTrainingBundle number_to_string string_to_number
              dataset (app_modelConfig app) (app_preprocessing app) d c fuel with
      | None => None
      | Some (Throw e) => Some (Throw e)
      | Some (Ok result) =>
          Some (Ok {| app_dataset := app_dataset app;
                      app_preprocessing := app_preprocessing app;
                      app_modelConfig := app_modelConfig app;
                      status := COMPLETED;
                      results := Some result;
                      activeSection := 6 |})
      end
  end.

(** [handleFileChange] with the chosen file read at once: the error shown
    by the upload panel (unchanged when [None] is returned for it) and the
    page afterwards. *)
Definition handleFileChange (file : option (string * string))
    (error : option string) (app : App) : option string * App :=
  match file with
  | None => (error, app)
  | Some (file_name, content) =>
      if negb (endsWith file_name ".csv")
      then (Some "Please upload a valid CSV file."%string, app)
      else
        match parseCSV split_lines trim split_comma unquote parseFloat
                content file_name with
        | Ok parsed => (None, handleDatasetUpload parsed app)
        | Throw _ => (Some "Failed to parse CSV file."%string, app)
        end
  end.

End Page.

(** A numeric column whose second cell is a text. *)
Definition mixed : Dataset :=
  {| dataset_name := "mixed.csv";
     rows := [ [("age", num 30)]; [("age", VStr "unknown")] ]%string;
     columns :=
       [ {| name := "age"; type := TNumber; missingCount := 0; uniqueCount := 2 |} ]%string;
     totalRows := 2 |}.

(** ** Properties of the number model *)

Lemma Reqb_true (a b : R) : a = b -> Reqb a b = true.
Proof. intros H. unfold Reqb. destruct (Req_dec_T a b); [reflexivity | contradiction]. Qed.

Lemma Reqb_false (a b : R) : a <> b -> Reqb a b = false.
Proof. intros H. unfold Reqb. destruct (Req_dec_T a b); [contradiction | reflexivity]. Qed.

Lemma Rltb_true (a b : R) : a < b -> Rltb a b = true.
Proof. intros H. unfold Rltb. destruct (Rlt_dec a b); [reflexivity | contradiction]. Qed.

Lemma Rltb_false (a b : R) : b <= a -> Rltb a b = false.
Proof. intros H. unfold Rltb. destruct (Rlt_dec a b); [lra | reflexivity]. Qed.

Lemma Rleb_true (a b : R) : a <= b -> Rleb a b = true.
Proof. intros H. unfold Rleb. destruct (Rle_dec a b); [reflexivity | contradiction]. Qed.

Lemma Rleb_false (a b : R) : b < a -> Rleb a b = false.
Proof. intros H. unfold Rleb. destruct (Rle_dec a b); [lra | reflexivity]. Qed.

(** ** Sums and the Cauchy-Schwarz inequality *)

Lemma dot_app (u1 u2 v1 v2 : list R) :
  List.length u1 = List.length v1 ->
  dot (u1 ++ u2) (v1 ++ v2) = dot u1 v1 + dot u2 v2.
Proof.
  revert v1. induction u1 as [|a u1 IH]; intros [|b v1] H; simpl in *; try discriminate.
  - lra.
  - rewrite IH by congruence. lra.
Qed.

Lemma dot_self_nonneg (u : list R) : 0 <= dot u u.
Proof.
  induction u as [|a u IH]; simpl; [lra|].
  pose proof (Rle_0_sqr a) as Ha. unfold Rsqr in Ha. lra.
Qed.

Lemma cauchy_schwarz_step (a b s A B : R) :
  s * s <= A * B -> 0 <= A -> 0 <= B ->
  (a * b + s) * (a * b + s) <= (a * a + A) * (b * b + B).
Proof.
  intros Hs HA HB.
  set (p := a * a * B + A * b * b). set (q := 2 * a * b * s).
  assert (Hp : 0 <= p) by (unfold p; nra).
  assert (Hq : q * q <= p * p).
  { assert (E : p * p - q * q
                = (a * a * B - A * b * b) * (a * a * B - A * b * b)
                  + 4 * ((a * b) * (a * b) * (A * B - s * s)))
      by (unfold p, q; ring).
    assert (0 <= (a * a * B - A * b * b) * (a * a * B - A * b * b))
      by apply Rle_0_sqr.
    assert (0 <= (a * b) * (a * b) * (A * B - s * s))
      by (apply Rmult_le_pos; [apply Rle_0_sqr | lra]).
    lra. }
  assert (q <= p) by nra.
  unfold p, q in *. nra.
Qed.

Lemma cauchy_schwarz (u v : list R) :
  dot u v * dot u v <= dot u u * dot v v.
Proof.
  revert v. induction u as [|a u IH]; intros [|b v]; simpl;
    rewrite ?Rmult_0_l, ?Rmult_0_r; try lra.
  apply cauchy_schwarz_step; auto using dot_self_nonneg.
Qed.

Lemma dot_map_diff (a b : R) (x y : list R) :
  List.length x = List.length y ->
  dot (map (fun c => a - c) x) (map (fun c => b - c) y)
  = INR (List.length x) * (a * b) - a * sum y - b * sum x + dot x y.
Proof.
  revert y. induction x as [|c x IH]; intros [|e y] H; try discriminate.
  - simpl. lra.
  - change (List.length (c :: x)) with (S (List.length x)). rewrite S_INR.
    simpl. rewrite IH by (simpl in H; congruence). lra.
Qed.

Lemma diffs_length (x y : list R) :
  List.length x = List.length y -> List.length (diffs x) = List.length (diffs y).
Proof.
  revert y. induction x as [|a x IH]; intros [|b y] H; try discriminate; simpl.
  - reflexivity.
  - simpl in H. rewrite !length_app, !length_map.
    rewrite (IH y) by congruence. congruence.
Qed.

(** The covariance term is the sum of the products of paired differences. *)
Lemma covTerm_diffs (x y : list R) :
  List.length x = List.length y -> covTerm x y = dot (diffs x) (diffs y).
Proof.
  revert y. induction x as [|a x IH]; intros [|b y] H; try discriminate.
  - unfold covTerm. simpl. lra.
  - assert (Hl : List.length x = List.length y) by (simpl in H; congruence).
    simpl diffs. rewrite dot_app by (rewrite !length_map; exact Hl).
    rewrite dot_map_diff by exact Hl. rewrite <- IH by exact Hl.
    unfold covTerm. change (List.length (a :: x)) with (S (List.length x)).
    rewrite S_INR. simpl. lra.
Qed.

Lemma varTerm_nonneg (x : list R) : 0 <= varTerm x.
Proof.
  unfold varTerm. rewrite covTerm_diffs by reflexivity. apply dot_self_nonneg.
Qed.

Lemma covTerm_bound (x y : list R) :
  List.length x = List.length y ->
  covTerm x y * covTerm x y <= varTerm x * varTerm y.
Proof.
  intros H. unfold varTerm. rewrite !covTerm_diffs by (auto || reflexivity).
  apply cauchy_schwarz.
Qed.

Lemma dot_self_zero (u : list R) : dot u u = 0 -> forall c, In c u -> c = 0.
Proof.
  induction u as [|a u IH]; simpl; intros H c Hc; [contradiction|].
  pose proof (dot_self_nonneg u) as Hu.
  pose proof (Rle_0_sqr a) as Ha. unfold Rsqr in Ha.
  destruct Hc as [<- | Hc].
  - assert (a * a = 0) by lra. nra.
  - apply IH; [lra | exact Hc].
Qed.

Lemma dot_zero_all (u : list R) : (forall c, In c u -> c = 0) -> dot u u = 0.
Proof.
  induction u as [|a u IH]; simpl; intros H; [reflexivity|].
  rewrite IH by auto. rewrite (H a) by auto. lra.
Qed.

Lemma diffs_head (a : R) (x : list R) (c : R) :
  In c x -> In (a - c) (diffs (a :: x)).
Proof.
  intros H. simpl. apply in_or_app. left.
  apply in_map_iff. exists c. auto.
Qed.

Lemma diffs_tail (a : R) (x : list R) (c : R) :
  In c (diffs x) -> In c (diffs (a :: x)).
Proof. intros H. simpl. apply in_or_app. right. exact H. Qed.

(** Zero variance characterises the constant sequences. *)
Lemma varTerm_zero_constant (x : list R) : varTerm x = 0 -> constant x.
Proof.
  unfold varTerm. rewrite covTerm_diffs by reflexivity. intros H.
  pose proof (dot_self_zero _ H) as Hz. clear H.
  induction x as [|a x IH]; intros u v Hu Hv; [contradiction|].
  assert (Hhead : forall c, In c x -> a = c).
  { intros c Hc. specialize (Hz (a - c) (diffs_head a x c Hc)). lra. }
  assert (Htail : constant x).
  { apply IH. intros c Hc. apply Hz. apply diffs_tail. exact Hc. }
  destruct Hu as [<- | Hu], Hv as [<- | Hv].
  - reflexivity.
  - apply Hhead; exact Hv.
  - symmetry. apply Hhead; exact Hu.
  - apply Htail; assumption.
Qed.

Lemma constant_varTerm_zero (x : list R) : constant x -> varTerm x = 0.
Proof.
  intros Hc. unfold varTerm. rewrite covTerm_diffs by reflexivity.
  apply dot_zero_all.
  induction x as [|a x IH]; simpl; intros c Hin; [contradiction|].
  apply in_app_or in Hin. destruct Hin as [Hin | Hin].
  - apply in_map_iff in Hin. destruct Hin as [e [<- He]].
    rewrite (Hc a e); [lra | left; reflexivity | right; exact He].
  - apply IH; [|exact Hin].
    intros u v Hu Hv. apply Hc; right; assumption.
Qed.

(** ** [calculateCorrelation] on numeric sequences *)

Section CorrelationFacts.

Variable number_to_string : jsnum -> string.
Variable string_to_number : string -> jsnum.

Let js_plus := js_plus number_to_string string_to_number.
Let js_times := js_times string_to_number.
Let corr := calculateCorrelation number_to_string string_to_number.

Lemma reduce_plus_nums (l : list R) (i : nat) (a : R) :
  reduce_from (fun u v (_ : nat) => js_plus u v) (nums l) i (num a)
  = num (a + sum l).
Proof.
  revert i a. induction l as [|b l IH]; intros i a; simpl.
  - unfold num. do 2 f_equal. lra.
  - change (js_plus (num a) (num b)) with (num (a + b)).
    rewrite IH. unfold num. do 2 f_equal. lra.
Qed.

Lemma reduce_squares_nums (l : list R) (i : nat) (a : R) :
  reduce_from (fun s v (_ : nat) => add s (js_times v v)) (nums l) i (Fin a)
  = Fin (a + dot l l).
Proof.
  revert i a. induction l as [|b l IH]; intros i a; simpl.
  - f_equal. lra.
  - change (add (Fin a) (js_times (num b) (num b))) with (Fin (a + b * b)).
    rewrite IH. f_equal. lra.
Qed.

Lemma reduce_products_nums (x y pre : list R) (a : R) :
  List.length x = List.length y ->
  reduce_from
    (fun s v i => add s (js_times v (at_index (nums (pre ++ y)) i)))
    (nums x) (List.length pre) (Fin a)
  = Fin (a + dot x y).
Proof.
  revert y pre a. induction x as [|c x IH]; intros [|e y] pre a H;
    try discriminate.
  - simpl. f_equal. lra.
  - change (nums (c :: x)) with (num c :: nums x). cbn [reduce_from].
    assert (E : at_index (nums (pre ++ e :: y)) (List.length pre) = num e).
    { unfold at_index, nums. rewrite map_app. simpl.
      rewrite app_nth2; rewrite length_map; [|lia].
      rewrite Nat.sub_diag. reflexivity. }
    rewrite E.
    change (add (Fin a) (js_times (num c) (num e))) with (Fin (a + c * e)).
    replace (pre ++ e :: y) with ((pre ++ [e]) ++ y)
      by (rewrite <- app_assoc; reflexivity).
    replace (S (List.length pre)) with (List.length (pre ++ [e]))
      by (rewrite length_app; simpl; lia).
    rewrite IH by (simpl in H; congruence). f_equal. simpl. lra.
Qed.

(** On two numeric sequences of equal length the code computes the
    Pearson coefficient and nothing else. *)
Lemma calculateCorrelation_nums (x y : list R) :
  List.length x = List.length y ->
  corr (nums x) (nums y) = Fin (pearson x y).
Proof.
  intros H. unfold corr, calculateCorrelation, pearson.
  replace (List.length (nums x)) with (List.length x)
    by (unfold nums; rewrite length_map; reflexivity).
  destruct (List.length x =? 0)%nat eqn:En; [reflexivity|].
  unfold reduce.
  fold js_plus. fold js_times.
  rewrite !reduce_plus_nums, !reduce_squares_nums.
  pose proof (reduce_products_nums x y [] 0 H) as Hxy. simpl in Hxy.
  rewrite Hxy. clear Hxy.
  rewrite !Rplus_0_l.
  change (js_times (num (sum x)) (num (sum y))) with (Fin (sum x * sum y)).
  change (js_times (num (sum x)) (num (sum x))) with (Fin (sum x * sum x)).
  change (js_times (num (sum y)) (num (sum y))) with (Fin (sum y * sum y)).
  cbn [mul sub add neg].
  replace (INR (List.length x) * dot x y + - (sum x * sum y))
    with (covTerm x y) by (unfold covTerm; lra).
  replace (INR (List.length x) * dot x x + - (sum x * sum x))
    with (varTerm x) by (unfold varTerm, covTerm; lra).
  replace (INR (List.length x) * dot y y + - (sum y * sum y))
    with (varTerm y) by (unfold varTerm, covTerm; rewrite H; lra).
  pose proof (varTerm_nonneg x) as Hx. pose proof (varTerm_nonneg y) as Hy.
  unfold Math_sqrt. rewrite Rltb_false by nra.
  unfold is_zero.
  destruct (Reqb (sqrt (varTerm x * varTerm y)) 0) eqn:Ed; [reflexivity|].
  unfold div. rewrite Ed. reflexivity.
Qed.

Lemma pearson_bounds (x y : list R) :
  List.length x = List.length y -> -1 <= pearson x y <= 1.
Proof.
  intros H. unfold pearson.
  destruct (List.length x =? 0)%nat; [lra|].
  cbv zeta. unfold Reqb.
  destruct (Req_dec_T (sqrt (varTerm x * varTerm y)) 0) as [|Hd]; [lra|].
  pose proof (varTerm_nonneg x) as Hx. pose proof (varTerm_nonneg y) as Hy.
  pose proof (covTerm_bound x y H) as Hc.
  set (D := varTerm x * varTerm y) in *.
  assert (HD : 0 <= D) by (unfold D; nra).
  pose proof (sqrt_pos D) as Hs0.
  assert (Hs : 0 < sqrt D) by lra.
  pose proof (sqrt_sqrt D HD) as Hss.
  set (s := sqrt D) in *. set (c := covTerm x y) in *.
  assert (Hcs : c * c <= s * s) by lra.
  assert (Habs : - s <= c <= s) by nra.
  split.
  - apply (Rmult_le_reg_r s); [exact Hs|].
    unfold Rdiv. rewrite Rmult_assoc, Rinv_l by lra. lra.
  - apply (Rmult_le_reg_r s); [exact Hs|].
    unfold Rdiv. rewrite Rmult_assoc, Rinv_l by lra. lra.
Qed.

Lemma pearson_zero_variance (x y : list R) :
  varTerm x * varTerm y = 0 -> pearson x y = 0.
Proof.
  intros H. unfold pearson.
  destruct (List.length x =? 0)%nat; [reflexivity|].
  cbv zeta. rewrite H, sqrt_0, Reqb_true; reflexivity.
Qed.

Lemma pearson_self (x : list R) : varTerm x <> 0 -> pearson x x = 1.
Proof.
  intros H. unfold pearson.
  pose proof (varTerm_nonneg x) as Hx.
  destruct (List.length x =? 0)%nat eqn:En.
  - exfalso. apply H. apply Nat.eqb_eq in En.
    destruct x; [|discriminate]. unfold varTerm, covTerm. simpl. lra.
  - cbv zeta. fold (varTerm x).
    assert (Es : sqrt (varTerm x * varTerm x) = varTerm x).
    { apply sqrt_lem_1; nra. }
    rewrite Es, Reqb_false by exact H.
    unfold varTerm at 1. fold (varTerm x). unfold Rdiv.
    apply Rinv_r. exact H.
Qed.

(** In exact arithmetic, on two numeric sequences of equal length,
    [calculateCorrelation] returns a number of [-1, 1]; it returns exactly 0
    when the sequences are empty, when the product of [n*sumX2 - sumX^2]
    and [n*sumY2 - sumY^2] is 0, and in particular when either sequence is
    constant. *)
Theorem calculateCorrelation_exact_bounds (x y : list R) :
  List.length x = List.length y ->
  (exists r, corr (nums x) (nums y) = Fin r /\ -1 <= r <= 1) /\
  (x = [] -> corr (nums x) (nums y) = Fin 0) /\
  (varTerm x * varTerm y = 0 -> corr (nums x) (nums y) = Fin 0) /\
  (constant x \/ constant y -> corr (nums x) (nums y) = Fin 0).
Proof.
  intros H. rewrite (calculateCorrelation_nums x y H).
  split; [|split; [|split]].
  - exists (pearson x y). split; [reflexivity | apply pearson_bounds; exact H].
  - intros ->. reflexivity.
  - intros Hv. rewrite pearson_zero_variance by exact Hv. reflexivity.
  - intros Hc. rewrite pearson_zero_variance; [reflexivity|].
    destruct Hc as [Hc | Hc]; rewrite (constant_varTerm_zero _ Hc); lra.
Qed.

(** In exact arithmetic, the correlation of a non-constant numeric sequence
    with itself is 1. *)
Theorem calculateCorrelation_exact_self (x : list R) :
  ~ constant x -> corr (nums x) (nums x) = Fin 1.
Proof.
  intros Hx. rewrite (calculateCorrelation_nums x x eq_refl).
  rewrite pearson_self; [reflexivity|].
  intros Hv. apply Hx. apply varTerm_zero_constant. exact Hv.
Qed.

End CorrelationFacts.

Example calculateCorrelation_exact_bounds_example :
  (exists r, calculateCorrelation unrendered unparsed
               (nums [1; 2; 3]) (nums [3; 2; 4]) = Fin r /\ -1 <= r <= 1) /\
  ([1; 2; 3] = [] ->
   calculateCorrelation unrendered unparsed (nums [1; 2; 3]) (nums [3; 2; 4]) = Fin 0) /\
  (varTerm [1; 2; 3] * varTerm [3; 2; 4] = 0 ->
   calculateCorrelation unrendered unparsed (nums [1; 2; 3]) (nums [3; 2; 4]) = Fin 0) /\
  (constant [1; 2; 3] \/ constant [3; 2; 4] ->
   calculateCorrelation unrendered unparsed (nums [1; 2; 3]) (nums [3; 2; 4]) = Fin 0).
Proof.
  apply (calculateCorrelation_exact_bounds unrendered unparsed [1; 2; 3] [3; 2; 4]).
  reflexivity.
Defined.

Example calculateCorrelation_exact_self_example :
  calculateCorrelation unrendered unparsed (nums [1; 2]) (nums [1; 2]) = Fin 1.
Proof.
  apply (calculateCorrelation_exact_self unrendered unparsed [1; 2]).
  intros H.
  specialize (H 1 2 (or_introl eq_refl) (or_intror (or_introl eq_refl))).
  lra.
Defined.

(** ** [calculateCorrelation] on binary64 numbers: rounding *)

Section Binary64.

Import PrimFloat.

(** C4, on binary64 numbers.  For the two constant sequences 0.6, 0.6, 0.6
    and 2.8, 2.8, 2.8 the variance terms round to residues instead of 0, the
    test [denominator === 0] fails and the code returns 1.5: neither 0 nor a
    number of [-1, 1].  For the perfectly correlated 2.5, 2.6 and
    5.25, 5.26 it returns a number above 1.  In exact arithmetic the first
    result is 0. *)
Theorem calculateCorrelation_constant_columns :
  F64.calculateCorrelation [0.6; 0.6; 0.6]%float [2.8; 2.8; 2.8]%float
  = 1.5%float /\
  (1.5 <=? 1)%float = false /\
  (1 <? F64.calculateCorrelation [2.5; 2.6]%float [5.25; 5.26]%float)%float
  = true /\
  calculateCorrelation unrendered unparsed
    (nums [0.6; 0.6; 0.6]) (nums [2.8; 2.8; 2.8]) = Fin 0.
Proof.
  split; [vm_compute; reflexivity|].
  split; [vm_compute; reflexivity|].
  split; [vm_compute; reflexivity|].
  rewrite calculateCorrelation_nums by reflexivity.
  rewrite pearson_zero_variance; [reflexivity|].
  unfold varTerm, covTerm. simpl. lra.
Qed.

(** C5, on binary64 numbers.  For the non-constant sequence
    1000000000, 1000000001 the variance term [n*sumX2 - sumX*sumX] cancels
    to 0, the test [denominator === 0] succeeds and the code returns 0,
    where exact arithmetic gives 1. *)
Theorem calculateCorrelation_self_cancels :
  F64.calculateCorrelation [1000000000; 1000000001]%float
                           [1000000000; 1000000001]%float
  = 0%float /\
  calculateCorrelation unrendered unparsed
    (nums [1000000000; 1000000001]) (nums [1000000000; 1000000001]) = Fin 1.
Proof.
  split; [vm_compute; reflexivity|].
  rewrite calculateCorrelation_nums by reflexivity.
  rewrite pearson_self; [reflexivity|].
  unfold varTerm, covTerm. simpl. lra.
Qed.

End Binary64.

(** ** Ranking of the feature impacts *)

Lemma sort_insert_perm {A : Type} (cmp : A -> A -> jsnum) (a : A) (l : list A) :
  Permutation (sort_insert cmp a l) (a :: l).
Proof.
  induction l as [|b l IH]; simpl; [reflexivity|].
  destruct (is_pos (cmp a b)); [|reflexivity].
  rewrite IH. apply perm_swap.
Qed.

Lemma sort_perm {A : Type} (cmp : A -> A -> jsnum) (l : list A) :
  Permutation (sort cmp l) l.
Proof.
  induction l as [|a l IH]; simpl; [reflexivity|].
  rewrite sort_insert_perm. constructor. exact IH.
Qed.

Lemma Forall_perm {A : Type} (P : A -> Prop) (l l' : list A) :
  Permutation l l' -> Forall P l -> Forall P l'.
Proof. intros H F. rewrite <- H. exact F. Qed.

Lemma abs_leb_total (a b : jsnum) :
  isNaN a = false -> isNaN b = false ->
  is_pos (sub (Math_abs b) (Math_abs a)) = false ->
  leb (Math_abs b) (Math_abs a) = true.
Proof.
  destruct a as [x| | |], b as [y| | |]; simpl; intros Ha Hb H;
    try discriminate; try reflexivity.
  apply Rleb_true. unfold Rltb in H.
  destruct (Rlt_dec 0 (Rabs y + - Rabs x)); [discriminate | lra].
Qed.

Lemma abs_leb_pos (a b : jsnum) :
  is_pos (sub (Math_abs b) (Math_abs a)) = true ->
  leb (Math_abs a) (Math_abs b) = true.
Proof.
  destruct a as [x| | |], b as [y| | |]; simpl; intros H;
    try discriminate; try reflexivity.
  apply Rleb_true. unfold Rltb in H.
  destruct (Rlt_dec 0 (Rabs y + - Rabs x)); [lra | discriminate].
Qed.

Lemma leb_trans (a b c : jsnum) :
  leb a b = true -> leb b c = true -> leb a c = true.
Proof.
  destruct a as [x| | |], b as [y| | |], c as [z| | |]; simpl;
    intros H1 H2; try discriminate; try reflexivity.
  unfold Rleb in *.
  destruct (Rle_dec x y), (Rle_dec y z), (Rle_dec x z);
    try discriminate; try reflexivity; lra.
Qed.

Lemma ranksBefore_trans (a b c : FeatureImpact) :
  ranksBefore a b -> ranksBefore b c -> ranksBefore a c.
Proof. unfold ranksBefore. intros H1 H2. eapply leb_trans; eauto. Qed.

Lemma sort_insert_sorted (a : FeatureImpact) (l : list FeatureImpact) :
  notNaN a -> Forall notNaN l ->
  StronglySorted ranksBefore l ->
  StronglySorted ranksBefore (sort_insert byAbsImpact a l).
Proof.
  intros Ha Hl Hs. induction Hs as [|b l Hs IH Hb]; simpl.
  - repeat constructor.
  - inversion Hl as [|? ? Hnb Hl']; subst.
    destruct (is_pos (byAbsImpact a b)) eqn:E.
    + constructor; [apply IH; exact Hl'|].
      apply (Forall_perm _ (a :: l)).
      * symmetry. apply sort_insert_perm.
      * constructor; [|exact Hb].
        unfold ranksBefore. apply abs_leb_pos. exact E.
    + assert (Hab : ranksBefore a b).
      { unfold ranksBefore. apply abs_leb_total; assumption. }
      constructor; [constructor; assumption|].
      constructor; [exact Hab|].
      eapply Forall_impl; [|exact Hb].
      intros c Hc. eapply ranksBefore_trans; eauto.
Qed.

Lemma sort_sorted (l : list FeatureImpact) :
  Forall notNaN l -> StronglySorted ranksBefore (sort byAbsImpact l).
Proof.
  induction l as [|a l IH]; simpl; intros H; [constructor|].
  inversion H; subst.
  apply sort_insert_sorted; auto.
  apply (Forall_perm _ l); [symmetry; apply sort_perm | assumption].
Qed.

Section ImpactFacts.

Variable number_to_string : jsnum -> string.
Variable string_to_number : string -> jsnum.

Let rank := calculateFeatureImpacts number_to_string string_to_number.
Let corr := calculateCorrelation number_to_string string_to_number.
Let target := targetNums.
Let unsorted := impacts number_to_string string_to_number.

Lemma impactOf_notNaN (dataset : Dataset) (t : list value) (col : DatasetColumn) :
  notNaN (impactOf number_to_string string_to_number dataset t col).
Proof.
  unfold notNaN, impactOf. simpl.
  destruct (isNaN (calculateCorrelation _ _ _ _)) eqn:E; [reflexivity | exact E].
Qed.

Lemma impacts_notNaN (dataset : Dataset) (targetCol : string) :
  Forall notNaN (unsorted dataset targetCol).
Proof.
  unfold unsorted, impacts. apply Forall_forall. intros e He.
  apply in_map_iff in He. destruct He as [col [<- _]].
  apply impactOf_notNaN.
Qed.

Lemma calculateFeatureImpacts_notNaN (dataset : Dataset) (targetCol : string) :
  Forall notNaN (rank dataset targetCol).
Proof.
  unfold rank, calculateFeatureImpacts.
  destruct (String.eqb targetCol ""); [constructor|].
  apply (Forall_perm _ (unsorted dataset targetCol)).
  - symmetry. apply sort_perm.
  - apply impacts_notNaN.
Qed.

Lemma calculateFeatureImpacts_sorted (dataset : Dataset) (targetCol : string) :
  StronglySorted ranksBefore (rank dataset targetCol).
Proof.
  unfold rank, calculateFeatureImpacts.
  destruct (String.eqb targetCol ""); [constructor|].
  apply sort_sorted. apply impacts_notNaN.
Qed.

(** C6. With an empty target name the ranking is empty.  Otherwise it holds
    exactly one entry per column other than the target, the entry of a
    column carrying its name and its correlation with the target, 0 taking
    the place of a NaN correlation; no impact is NaN; and the entries come
    by non-increasing absolute impact. *)
Theorem calculateFeatureImpacts_ranking (dataset : Dataset) (targetCol : string) :
  (targetCol = EmptyString -> rank dataset targetCol = []) /\
  (targetCol <> EmptyString ->
   Permutation (rank dataset targetCol)
     (map (fun col =>
             let c := corr (featureNums dataset col) (target dataset targetCol) in
             {| feature_name := name col;
                impact := if isNaN c then Fin 0 else c |})
          (featureColumns dataset targetCol)) /\
   List.length (rank dataset targetCol)
   = List.length (featureColumns dataset targetCol)) /\
  Forall notNaN (rank dataset targetCol) /\
  StronglySorted ranksBefore (rank dataset targetCol).
Proof.
  unfold rank, calculateFeatureImpacts.
  split; [|split; [|split]].
  - intros ->. reflexivity.
  - intros Hne. apply String.eqb_neq in Hne. rewrite Hne.
    assert (P : Permutation
                  (sort byAbsImpact
                     (impacts number_to_string string_to_number dataset targetCol))
                  (impacts number_to_string string_to_number dataset targetCol))
      by apply sort_perm.
    split.
    + exact P.
    + rewrite (Permutation_length P). unfold impacts, featureColumns.
      apply length_map.
  - apply calculateFeatureImpacts_notNaN.
  - apply calculateFeatureImpacts_sorted.
Qed.

End ImpactFacts.

(** A cell that is [undefined] makes the correlation NaN, reported as 0. *)
Example gappy_impacts :
  calculateCorrelation unrendered unparsed
    (featureNums gappy {| name := "a"; type := TNumber;
                          missingCount := 1; uniqueCount := 2 |})
    (targetNums gappy "t") = NaN /\
  calculateFeatureImpacts unrendered unparsed gappy "t"
  = [ {| feature_name := "a"; impact := Fin 0 |} ].
Proof. split; reflexivity. Qed.

(** ** Rounding *)

Lemma round_dec_nonneg (d : nat) (x : R) :
  0 <= x -> round_dec d x = IZR (Zfloor (x * 10 ^ d + / 2)) / 10 ^ d.
Proof.
  intros H. unfold round_dec. rewrite Rltb_false by exact H.
  rewrite Rabs_pos_eq by exact H. reflexivity.
Qed.

Lemma pow10_pos (d : nat) : 0 < 10 ^ d.
Proof. apply pow_lt. lra. Qed.

Lemma round_dec_bounds (d : nat) (n : Z) (r : R) :
  0 <= r <= IZR n -> 0 <= round_dec d r <= IZR n.
Proof.
  intros Hr. pose proof (pow10_pos d) as Hp.
  rewrite round_dec_nonneg by lra.
  set (F := Zfloor (r * 10 ^ d + / 2)).
  pose proof (Zfloor_bound (r * 10 ^ d + / 2)) as Hb. fold F in Hb.
  assert (H1 : (0 <= F)%Z).
  { apply Zfloor_lub. simpl. nra. }
  assert (H2 : (F <= n * 10 ^ Z.of_nat d)%Z).
  { assert (Hlt : IZR F < IZR (n * 10 ^ Z.of_nat d + 1)).
    { rewrite plus_IZR, mult_IZR, <- pow_IZR. nra. }
    apply lt_IZR in Hlt. lia. }
  apply IZR_le in H1, H2. rewrite mult_IZR, <- pow_IZR in H2.
  split.
  - apply Rmult_le_pos; [exact H1 | left; apply Rinv_0_lt_compat; exact Hp].
  - apply (Rmult_le_reg_r (10 ^ d)); [exact Hp|].
    unfold Rdiv. rewrite Rmult_assoc, Rinv_l by lra. lra.
Qed.

Lemma toFixed_small (d : nat) (x : R) :
  Rabs x < 10 ^ 21 -> toFixed d (Fin x) = Fin (round_dec d x).
Proof. intros H. unfold toFixed. rewrite Rleb_false by exact H. reflexivity. Qed.

(** A multiple of 1/200 has at most three decimals: four-decimal rounding
    leaves it alone. *)
Lemma round_dec_200 (k : Z) :
  (0 <= k)%Z -> round_dec 4 (IZR k / 200) = IZR k / 200.
Proof.
  intros Hk. apply IZR_le in Hk.
  rewrite round_dec_nonneg by lra.
  replace (IZR k / 200 * 10 ^ 4 + / 2) with (IZR (50 * k) + / 2)
    by (rewrite mult_IZR; simpl; lra).
  rewrite (Zfloor_eq (50 * k)) by lra.
  rewrite mult_IZR. simpl. lra.
Qed.

(** Adding a whole number of units of the last decimal commutes with
    rounding. *)
Lemma round_dec_shift (d : nat) (x : R) (m : Z) :
  0 <= x -> 0 <= x + IZR m / 10 ^ d ->
  round_dec d (x + IZR m / 10 ^ d) = round_dec d x + IZR m / 10 ^ d.
Proof.
  intros Hx Hxm. pose proof (pow10_pos d) as Hp.
  rewrite !round_dec_nonneg by assumption.
  replace ((x + IZR m / 10 ^ d) * 10 ^ d + / 2)
    with ((x * 10 ^ d + / 2) + IZR m) by (field; lra).
  rewrite Zfloor_addz, plus_IZR. field. lra.
Qed.

(** ** The target accuracy and the confusion-matrix counts *)

Lemma Zfloor_ub (x : R) (z : Z) : x < IZR z + 1 -> (Zfloor x <= z)%Z.
Proof.
  intros H. pose proof (Zfloor_bound x) as Hb.
  assert (Hlt : IZR (Zfloor x) < IZR (z + 1)) by (rewrite plus_IZR; lra).
  apply lt_IZR in Hlt. lia.
Qed.

Lemma maxCorrelation_nil : maxCorrelation [] = Ok (Fin 0.5).
Proof. reflexivity. Qed.

Lemma maxCorrelation_ok (l : list FeatureImpact) :
  Forall notNaN l ->
  exists mc, maxCorrelation l = Ok mc /\ isNaN mc = false.
Proof.
  intros H. destruct l as [|e l].
  - exists (Fin 0.5). split; reflexivity.
  - exists (Math_abs (impact e)). split; [reflexivity|].
    inversion H as [|? ? He _]; subst. unfold notNaN in He.
    destruct (impact e); simpl in *; congruence.
Qed.

Lemma baseAccuracy_fin (modelConfig : ModelConfig) :
  exists b, baseAccuracy modelConfig = Fin b /\ 0.82 <= b <= 0.93.
Proof.
  unfold baseAccuracy.
  destruct (isDL modelConfig), (tuning_enabled (tuning modelConfig)); simpl;
    eexists; (split; [reflexivity | lra]).
Qed.

Lemma clamp_fin (v : jsnum) :
  isNaN v = false ->
  exists a, Math_min (Fin 0.99) (Math_max (Fin 0.6) v) = Fin a /\ 0.6 <= a <= 0.99.
Proof.
  intros Hv. destruct v as [x| | |]; try discriminate.
  - unfold Math_max, leb, Rleb. destruct (Rle_dec 0.6 x) as [H1 | H1].
    + unfold Math_min, leb, Rleb. destruct (Rle_dec 0.99 x) as [H2 | H2].
      * exists 0.99. split; [reflexivity | lra].
      * exists x. split; [reflexivity | lra].
    + unfold Math_min, leb. rewrite Rleb_false by lra.
      exists 0.6. split; [reflexivity | lra].
  - exists 0.99. split; [reflexivity | lra].
  - unfold Math_max, leb, Math_min, leb. rewrite Rleb_false by lra.
    exists 0.6. split; [reflexivity | lra].
Qed.

Lemma accuracyModifier_notNaN (mc : jsnum) :
  isNaN mc = false -> isNaN (accuracyModifier mc) = false.
Proof.
  intros H. destruct mc as [x| | |]; try discriminate; try reflexivity;
    unfold accuracyModifier; simpl; unfold mul_inf;
    rewrite Reqb_false, Rltb_true by lra; reflexivity.
Qed.

Lemma add_fin_notNaN (a : jsnum) (x : R) :
  isNaN a = false ->
  isNaN (add (Fin x) a) = false /\ isNaN (add a (Fin x)) = false.
Proof. destruct a; simpl; intros H; try discriminate; auto. Qed.

(** The target accuracy is a real number of [0.60, 0.99] whatever the
    strongest correlation and the draw. *)
Lemma actualAccuracy_clamped (modelConfig : ModelConfig) (mc : jsnum) (d : Draws) :
  isNaN mc = false ->
  exists a, actualAccuracy modelConfig mc d = Fin a /\ 0.6 <= a <= 0.99.
Proof.
  intros H. unfold actualAccuracy. apply clamp_fin.
  destruct (baseAccuracy_fin modelConfig) as [b [-> _]].
  change (mul (Fin (draw_accuracy d)) (Fin 0.05)) with (Fin (draw_accuracy d * 0.05)).
  apply add_fin_notNaN. apply add_fin_notNaN.
  apply accuracyModifier_notNaN. exact H.
Qed.

Lemma counts_fin (a : R) (d : Draws) :
  counts (Fin a) d
  = {| tp := Fin (IZR (tpZ a d)); fp := Fin (IZR (fpZ a d));
       fn := Fin (IZR (fnZ a d)); tn := Fin (IZR (tnZ a d)) |}.
Proof.
  unfold counts, totalSamples. cbn [Math_round mul add sub neg].
  unfold tnZ, fnZ, tpZ, fpZ, totalCorrectZ.
  f_equal; f_equal; rewrite ?minus_IZR; lra.
Qed.

Lemma totalCorrectZ_bounds (a : R) :
  0.6 <= a <= 0.99 -> (120 <= totalCorrectZ a <= 198)%Z.
Proof.
  intros H. unfold totalCorrectZ. split.
  - apply Zfloor_lub. lra.
  - apply Zfloor_ub. lra.
Qed.

Lemma tpZ_bounds (a : R) (d : Draws) :
  0.6 <= a <= 0.99 -> unit_interval (draw_tp d) ->
  (60 <= tpZ a d <= totalCorrectZ a)%Z.
Proof.
  intros Ha Hd. unfold unit_interval in Hd.
  pose proof (totalCorrectZ_bounds a Ha) as [H1 H2].
  apply IZR_le in H1, H2. unfold tpZ. split.
  - apply Zfloor_lub. nra.
  - apply Zfloor_ub. nra.
Qed.

Lemma fpZ_bounds (a : R) (d : Draws) :
  0.6 <= a <= 0.99 -> unit_interval (draw_fp d) ->
  (0 <= fpZ a d <= 200 - totalCorrectZ a)%Z.
Proof.
  intros Ha Hd. unfold unit_interval in Hd.
  pose proof (totalCorrectZ_bounds a Ha) as [H1 H2].
  apply IZR_le in H1, H2. unfold fpZ. split.
  - apply Zfloor_lub. nra.
  - apply Zfloor_ub. rewrite minus_IZR. nra.
Qed.

(** ** Metrics derived from integer counts *)

Lemma precision_spec (TP FP : Z) :
  (0 <= TP)%Z -> (0 <= FP)%Z ->
  or_zero (div (Fin (IZR TP)) (add (Fin (IZR TP)) (Fin (IZR FP))))
  = Fin (specPrecision TP FP).
Proof.
  intros H1 H2. unfold specPrecision. simpl.
  rewrite <- plus_IZR.
  destruct (TP + FP =? 0)%Z eqn:E.
  - apply Z.eqb_eq in E. assert (TP = 0%Z) by lia. subst TP.
    rewrite E. rewrite !Reqb_true by reflexivity. reflexivity.
  - apply Z.eqb_neq in E.
    rewrite Reqb_false; [reflexivity|].
    intros H. apply eq_IZR in H. contradiction.
Qed.

Lemma specPrecision_range (TP FP : Z) :
  (0 <= TP)%Z -> (0 <= FP)%Z -> 0 <= specPrecision TP FP <= 1.
Proof.
  intros H1 H2. unfold specPrecision.
  destruct (TP + FP =? 0)%Z eqn:E; [lra|].
  apply Z.eqb_neq in E.
  assert (Hs : (0 < TP + FP)%Z) by lia.
  apply IZR_lt in Hs. apply IZR_le in H1, H2.
  rewrite plus_IZR in *.
  split.
  - apply Rmult_le_pos; [lra | left; apply Rinv_0_lt_compat; lra].
  - apply (Rmult_le_reg_r (IZR TP + IZR FP)); [lra|].
    unfold Rdiv. rewrite Rmult_assoc, Rinv_l by lra. lra.
Qed.

Lemma f1_spec (p r : R) :
  0 <= p -> 0 <= r ->
  or_zero (div (mul (mul (Fin 2) (Fin p)) (Fin r)) (add (Fin p) (Fin r)))
  = Fin (specF1 p r).
Proof.
  intros Hp Hr. unfold specF1. simpl.
  unfold Reqb at 1 3. destruct (Req_dec_T (p + r) 0) as [E | E].
  - assert (p = 0) by lra. assert (r = 0) by lra. subst.
    rewrite Reqb_true by lra. reflexivity.
  - reflexivity.
Qed.

Lemma specF1_range (p r : R) :
  0 <= p <= 1 -> 0 <= r <= 1 -> 0 <= specF1 p r <= 1.
Proof.
  intros Hp Hr. unfold specF1, Reqb.
  destruct (Req_dec_T (p + r) 0) as [E | E]; [lra|].
  assert (Hs : 0 < p + r) by lra.
  split.
  - apply Rmult_le_pos; [nra | left; apply Rinv_0_lt_compat; exact Hs].
  - apply (Rmult_le_reg_r (p + r)); [exact Hs|].
    unfold Rdiv. rewrite Rmult_assoc, Rinv_l by lra. nra.
Qed.

Lemma small_abs (x : R) : 0 <= x <= 1000 -> Rabs x < 10 ^ 21.
Proof.
  intros H. rewrite Rabs_pos_eq by lra.
  assert (1000 < 10 ^ 21) by (simpl; lra). lra.
Qed.

Lemma deriveMetrics_counts (cls : bool) (TP FP FN TN : Z) (d : Draws) :
  (0 <= TP)%Z -> (0 <= FP)%Z -> (0 <= FN)%Z -> (0 <= TN)%Z ->
  let m := deriveMetrics cls
             {| tp := Fin (IZR TP); fp := Fin (IZR FP);
                fn := Fin (IZR FN); tn := Fin (IZR TN) |} d in
  precision m = Fin (round_dec 4 (specPrecision TP FP)) /\
  recall m = Fin (round_dec 4 (specRecall TP FN)) /\
  f1Score m
  = Fin (round_dec 4 (specF1 (specPrecision TP FP) (specRecall TP FN))) /\
  accuracy m = toFixed 4 (Fin (specAccuracy TP TN)).
Proof.
  intros H1 H2 H3 H4 m. subst m. unfold deriveMetrics.
  cbn [tp fp fn tn precision recall f1Score accuracy].
  rewrite !precision_spec by assumption.
  fold (specRecall TP FN).
  pose proof (specPrecision_range TP FP H1 H2) as Hp.
  pose proof (specPrecision_range TP FN H1 H3) as Hr.
  fold (specRecall TP FN) in Hr.
  rewrite f1_spec by lra.
  pose proof (specF1_range _ _ Hp Hr) as Hf.
  rewrite !toFixed_small by (apply small_abs; lra).
  repeat split.
  unfold totalSamples, specAccuracy. cbn [add div].
  rewrite Reqb_false by lra. rewrite plus_IZR. reflexivity.
Qed.

Lemma featNameAt_ok (l : list FeatureValue) (k : nat) (fallback : string) :
  exists s, featNameAt l k fallback = Ok s.
Proof.
  unfold featNameAt. destruct (k <? List.length l)%nat eqn:E; [|eauto].
  apply Nat.ltb_lt in E. unfold element.
  destruct (nth_error l k) eqn:En; [simpl; eauto|].
  apply nth_error_None in En. lia.
Qed.

Lemma mapi_from_length {A B : Type} (f : A -> nat -> B) (l : list A) (i : nat) :
  List.length (mapi_from f l i) = List.length l.
Proof.
  revert i. induction l as [|a l IH]; intros i; simpl; [reflexivity|].
  rewrite IH. reflexivity.
Qed.

Lemma lossLoop_length (A : jsnum) (d : Draws) (n i : nat) (l a : jsnum) :
  List.length (lossLoop A d n i l a) = n.
Proof.
  revert i l a. induction n as [|n IH]; intros i l a; simpl; [reflexivity|].
  rewrite IH. reflexivity.
Qed.

(** ** The loss history *)

Lemma accAt_closed (A : R) (k : nat) : accAt A k = A - (A - 0.5) * 0.8 ^ k.
Proof.
  induction k as [|k IH]; cbn [accAt pow]; [lra|]. rewrite IH. lra.
Qed.

Lemma accAt_bounds (A : R) (k : nat) : 0.5 <= A -> 0.5 <= accAt A k <= A.
Proof.
  intros HA. induction k as [|k IH]; cbn [accAt]; lra.
Qed.

Lemma lossAt_bounds (d : Draws) (k : nat) :
  (forall i, unit_interval (draw_loss d i)) -> 0.1 <= lossAt d k <= 0.7.
Proof.
  intros Hd. induction k as [|k IH]; cbn [lossAt]; [lra|].
  pose proof (Hd (S k)) as Hk. unfold unit_interval in Hk.
  unfold Rmax. destruct (Rle_dec 0.1 _); lra.
Qed.

Lemma nextLoss_fin (l draw : R) :
  nextLoss (Fin l) draw = Fin (Rmax 0.1 (l * 0.9 + draw * 0.02)).
Proof.
  unfold nextLoss, Math_max, leb, Rleb, Rmax. cbn [mul add].
  destruct (Rle_dec 0.1 (l * 0.9 + draw * 0.02)); reflexivity.
Qed.

Lemma nextAcc_fin (A c : R) :
  c <= A -> nextAcc (Fin A) (Fin c) = Fin (c + (A - c) * 0.2).
Proof.
  intros H. unfold nextAcc, Math_min, leb. cbn [mul add sub neg].
  rewrite Rleb_false by lra. f_equal.
Qed.

Lemma round4_plus_005 (x : R) :
  0 <= x -> round_dec 4 (x + 0.05) = round_dec 4 x + 0.05.
Proof.
  intros H. replace 0.05 with (IZR 500 / 10 ^ 4) by (simpl; lra).
  apply round_dec_shift; [exact H | simpl; lra].
Qed.

Lemma round4_minus_003 (x : R) :
  0.03 <= x -> round_dec 4 (x + - (0.03)) = round_dec 4 x - 0.03.
Proof.
  intros H. replace (- (0.03)) with (IZR (-300) / 10 ^ 4) by (simpl; lra).
  rewrite round_dec_shift; [simpl; lra | lra | simpl; lra].
Qed.

Lemma lossLoop_entries (A : R) (d : Draws) (n i : nat) :
  0.5 <= A <= 1000 -> (forall k, unit_interval (draw_loss d k)) ->
  lossLoop (Fin A) d n (S i) (Fin (lossAt d i)) (Fin (accAt A i))
  = map (entryAt A d) (seq (S i) n).
Proof.
  intros HA Hd. revert i. induction n as [|n IH]; intros i; [reflexivity|].
  cbn [lossLoop seq map].
  pose proof (accAt_bounds A i (proj1 HA)) as Hc.
  pose proof (accAt_bounds A (S i) (proj1 HA)) as Hc'.
  pose proof (lossAt_bounds d (S i) Hd) as Hl'.
  rewrite nextLoss_fin, nextAcc_fin by lra.
  change (Rmax 0.1 (lossAt d i * 0.9 + draw_loss d (S i) * 0.02))
    with (lossAt d (S i)).
  change (accAt A i + (A - accAt A i) * 0.2) with (accAt A (S i)).
  rewrite IH. f_equal. unfold entryAt. cbn [add sub neg].
  rewrite !toFixed_small by (apply small_abs; lra).
  rewrite round4_plus_005, round4_minus_003 by lra. reflexivity.
Qed.

(** ** Regression metrics *)

Section SynthesizerFacts.

Variable number_to_string : jsnum -> string.
Variable string_to_number : string -> jsnum.

Let rank := calculateFeatureImpacts number_to_string string_to_number.
Let simulate := simulateBackendTraining number_to_string string_to_number.

(** What a run returns: it never throws, and every field of the bundle is
    given by the strongest correlation [mc] and the clamped target [a]. *)
Lemma simulate_run (dataset : Dataset) (modelConfig : ModelConfig)
    (preprocessing : PreprocessingConfig) (d : Draws) :
  exists res mc a,
    simulate dataset modelConfig preprocessing d = Ok res /\
    maxCorrelation (rank dataset (targetColumn modelConfig)) = Ok mc /\
    isNaN mc = false /\
    actualAccuracy modelConfig mc d = Fin a /\
    0.6 <= a <= 0.99 /\
    metrics res
    = deriveMetrics (isClassification modelConfig)
        {| tp := Fin (IZR (tpZ a d)); fp := Fin (IZR (fpZ a d));
           fn := Fin (IZR (fnZ a d)); tn := Fin (IZR (tnZ a d)) |} d /\
    confusionMatrix res
    = [ [Fin (IZR (tpZ a d)); Fin (IZR (fpZ a d))];
        [Fin (IZR (fnZ a d)); Fin (IZR (tnZ a d))] ] /\
    lossHistory res = simulateLossHistory modelConfig (accuracy (metrics res)) d /\
    shapValues res
    = explainShap (firstn 8 (rank dataset (targetColumn modelConfig))) d /\
    limeValues res
    = explainLime (firstn 8 (rank dataset (targetColumn modelConfig))) d /\
    featureImportance res
    = map (fun s => {| imp_feature := feature s;
                       importance := Math_abs (fv_value s) |}) (shapValues res) /\
    radarData res = buildRadar (metrics res) /\
    featNameAt (shapValues res) 0 "Feature X" = Ok (topFeatName (explanation res)) /\
    featNameAt (shapValues res) 1 "Feature Y" = Ok (secondFeatName (explanation res)) /\
    modelCategory res = category modelConfig.
Proof.
  unfold simulate, simulateBackendTraining.
  fold (rank dataset (targetColumn modelConfig)).
  destruct (maxCorrelation_ok _
              (calculateFeatureImpacts_notNaN number_to_string string_to_number
                 dataset (targetColumn modelConfig)))
    as [mc [Emc Hmc]].
  fold rank in Emc. rewrite Emc. cbn [bind].
  destruct (actualAccuracy_clamped modelConfig mc d Hmc) as [a [Ea Ha]].
  rewrite Ea. rewrite counts_fin. cbn [tp fp fn tn].
  set (shap := explainShap (firstn 8 (rank dataset (targetColumn modelConfig))) d).
  destruct (featNameAt_ok shap 0 "Feature X") as [n1 E1].
  destruct (featNameAt_ok shap 1 "Feature Y") as [n2 E2].
  rewrite E1, E2. cbn [bind].
  eexists. exists mc, a.
  split; [reflexivity|].
  cbn [metrics confusionMatrix lossHistory shapValues limeValues featureImportance
       radarData explanation topFeatName secondFeatName modelCategory].
  repeat (split; [first [reflexivity | assumption]|]).
  reflexivity.
Qed.

(** The accuracy recomputed from the counts is [totalCorrect / 200]. *)
Lemma raw_accuracy (a : R) (d : Draws) :
  div (add (Fin (IZR (tpZ a d))) (Fin (IZR (tnZ a d)))) totalSamples
  = Fin (IZR (totalCorrectZ a) / 200).
Proof.
  unfold totalSamples. cbn [add div]. rewrite Reqb_false by lra.
  f_equal. unfold tnZ. rewrite minus_IZR. lra.
Qed.

Lemma accuracy_unit (a : R) :
  0.6 <= a <= 0.99 -> 0.6 <= IZR (totalCorrectZ a) / 200 <= 0.99.
Proof.
  intros Ha. pose proof (totalCorrectZ_bounds a Ha) as [H1 H2].
  apply IZR_le in H1, H2. lra.
Qed.

(** The reported accuracy is a multiple of 1/200 between 0.60 and 0.99. *)
Lemma simulate_accuracy (cls : bool) (a : R) (d : Draws) :
  0.6 <= a <= 0.99 ->
  accuracy (deriveMetrics cls
              {| tp := Fin (IZR (tpZ a d)); fp := Fin (IZR (fpZ a d));
                 fn := Fin (IZR (fnZ a d)); tn := Fin (IZR (tnZ a d)) |} d)
  = Fin (IZR (totalCorrectZ a) / 200).
Proof.
  intros Ha. pose proof (totalCorrectZ_bounds a Ha) as Hc.
  pose proof (accuracy_unit a Ha) as Hu.
  unfold deriveMetrics. cbn [tp tn accuracy]. rewrite raw_accuracy.
  rewrite toFixed_small by (apply small_abs; lra).
  rewrite round_dec_200 by lia. reflexivity.
Qed.

(** A run on a dataset without ranked feature: the target accuracy is the
    base accuracy plus the noise, when that lies within the clamp. *)
Lemma run_without_impacts (dataset : Dataset) (modelConfig : ModelConfig)
    (preprocessing : PreprocessingConfig) (d : Draws) (b : R) :
  rank dataset (targetColumn modelConfig) = [] ->
  baseAccuracy modelConfig = Fin b ->
  0.6 <= b + draw_accuracy d * 0.05 <= 0.99 ->
  exists res,
    simulate dataset modelConfig preprocessing d = Ok res /\
    metrics res
    = deriveMetrics (isClassification modelConfig)
        {| tp := Fin (IZR (tpZ (b + draw_accuracy d * 0.05) d));
           fp := Fin (IZR (fpZ (b + draw_accuracy d * 0.05) d));
           fn := Fin (IZR (fnZ (b + draw_accuracy d * 0.05) d));
           tn := Fin (IZR (tnZ (b + draw_accuracy d * 0.05) d)) |} d /\
    lossHistory res = simulateLossHistory modelConfig (accuracy (metrics res)) d.
Proof.
  intros Hrank Hb Hr.
  destruct (simulate_run dataset modelConfig preprocessing d)
    as (res & mc & a & Hres & Hmc & _ & Hact & Ha & Hm & _ & Hl & _).
  rewrite Hrank in Hmc. cbn in Hmc. injection Hmc as <-.
  assert (Ea : a = b + draw_accuracy d * 0.05).
  { unfold actualAccuracy, accuracyModifier in Hact. rewrite Hb in Hact.
    cbn [add sub neg mul] in Hact.
    unfold Math_max, Math_min, leb, Rleb in Hact.
    destruct (Rle_dec 0.6 _) as [H1 | H1] in Hact; [|lra].
    destruct (Rle_dec 0.99 _) as [H2 | H2] in Hact;
      injection Hact as <-; lra. }
  subst a. exists res. auto.
Qed.

(** C3. Whatever the dataset, the configuration and the draws, a run
    returns a bundle whose reported accuracy is a real number of the closed
    interval [0.60, 0.99]: it is [round(200 * target) / 200] for a target
    already clamped to that interval, and rounding to a multiple of 1/200
    and then to four decimals does not leave the interval. *)
Theorem accuracy_clamped (dataset : Dataset) (modelConfig : ModelConfig)
    (preprocessing : PreprocessingConfig) (d : Draws) :
  exists res mc a,
    simulate dataset modelConfig preprocessing d = Ok res /\
    maxCorrelation (rank dataset (targetColumn modelConfig)) = Ok mc /\
    actualAccuracy modelConfig mc d = Fin a /\
    0.6 <= a <= 0.99 /\
    accuracy (metrics res) = Fin (IZR (Zfloor (200 * a + / 2)) / 200) /\
    0.6 <= IZR (Zfloor (200 * a + / 2)) / 200 <= 0.99.
Proof.
  destruct (simulate_run dataset modelConfig preprocessing d)
    as (res & mc & a & Hres & Hmc & _ & Ha & Hb & Hm & _).
  exists res, mc, a. repeat (split; [assumption|]).
  rewrite Hm. split; [|split].
  - apply simulate_accuracy. exact Hb.
  - pose proof (totalCorrectZ_bounds a Hb) as [H1 _]. apply IZR_le in H1.
    unfold totalCorrectZ in H1. lra.
  - pose proof (totalCorrectZ_bounds a Hb) as [_ H2]. apply IZR_le in H2.
    unfold totalCorrectZ in H2. lra.
Qed.

(** C2. For every run whose draws lie in [0,1), the confusion matrix is
    [[TP, FP], [FN, TN]] with TP = round(totalCorrect * r) for a ratio [r] of
    [0.5, 0.6), TN = totalCorrect - TP, FP = round(totalWrong * s) for a
    ratio [s] of [0.4, 0.6) and FN = totalWrong - FP; the four entries are
    non-negative integers and add up to 200. *)
Theorem confusionMatrix_conservation
    (dataset : Dataset) (modelConfig : ModelConfig)
    (preprocessing : PreprocessingConfig) (d : Draws) :
  draws_ok d ->
  exists res a,
    simulate dataset modelConfig preprocessing d = Ok res /\
    let totalCorrect := Zfloor (200 * a + / 2) in
    let totalWrong := (200 - totalCorrect)%Z in
    let r := 0.5 + draw_tp d * 0.1 in
    let s := 0.4 + draw_fp d * 0.2 in
    let TP := Zfloor (IZR totalCorrect * r + / 2) in
    let TN := (totalCorrect - TP)%Z in
    let FP := Zfloor (IZR totalWrong * s + / 2) in
    let FN := (totalWrong - FP)%Z in
    confusionMatrix res
    = [ [Fin (IZR TP); Fin (IZR FP)]; [Fin (IZR FN); Fin (IZR TN)] ] /\
    0.5 <= r < 0.6 /\ 0.4 <= s < 0.6 /\
    (0 <= TP)%Z /\ (0 <= FP)%Z /\ (0 <= FN)%Z /\ (0 <= TN)%Z /\
    (TP + FP + FN + TN = 200)%Z.
Proof.
  intros Hd.
  destruct (simulate_run dataset modelConfig preprocessing d)
    as (res & mc & a & Hres & _ & _ & _ & Ha & _ & Hcm & _).
  exists res, a. split; [exact Hres|]. cbv zeta.
  pose proof (tpZ_bounds a d Ha (ok_tp d Hd)) as Htp.
  pose proof (fpZ_bounds a d Ha (ok_fp d Hd)) as Hfp.
  pose proof (ok_tp d Hd) as Ht. pose proof (ok_fp d Hd) as Hf.
  unfold unit_interval in Ht, Hf.
  assert (Efp : Zfloor (IZR (200 - Zfloor (200 * a + / 2))
                        * (0.4 + draw_fp d * 0.2) + / 2) = fpZ a d).
  { unfold fpZ, totalCorrectZ. rewrite minus_IZR. reflexivity. }
  rewrite Efp. fold (totalCorrectZ a). fold (tpZ a d).
  split; [exact Hcm|].
  repeat split; try lra; lia.
Qed.

(** C1. For every run whose draws lie in [0,1), the reported metrics are
    the values recomputed from the confusion matrix [[TP, FP], [FN, TN]]:
    precision is TP/(TP+FP) or 0 when TP+FP = 0, recall is TP/(TP+FN) or 0,
    the F1 score is 2*precision*recall/(precision+recall) or 0, accuracy is
    (TP+TN)/200, each rounded to four decimals. *)
Theorem metrics_consistent
    (dataset : Dataset) (modelConfig : ModelConfig)
    (preprocessing : PreprocessingConfig) (d : Draws) :
  draws_ok d ->
  exists res TP FP FN TN,
    simulate dataset modelConfig preprocessing d = Ok res /\
    confusionMatrix res
    = [ [Fin (IZR TP); Fin (IZR FP)]; [Fin (IZR FN); Fin (IZR TN)] ] /\
    precision (metrics res) = Fin (round_dec 4 (specPrecision TP FP)) /\
    recall (metrics res) = Fin (round_dec 4 (specRecall TP FN)) /\
    f1Score (metrics res)
    = Fin (round_dec 4 (specF1 (specPrecision TP FP) (specRecall TP FN))) /\
    accuracy (metrics res) = Fin (round_dec 4 (specAccuracy TP TN)).
Proof.
  intros Hd.
  destruct (simulate_run dataset modelConfig preprocessing d)
    as (res & mc & a & Hres & _ & _ & _ & Ha & Hm & Hcm & _).
  exists res, (tpZ a d), (fpZ a d), (fnZ a d), (tnZ a d).
  split; [exact Hres|]. split; [exact Hcm|].
  pose proof (totalCorrectZ_bounds a Ha) as Hc.
  pose proof (tpZ_bounds a d Ha (ok_tp d Hd)) as Htp.
  pose proof (fpZ_bounds a d Ha (ok_fp d Hd)) as Hfp.
  assert (H1 : (0 <= tpZ a d)%Z) by lia.
  assert (H2 : (0 <= fpZ a d)%Z) by lia.
  assert (H3 : (0 <= fnZ a d)%Z) by (unfold fnZ; lia).
  assert (H4 : (0 <= tnZ a d)%Z) by (unfold tnZ; lia).
  destruct (deriveMetrics_counts (isClassification modelConfig)
              _ _ _ _ d H1 H2 H3 H4) as [Ep [Er [Ef Eacc]]].
  rewrite Hm. repeat (split; [assumption|]).
  rewrite Eacc. apply toFixed_small. apply small_abs.
  unfold specAccuracy, tnZ.
  replace (tpZ a d + (totalCorrectZ a - tpZ a d))%Z with (totalCorrectZ a) by lia.
  destruct Hc as [Hc1 Hc2]. apply IZR_le in Hc1, Hc2. lra.
Qed.

(** C7 as the code has it.  In every run whose draws lie in [0,1), the
    loss history has one entry per epoch; the training accuracy starts from
    0.5 and follows [acc += (A - acc) * 0.2] for the reported accuracy [A],
    so that it approaches [A] geometrically from below and stays under the
    cap [A + 0.02]; the loss follows [max(0.1, loss * 0.9 + draw * 0.02)];
    every entry reports both rounded to four decimals, with
    [val_loss = loss + 0.05] and [val_accuracy = accuracy - 0.03]. *)
Theorem lossHistory_recurrence
    (dataset : Dataset) (modelConfig : ModelConfig)
    (preprocessing : PreprocessingConfig) (d : Draws) :
  draws_ok d ->
  exists res A,
    simulate dataset modelConfig preprocessing d = Ok res /\
    accuracy (metrics res) = Fin A /\
    lossHistory res
    = map (fun i =>
             {| epoch := i;
                loss := Fin (round_dec 4 (lossAt d i));
                log_accuracy := Fin (round_dec 4 (accAt A i));
                val_loss := Fin (round_dec 4 (lossAt d i) + 0.05);
                val_accuracy := Fin (round_dec 4 (accAt A i) - 0.03) |})
          (seq 1 (epochs modelConfig)) /\
    accAt A 0 = 0.5 /\
    (forall k, accAt A (S k) = accAt A k + (A - accAt A k) * 0.2) /\
    (forall k, nextAcc (Fin A) (Fin (accAt A k)) = Fin (accAt A (S k))) /\
    (forall k, accAt A k = A - (A - 0.5) * 0.8 ^ k) /\
    (forall k, accAt A k <= A < A + 0.02) /\
    lossAt d 0 = 0.7 /\
    (forall k, lossAt d (S k)
               = Rmax 0.1 (lossAt d k * 0.9 + draw_loss d (S k) * 0.02)).
Proof.
  intros Hd.
  destruct (simulate_run dataset modelConfig preprocessing d)
    as (res & mc & a & Hres & _ & _ & _ & Ha & Hm & _ & Hl & _).
  pose proof (accuracy_unit a Ha) as Hu.
  exists res, (IZR (totalCorrectZ a) / 200).
  assert (Hacc : accuracy (metrics res) = Fin (IZR (totalCorrectZ a) / 200)).
  { rewrite Hm. apply simulate_accuracy. exact Ha. }
  split; [exact Hres|]. split; [exact Hacc|].
  split.
  { rewrite Hl, Hacc. unfold simulateLossHistory.
    apply (lossLoop_entries _ d (epochs modelConfig) 0); [lra|].
    apply (ok_loss d Hd). }
  split; [reflexivity|]. split; [reflexivity|].
  split.
  { intros k. apply nextAcc_fin.
    apply (accAt_bounds _ k). lra. }
  split; [intros k; apply accAt_closed|].
  split.
  { intros k. pose proof (accAt_bounds (IZR (totalCorrectZ a) / 200) k) as H.
    lra. }
  split; reflexivity.
Qed.

(** C8 as the code has it.  The classification list holds the short names
    CNN, ANN, RNN and Simple Transformer and none of the long names of the
    deep-learning panel, nor LSTM.  In every run whose draws lie in [0,1):
    for a model of the list, [auc] is the accuracy plus 0.02 rounded to four
    decimals and [rmse], [mae] are absent; for any other model [auc] is
    absent, [rmse] is its own draw times 1000 and [mae] its own draw times
    800, each rounded to two decimals, hence in [0, 1000] and [0, 800]; and
    replacing the two regression draws changes neither the confusion matrix
    nor the accuracy, precision, recall, F1 score or auc. *)
Theorem classification_metrics
    (dataset : Dataset) (modelConfig : ModelConfig)
    (preprocessing : PreprocessingConfig) (d : Draws) :
  draws_ok d ->
  (Forall (fun s => includes classificationModels s = true)
     ["CNN"; "ANN"; "RNN"; "Simple Transformer"]%string /\
   Forall (fun s => includes classificationModels s = false)
     ["Convolutional Neural Network (CNN)"; "Artificial Neural Network (ANN)";
      "Recurrent Neural Network (RNN)"; "LSTM"]%string) /\
  exists res A,
    simulate dataset modelConfig preprocessing d = Ok res /\
    accuracy (metrics res) = Fin A /\
    (isClassification modelConfig = true ->
     auc (metrics res) = Some (Fin (round_dec 4 (A + 0.02))) /\
     rmse (metrics res) = None /\ mae (metrics res) = None) /\
    (isClassification modelConfig = false ->
     auc (metrics res) = None /\
     rmse (metrics res) = Some (Fin (round_dec 2 (draw_rmse d * 1000))) /\
     mae (metrics res) = Some (Fin (round_dec 2 (draw_mae d * 800))) /\
     0 <= round_dec 2 (draw_rmse d * 1000) <= 1000 /\
     0 <= round_dec 2 (draw_mae d * 800) <= 800) /\
    (forall r1 r2,
     exists res',
       simulate dataset modelConfig preprocessing (with_regression_draws d r1 r2) = Ok res' /\
       confusionMatrix res' = confusionMatrix res /\
       accuracy (metrics res') = accuracy (metrics res) /\
       precision (metrics res') = precision (metrics res) /\
       recall (metrics res') = recall (metrics res) /\
       f1Score (metrics res') = f1Score (metrics res) /\
       auc (metrics res') = auc (metrics res)).
Proof.
  intros Hd. split.
  { split; repeat constructor. }
  destruct (simulate_run dataset modelConfig preprocessing d)
    as (res & mc & a & Hres & Hmc & _ & Hact & Ha & Hm & Hcm & _).
  pose proof (accuracy_unit a Ha) as Hu.
  exists res, (IZR (totalCorrectZ a) / 200).
  split; [exact Hres|].
  split; [rewrite Hm; apply simulate_accuracy; exact Ha|].
  pose proof (ok_rmse d Hd) as Hr. pose proof (ok_mae d Hd) as Hmae.
  unfold unit_interval in Hr, Hmae.
  split; [|split].
  - intros Hc. rewrite Hm, Hc. unfold deriveMetrics.
    cbn [auc rmse mae negb tp tn]. rewrite raw_accuracy. cbn [add].
    rewrite toFixed_small by (apply small_abs; lra). auto.
  - intros Hc. rewrite Hm, Hc. unfold deriveMetrics.
    cbn [auc rmse mae negb mul].
    rewrite !toFixed_small by (apply small_abs; lra).
    repeat (split; [reflexivity|]).
    split.
    + apply (round_dec_bounds 2 1000). lra.
    + apply (round_dec_bounds 2 800). lra.
  - intros r1 r2.
    destruct (simulate_run dataset modelConfig preprocessing
                (with_regression_draws d r1 r2))
      as [res' [mc' [a' [Hres' [Hmc' [_ [Hact' [_ [Hm' [Hcm' _]]]]]]]]]].
    rewrite Hmc in Hmc'. injection Hmc' as <-.
    assert (Ea : a' = a).
    { unfold actualAccuracy in Hact, Hact'. cbn [with_regression_draws draw_accuracy] in Hact'.
      rewrite Hact in Hact'. injection Hact' as ->. reflexivity. }
    subst a'. exists res'. split; [exact Hres'|].
    rewrite Hcm, Hcm', Hm, Hm'.
    repeat split; reflexivity.
Qed.

End SynthesizerFacts.

(** ** Label encoding *)

Lemma Reqb_eq (a b : R) : Reqb a b = true <-> a = b.
Proof.
  unfold Reqb. destruct (Req_dec_T a b); split; intros H;
    try reflexivity; try assumption; try discriminate; contradiction.
Qed.

Lemma same_value_zero_eq (a b : value) : same_value_zero a b = true <-> a = b.
Proof.
  destruct a as [m|s|p| |], b as [n|t|q| |]; simpl;
    try (split; [discriminate | congruence]); try (split; reflexivity).
  - destruct m as [x| | |], n as [y| | |]; simpl;
      try (split; [discriminate | congruence]); try (split; reflexivity).
    rewrite Reqb_eq. split; congruence.
  - rewrite String.eqb_eq. split; congruence.
  - rewrite Bool.eqb_true_iff. split; congruence.
Qed.

Lemma same_value_zero_refl (a : value) : same_value_zero a a = true.
Proof. apply same_value_zero_eq. reflexivity. Qed.

Lemma existsb_same_In (v : value) (l : list value) :
  existsb (same_value_zero v) l = true <-> In v l.
Proof.
  rewrite existsb_exists. split.
  - intros [w [Hw E]]. apply same_value_zero_eq in E. subst. exact Hw.
  - intros H. exists v. split; [exact H | apply same_value_zero_refl].
Qed.

Lemma strict_equals_notNaN (a b : value) :
  b <> VNum NaN -> strict_equals a b = same_value_zero a b.
Proof.
  intros Hb.
  destruct a as [[x| | |]|s|p| |], b as [[y| | |]|t|q| |];
    try reflexivity; congruence.
Qed.

Lemma set_add_spec (seen : list value) (v : value) :
  (In v seen /\ set_add seen v = seen) \/
  (~ In v seen /\ set_add seen v = seen ++ [v]).
Proof.
  unfold set_add. destruct (existsb (same_value_zero v) seen) eqn:E.
  - left. split; [apply existsb_same_In; exact E | reflexivity].
  - right. split; [|reflexivity].
    intros H. apply existsb_same_In in H. congruence.
Qed.

(** Scanning [l] after [seen]: the values already seen keep their places,
    and the new ones follow in order of first occurrence. *)
Lemma fold_set_add (l seen : list value) :
  NoDup seen ->
  exists extra,
    fold_left set_add l seen = seen ++ extra /\
    NoDup (seen ++ extra) /\
    (forall w, In w extra <-> In w l /\ ~ In w seen).
Proof.
  revert seen. induction l as [|v l IH]; intros seen Hnd.
  - exists []. rewrite app_nil_r. repeat split; try assumption.
    + contradiction.
    + intros [[] _].
  - cbn [fold_left].
    destruct (set_add_spec seen v) as [[Hin ->] | [Hout ->]].
    + destruct (IH seen Hnd) as [extra [E [N I]]].
      exists extra. split; [exact E|]. split; [exact N|].
      intros w. rewrite I. split.
      * intros [H1 H2]. split; [right; exact H1 | exact H2].
      * intros [[<- | H1] H2]; [contradiction | auto].
    + assert (Hnd' : NoDup (seen ++ [v])).
      { apply NoDup_app; [exact Hnd | repeat constructor; auto |].
        intros w Hw [<- | []]. contradiction. }
      destruct (IH (seen ++ [v]) Hnd') as [extra [E [N I]]].
      exists (v :: extra).
      replace (seen ++ v :: extra) with ((seen ++ [v]) ++ extra)
        by (rewrite <- app_assoc; reflexivity).
      split; [exact E|]. split; [exact N|].
      intros w. split.
      * intros [<- | Hw]; [split; [left; reflexivity | exact Hout]|].
        apply I in Hw. destruct Hw as [H1 H2]. split; [right; exact H1|].
        intros H. apply H2. apply in_or_app. left. exact H.
      * intros [[<- | H1] H2]; [left; reflexivity|].
        destruct (same_value_zero v w) eqn:Evw.
        -- left. apply same_value_zero_eq. exact Evw.
        -- right. apply I. split; [exact H1|].
           intros H. apply in_app_or in H. destruct H as [H | [<- | []]].
           ++ contradiction.
           ++ rewrite same_value_zero_refl in Evw. discriminate.
Qed.

Lemma distinct_NoDup (l : list value) : NoDup (distinct l).
Proof.
  destruct (fold_set_add l [] (NoDup_nil _)) as [extra [E [N _]]].
  unfold distinct. rewrite E. exact N.
Qed.

Lemma distinct_In (l : list value) (v : value) : In v (distinct l) <-> In v l.
Proof.
  destruct (fold_set_add l [] (NoDup_nil _)) as [extra [E [_ I]]].
  unfold distinct. rewrite E. cbn [app]. rewrite I. tauto.
Qed.

(** The distinct values come in order of first occurrence: those of a
    prefix of the sequence come first. *)
Lemma distinct_prefix (pre suf : list value) :
  exists extra,
    distinct (pre ++ suf) = distinct pre ++ extra /\
    (forall w, In w extra -> ~ In w pre).
Proof.
  unfold distinct. rewrite fold_left_app.
  destruct (fold_set_add suf (fold_left set_add pre []) (distinct_NoDup pre))
    as [extra [E [_ I]]].
  exists extra. split; [exact E|].
  intros w Hw H. apply I in Hw. destruct Hw as [_ Hw]. apply Hw.
  apply (distinct_In pre w). exact H.
Qed.

Lemma indexOf_from_In (u : list value) (v : value) (i : Z) :
  v <> VNum NaN -> In v u ->
  exists k : nat,
    indexOf_from u v i = (i + Z.of_nat k)%Z /\ nth_error u k = Some v.
Proof.
  intros Hv. revert i. induction u as [|a u IH]; intros i Hin; [contradiction|].
  cbn [indexOf_from]. rewrite strict_equals_notNaN by exact Hv.
  destruct (same_value_zero a v) eqn:E.
  - apply same_value_zero_eq in E. subst a.
    exists 0%nat. split; [lia | reflexivity].
  - destruct Hin as [-> | Hin].
    + rewrite same_value_zero_refl in E. discriminate.
    + destruct (IH (i + 1)%Z Hin) as [k [Hk Hn]].
      exists (S k). split; [lia | exact Hn].
Qed.

Lemma labelEncode_length (raw : list value) :
  List.length (labelEncode raw) = List.length raw.
Proof. unfold labelEncode. apply length_map. Qed.

Lemma labelEncode_nth (raw : list value) (k : nat) (v : value) :
  nth_error raw k = Some v -> v <> VNum NaN ->
  exists i : nat,
    nth_error (labelEncode raw) k = Some (VNum (Fin (IZR (Z.of_nat i)))) /\
    nth_error (distinct raw) i = Some v.
Proof.
  intros Hk Hv.
  assert (Hin : In v (distinct raw)).
  { apply distinct_In. eapply nth_error_In. exact Hk. }
  destruct (indexOf_from_In (distinct raw) v 0 Hv Hin) as [i [Ei Hi]].
  exists i. split; [|exact Hi].
  unfold labelEncode. rewrite nth_error_map, Hk. cbn [option_map].
  unfold indexOf. rewrite Ei. reflexivity.
Qed.

(** C10 as the code has it.  The target column is label-encoded exactly
    when its first non-null value is a string, and used as it is otherwise
    (numbers, but also booleans); a feature column is label-encoded exactly
    when its declared type is not [number], and used as it is otherwise.
    Label encoding keeps the length, lists the distinct values without
    repetition in order of first occurrence, and sends each value other than
    NaN to its index in that list. *)
Theorem label_encoding (dataset : Dataset) (targetCol : string) (col : DatasetColumn) :
  let targetRaw := map (fun r => get r targetCol) (rows dataset) in
  let rawVals := map (fun r => get r (name col)) (rows dataset) in
  ((exists s, find not_null targetRaw = Some (VStr s)) ->
   targetNums dataset targetCol = labelEncode targetRaw) /\
  ((forall s, find not_null targetRaw <> Some (VStr s)) ->
   targetNums dataset targetCol = targetRaw) /\
  (type col <> TNumber -> featureNums dataset col = labelEncode rawVals) /\
  (type col = TNumber -> featureNums dataset col = rawVals) /\
  forall raw : list value,
    List.length (labelEncode raw) = List.length raw /\
    NoDup (distinct raw) /\
    (forall v, In v (distinct raw) <-> In v raw) /\
    (forall pre suf, raw = pre ++ suf ->
       exists extra, distinct raw = distinct pre ++ extra /\
                     forall w, In w extra -> ~ In w pre) /\
    (forall k v, nth_error raw k = Some v -> v <> VNum NaN ->
       exists i : nat,
         nth_error (labelEncode raw) k = Some (VNum (Fin (IZR (Z.of_nat i)))) /\
         nth_error (distinct raw) i = Some v).
Proof.
  cbv zeta. split; [|split; [|split; [|split]]].
  - intros [s Hs]. unfold targetNums, targetIsString. rewrite Hs. reflexivity.
  - intros Hs. unfold targetNums, targetIsString.
    destruct (find not_null _) as [[n|s|b| |]|] eqn:E; try reflexivity.
    exfalso. apply (Hs s). reflexivity.
  - intros Ht. unfold featureNums. destruct (type col); try reflexivity.
    contradiction.
  - intros Ht. unfold featureNums. rewrite Ht. reflexivity.
  - intros raw. split; [apply labelEncode_length|].
    split; [apply distinct_NoDup|]. split; [apply distinct_In|].
    split; [intros pre suf ->; apply distinct_prefix|].
    apply labelEncode_nth.
Qed.

(** ** Concrete runs *)

Lemma drawsWithRmse_ok (r : R) : unit_interval r -> draws_ok (drawsWithRmse r).
Proof.
  intros Hr. constructor; cbn [drawsWithRmse draw_accuracy draw_tp draw_fp
    draw_rmse draw_mae draw_loss draw_shap draw_lime]; try intros i;
    try exact Hr; unfold unit_interval; lra.
Qed.

(** Rounding leaves alone a number with no more than [d] decimals. *)
Lemma round_dec_exact (d : nat) (x : R) (z : Z) :
  0 <= x -> x * 10 ^ d = IZR z -> round_dec d x = x.
Proof.
  intros Hx Hz. pose proof (pow10_pos d) as Hp.
  rewrite round_dec_nonneg by exact Hx.
  rewrite Hz, (Zfloor_eq z) by lra.
  rewrite <- Hz. field. lra.
Qed.

(** C10, counterexample.  A boolean target is not label-encoded: the target
    [true, false] enters the correlation as 1, 0, where label encoding
    would give 0, 1; the impact of the feature 0, 1 is -1, where the encoded
    target would give 1. *)
Lemma boolean_target_used_as_is :
  targetNums flags "t" = [VBool true; VBool false] /\
  map (ToNumber unparsed) (targetNums flags "t")
  <> map (ToNumber unparsed) (labelEncode (map (fun r => get r "t") (rows flags))) /\
  calculateFeatureImpacts unrendered unparsed flags "t"
  = [ {| feature_name := "f"; impact := Fin (-1) |} ] /\
  calculateCorrelation unrendered unparsed [num 0; num 1]
    (labelEncode (map (fun r => get r "t") (rows flags))) = Fin 1.
Proof.
  split; [reflexivity|]. split.
  { cbn. intros H. injection H as H _. lra. }
  split.
  - unfold calculateFeatureImpacts, impacts, impactOf.
    cbn -[calculateCorrelation].
    unfold calculateCorrelation, reduce.
    cbn [List.length Nat.eqb reduce_from js_plus js_times ToNumber is_string
         orb add mul sub neg at_index nth num INR].
    match goal with
    | |- context [Math_sqrt (Fin ?e)] => replace e with 1 by lra
    end.
    unfold Math_sqrt. rewrite Rltb_false by lra. rewrite sqrt_1.
    unfold is_zero. rewrite Reqb_false by lra.
    unfold div. rewrite Reqb_false by lra. cbn [isNaN].
    do 3 f_equal. lra.
  - change (labelEncode (map (fun r => get r "t") (rows flags)))
      with (nums [0; 1]).
    change [num 0; num 1] with (nums [0; 1]).
    rewrite calculateCorrelation_nums by reflexivity.
    rewrite pearson_self; [reflexivity|].
    unfold varTerm, covTerm. simpl. lra.
Qed.

(** C7, counterexample.  With the reported accuracy 0.82, the first epoch
    logs the accuracy 0.5 + (0.82 - 0.5) * 0.2 = 0.564, and not
    0.5 + (0.82 + 0.02 - 0.5) * 0.2 = 0.568. *)
Lemma first_epoch_accuracy :
  exists res e rest,
    simulateBackendTraining unrendered unparsed solo
      (configFor ML "Random Forest" "t") initialPreprocessing (drawsWithRmse 0)
    = Ok res /\
    accuracy (metrics res) = Fin 0.82 /\
    lossHistory res = e :: rest /\
    log_accuracy e = Fin 0.564 /\
    log_accuracy e <> Fin (round_dec 4 (0.5 + (0.82 + 0.02 - 0.5) * 0.2)).
Proof.
  destruct (run_without_impacts unrendered unparsed solo
              (configFor ML "Random Forest" "t") initialPreprocessing
              (drawsWithRmse 0) 0.82 eq_refl eq_refl)
    as (res & Hres & Hm & Hl).
  { cbn [drawsWithRmse draw_accuracy]. lra. }
  cbn [drawsWithRmse draw_accuracy] in Hm.
  assert (Ha : 0.6 <= 0.82 + 0 * 0.05 <= 0.99) by lra.
  assert (Hacc : accuracy (metrics res) = Fin 0.82).
  { rewrite Hm, (simulate_accuracy _ _ _ Ha). f_equal.
    unfold totalCorrectZ. rewrite (Zfloor_eq 164) by lra. lra. }
  rewrite Hacc in Hl. unfold simulateLossHistory in Hl.
  change (Fin 0.7) with (Fin (lossAt (drawsWithRmse 0) 0)) in Hl.
  change (Fin 0.5) with (Fin (accAt 0.82 0)) in Hl.
  rewrite lossLoop_entries in Hl;
    [| lra | intros k; cbn; unfold unit_interval; lra].
  change (epochs (configFor ML "Random Forest" "t")) with 20%nat in Hl.
  cbn [seq map] in Hl.
  eexists res, _, _. split; [exact Hres|]. split; [exact Hacc|].
  split; [exact Hl|].
  cbn [entryAt log_accuracy accAt].
  rewrite (round_dec_exact 4 (0.5 + (0.82 - 0.5) * 0.2) 5640)
    by (simpl; lra).
  rewrite (round_dec_exact 4 (0.5 + (0.82 + 0.02 - 0.5) * 0.2) 5680)
    by (simpl; lra).
  split; [f_equal; lra|].
  intros H. injection H as H. lra.
Qed.

(** C8, counterexample.  For the deep-learning model LSTM, which is not in
    the classification list, the draw 0.999999 gives the root mean square
    error 1000.00: the rounding to two decimals reaches the bound that the
    draw itself never reaches. *)
Lemma rmse_reaches_1000 :
  draws_ok (drawsWithRmse 0.999999) /\
  isClassification (configFor DL "LSTM" "t") = false /\
  exists res,
    simulateBackendTraining unrendered unparsed solo
      (configFor DL "LSTM" "t") initialPreprocessing (drawsWithRmse 0.999999)
    = Ok res /\
    rmse (metrics res) = Some (Fin 1000) /\
    ~ (0 <= 1000 < 1000).
Proof.
  split; [apply drawsWithRmse_ok; unfold unit_interval; lra|].
  split; [reflexivity|].
  destruct (run_without_impacts unrendered unparsed solo
              (configFor DL "LSTM" "t") initialPreprocessing
              (drawsWithRmse 0.999999) 0.88 eq_refl eq_refl)
    as (res & Hres & Hm & _).
  { cbn [drawsWithRmse draw_accuracy]. lra. }
  exists res. split; [exact Hres|]. split; [|lra].
  rewrite Hm. unfold deriveMetrics.
  change (isClassification (configFor DL "LSTM" "t")) with false.
  cbn [rmse negb drawsWithRmse draw_rmse mul].
  rewrite toFixed_small by (apply small_abs; lra).
  do 2 f_equal. rewrite round_dec_nonneg by lra.
  rewrite (Zfloor_eq 100000) by (simpl; lra). simpl. lra.
Qed.

(** ** The theorems at concrete runs *)

Lemma confusionMatrix_conservation_witness :
  exists res TP FP FN TN,
    simulateBackendTraining unrendered unparsed flags
      (configFor ML "Random Forest" "t") initialPreprocessing (drawsWithRmse 0)
    = Ok res /\
    confusionMatrix res
    = [ [Fin (IZR TP); Fin (IZR FP)]; [Fin (IZR FN); Fin (IZR TN)] ] /\
    (TP + FP + FN + TN = 200)%Z.
Proof.
  destruct (confusionMatrix_conservation unrendered unparsed flags
              (configFor ML "Random Forest" "t") initialPreprocessing
              (drawsWithRmse 0))
    as (res & a & Hres & H).
  - apply drawsWithRmse_ok. unfold unit_interval. lra.
  - cbv zeta in H. destruct H as (Hcm & _ & _ & _ & _ & _ & _ & Hsum).
    eexists res, _, _, _, _. split; [exact Hres|]. split; [exact Hcm | exact Hsum].
Defined.

Lemma metrics_consistent_witness :
  exists res TP FP,
    simulateBackendTraining unrendered unparsed flags
      (configFor ML "Random Forest" "t") initialPreprocessing (drawsWithRmse 0)
    = Ok res /\
    precision (metrics res) = Fin (round_dec 4 (specPrecision TP FP)).
Proof.
  destruct (metrics_consistent unrendered unparsed flags
              (configFor ML "Random Forest" "t") initialPreprocessing
              (drawsWithRmse 0))
    as (res & TP & FP & FN & TN & Hres & _ & Hp & _).
  - apply drawsWithRmse_ok. unfold unit_interval. lra.
  - exists res, TP, FP. split; [exact Hres | exact Hp].
Defined.

Lemma lossHistory_recurrence_witness :
  exists res,
    simulateBackendTraining unrendered unparsed flags
      (configFor DL "LSTM" "t") initialPreprocessing (drawsWithRmse 0)
    = Ok res /\
    List.length (lossHistory res) = 30%nat.
Proof.
  destruct (lossHistory_recurrence unrendered unparsed flags
              (configFor DL "LSTM" "t") initialPreprocessing (drawsWithRmse 0))
    as (res & A & Hres & _ & Hl & _).
  - apply drawsWithRmse_ok. unfold unit_interval. lra.
  - exists res. split; [exact Hres|]. rewrite Hl, length_map, length_seq.
    reflexivity.
Defined.

Lemma classification_metrics_witness :
  exists res,
    simulateBackendTraining unrendered unparsed flags
      (configFor DL "LSTM" "t") initialPreprocessing (drawsWithRmse 0.5)
    = Ok res /\
    auc (metrics res) = None /\
    rmse (metrics res) = Some (Fin (round_dec 2 (0.5 * 1000))).
Proof.
  destruct (classification_metrics unrendered unparsed flags
              (configFor DL "LSTM" "t") initialPreprocessing (drawsWithRmse 0.5))
    as (_ & res & A & Hres & _ & _ & Hreg & _).
  - apply drawsWithRmse_ok. unfold unit_interval. lra.
  - destruct (Hreg eq_refl) as (Hauc & Hrmse & _).
    exists res. split; [exact Hres|]. split; [exact Hauc | exact Hrmse].
Defined.

(** ** Column helpers *)

(** X1. Every column is numerical, categorical or of unknown type, and
    with distinct column names no name is both numerical and categorical. *)
Theorem columns_partition (dataset : Dataset) :
  (List.length (getNumericalColumns dataset)
   + List.length (getCategoricalColumns dataset)
   + List.length (filter (fun c => ColumnType_eqb (type c) TUnknown) (columns dataset))
   = List.length (columns dataset))%nat /\
  (forall c, In c (columns dataset) ->
     match type c with
     | TNumber => In (name c) (getNumericalColumns dataset)
     | TString | TBoolean => In (name c) (getCategoricalColumns dataset)
     | TUnknown => True
     end) /\
  (NoDup (map name (columns dataset)) ->
   forall n, ~ (In n (getNumericalColumns dataset)
                /\ In n (getCategoricalColumns dataset))).
Proof.
  unfold getNumericalColumns, getCategoricalColumns.
  split; [|split].
  - rewrite !length_map.
    induction (columns dataset) as [|c l IH]; [reflexivity|].
    cbn [filter]. destruct (type c); cbn; lia.
  - intros c Hc. destruct (type c) eqn:E; try exact I;
      apply in_map; apply filter_In; (split; [exact Hc | rewrite E; reflexivity]).
  - induction (columns dataset) as [|c l IH]; intros Hnd n [H1 H2];
      [contradiction|].
    cbn [map] in Hnd. inversion Hnd as [|? ? Hnot Hnd']; subst.
    assert (Hsub : forall f m, In m (map name (filter f l)) -> In m (map name l)).
    { intros f m Hm. apply in_map_iff in Hm. destruct Hm as [c' [<- Hc']].
      apply filter_In in Hc'. apply in_map. tauto. }
    cbn [filter] in H1, H2.
    destruct (type c); cbn [ColumnType_eqb orb map] in H1, H2.
    + destruct H2 as [<- | H2].
      * apply Hnot. eapply Hsub. exact H1.
      * apply (IH Hnd' n). split; assumption.
    + destruct H1 as [<- | H1].
      * apply Hnot. eapply Hsub. exact H2.
      * apply (IH Hnd' n). split; assumption.
    + destruct H2 as [<- | H2].
      * apply Hnot. eapply Hsub. exact H1.
      * apply (IH Hnd' n). split; assumption.
    + apply (IH Hnd' n). split; assumption.
Qed.

(** ** Histogram *)

Lemma Math_min_fin (a b : R) : Math_min (Fin a) (Fin b) = Fin (Rmin a b).
Proof.
  unfold Math_min, leb, Rleb, Rmin. destruct (Rle_dec a b); reflexivity.
Qed.

Lemma Math_max_fin (a b : R) : Math_max (Fin a) (Fin b) = Fin (Rmax a b).
Proof.
  unfold Math_max, leb, Rleb, Rmax. destruct (Rle_dec a b); reflexivity.
Qed.

Lemma fold_min_fin (rs : list R) (a : R) :
  fold_left Math_min (map Fin rs) (Fin a) = Fin (listMin a rs).
Proof.
  unfold listMin. revert a. induction rs as [|r rs IH]; intros a; cbn [map fold_left];
    [reflexivity|].
  rewrite Math_min_fin. apply IH.
Qed.

Lemma fold_max_fin (rs : list R) (a : R) :
  fold_left Math_max (map Fin rs) (Fin a) = Fin (listMax a rs).
Proof.
  unfold listMax. revert a. induction rs as [|r rs IH]; intros a; cbn [map fold_left];
    [reflexivity|].
  rewrite Math_max_fin. apply IH.
Qed.

Lemma Math_min_of_fin (r : R) (rs : list R) :
  Math_min_of (map Fin (r :: rs)) = Fin (listMin r rs).
Proof.
  unfold Math_min_of. cbn [map fold_left].
  change (Math_min PInf (Fin r)) with (Fin r). apply fold_min_fin.
Qed.

Lemma Math_max_of_fin (r : R) (rs : list R) :
  Math_max_of (map Fin (r :: rs)) = Fin (listMax r rs).
Proof.
  unfold Math_max_of. cbn [map fold_left].
  change (Math_max NInf (Fin r)) with (Fin r). apply fold_max_fin.
Qed.

Lemma listMin_spec (r : R) (rs : list R) :
  In (listMin r rs) (r :: rs) /\ forall v, In v (r :: rs) -> listMin r rs <= v.
Proof.
  unfold listMin. revert r. induction rs as [|a rs IH]; intros r; cbn [fold_left].
  - split; [left; reflexivity|]. intros v [<- | []]. lra.
  - destruct (IH (Rmin r a)) as [Hin Hle]. split.
    + destruct Hin as [E | Hin]; [|right; right; exact Hin].
      rewrite <- E. unfold Rmin. destruct (Rle_dec r a); [left | right; left]; reflexivity.
    + intros v [<- | [<- | Hv]].
      * pose proof (Hle (Rmin r a) (or_introl eq_refl)) as H.
        pose proof (Rmin_l r a). lra.
      * pose proof (Hle (Rmin r a) (or_introl eq_refl)) as H.
        pose proof (Rmin_r r a). lra.
      * apply Hle. right. exact Hv.
Qed.

Lemma listMax_spec (r : R) (rs : list R) :
  In (listMax r rs) (r :: rs) /\ forall v, In v (r :: rs) -> v <= listMax r rs.
Proof.
  unfold listMax. revert r. induction rs as [|a rs IH]; intros r; cbn [fold_left].
  - split; [left; reflexivity|]. intros v [<- | []]. lra.
  - destruct (IH (Rmax r a)) as [Hin Hle]. split.
    + destruct Hin as [E | Hin]; [|right; right; exact Hin].
      rewrite <- E. unfold Rmax. destruct (Rle_dec r a); [right; left | left]; reflexivity.
    + intros v [<- | [<- | Hv]].
      * pose proof (Hle (Rmax r a) (or_introl eq_refl)) as H.
        pose proof (Rmax_l r a). lra.
      * pose proof (Hle (Rmax r a) (or_introl eq_refl)) as H.
        pose proof (Rmax_r r a). lra.
      * apply Hle. right. exact Hv.
Qed.

Lemma min_max_constant (r : R) (rs : list R) :
  listMin r rs = listMax r rs <-> constant (r :: rs).
Proof.
  destruct (listMin_spec r rs) as [Hmi Hml].
  destruct (listMax_spec r rs) as [Hma Hmu].
  split.
  - intros E a b Ha Hb.
    pose proof (Hml a Ha). pose proof (Hmu a Ha).
    pose proof (Hml b Hb). pose proof (Hmu b Hb). lra.
  - intros Hc. apply Hc; assumption.
Qed.

Lemma bump_ok (h : list HistogramBin) (i : nat) :
  (i < List.length h)%nat ->
  exists h', bump h i = Some h' /\
             List.length h' = List.length h /\
             totalCount h' = S (totalCount h) /\
             map range h' = map range h.
Proof.
  revert i. induction h as [|b h IH]; intros i Hi; [cbn in Hi; lia|].
  destruct i as [|i]; cbn [bump].
  - eexists. split; [reflexivity|]. cbn. repeat split; lia.
  - destruct (IH i) as [h' [E [Hl [Ht Hr]]]]; [cbn in Hi; lia|].
    rewrite E. eexists. split; [reflexivity|]. cbn. rewrite Hl, Ht, Hr.
    repeat split; lia.
Qed.

Lemma is_integer_IZR (k : Z) : is_integer (IZR k) = true.
Proof.
  unfold is_integer. apply Reqb_true. f_equal.
  apply Zfloor_eq. lra.
Qed.

Lemma array_index_IZR (k : Z) :
  (0 <= k)%Z -> array_index (Fin (IZR k)) = Some (Z.to_nat k).
Proof.
  intros Hk. unfold array_index. rewrite is_integer_IZR.
  rewrite Rleb_true by (apply IZR_le; exact Hk).
  cbn [andb]. do 2 f_equal. apply Zfloor_eq. lra.
Qed.

(** *** The range of the doubles *)

Lemma pow2_pos (n : nat) : 0 < 2 ^ n.
Proof. apply pow_lt. lra. Qed.

Lemma pow2_le (a b : nat) : (a <= b)%nat -> 2 ^ a <= 2 ^ b.
Proof. intros H. apply Rle_pow; [lra | exact H]. Qed.

Lemma overflow_bound_large : 2 ^ 1023 <= overflow_bound.
Proof.
  unfold overflow_bound.
  assert (E : 2 ^ 1024 = 2 * 2 ^ 1023) by reflexivity.
  assert (H : 2 ^ 970 <= 2 ^ 1023) by (apply pow2_le; apply Nat.leb_le; reflexivity).
  set (a := 2 ^ 1024) in *. set (b := 2 ^ 1023) in *. set (c := 2 ^ 970) in *.
  clearbody a b c. lra.
Qed.

Lemma overflow_bound_above (n : nat) : (n <= 1023)%nat -> 2 ^ n <= overflow_bound.
Proof.
  intros H. apply Rle_trans with (2 ^ 1023);
    [apply pow2_le; exact H | exact overflow_bound_large].
Qed.

Lemma smallest_double_pos : 0 < smallest_double.
Proof. unfold smallest_double. apply Rinv_0_lt_compat. apply pow2_pos. Qed.

Lemma smallest_double_small : smallest_double <= / 1024.
Proof.
  unfold smallest_double.
  assert (H : 2 ^ 10 <= 2 ^ 1074) by (apply pow2_le; apply Nat.leb_le; reflexivity).
  apply Rinv_le_contravar; lra.
Qed.

Lemma underflow_bound_pos : 0 < underflow_bound.
Proof. unfold underflow_bound. pose proof smallest_double_pos. lra. Qed.

Lemma underflow_bound_small : underflow_bound <= / 2048.
Proof. unfold underflow_bound. pose proof smallest_double_small. lra. Qed.

Lemma overflowing_fin (x : R) :
  Rabs x < overflow_bound -> overflowing (Fin x) = Fin x.
Proof. intros H. unfold overflowing. rewrite Rleb_false by exact H. reflexivity. Qed.

Lemma overflowing_big (x : R) :
  overflow_bound <= x -> overflowing (Fin x) = PInf.
Proof.
  intros H. pose proof (overflow_bound_above 0 ltac:(lia)) as H0. simpl in H0.
  unfold overflowing. rewrite Rleb_true by (rewrite Rabs_pos_eq; lra).
  rewrite Rltb_true by lra. reflexivity.
Qed.

Lemma underflowing_zero (x : R) :
  Rabs x <= underflow_bound -> underflowing (Fin x) = Fin 0.
Proof. intros H. unfold underflowing. rewrite Rleb_true by exact H. reflexivity. Qed.

Lemma underflowing_keep (x : R) :
  underflow_bound < Rabs x -> underflowing (Fin x) = Fin x.
Proof. intros H. unfold underflowing. rewrite Rleb_false by exact H. reflexivity. Qed.

(** A quotient or product within range is kept, or is tiny and becomes 0. *)
Lemma underflowing_fin (x : R) :
  exists y, underflowing (Fin x) = Fin y /\
            (y = x \/ (y = 0 /\ Rabs x <= underflow_bound)).
Proof.
  unfold underflowing, Rleb. destruct (Rle_dec (Rabs x) underflow_bound) as [H | H].
  - exists 0. split; [reflexivity | right; split; [reflexivity | exact H]].
  - exists x. split; [reflexivity | left; reflexivity].
Qed.

Lemma valid_array_length_bound (n : nat) :
  valid_array_length n = true -> INR n < overflow_bound.
Proof.
  unfold valid_array_length. intros H. apply Z.ltb_lt in H.
  apply IZR_lt in H. rewrite <- INR_IZR_INZ in H.
  pose proof (overflow_bound_above 32 ltac:(apply Nat.leb_le; reflexivity)) as H32.
  assert (E : IZR 4294967296 = 2 ^ 32) by lra.
  rewrite E in H. lra.
Qed.

(** With a bin size in range, every value between the least and the
    greatest falls into one of the [bins] bins. *)
Lemma binIndexOf_range (m M r : R) (bins : nat) :
  m < M -> m <= r <= M -> (0 < bins)%nat ->
  M - m < overflow_bound -> INR bins < overflow_bound ->
  exists k : Z,
    binIndexOf (Fin m) (Fin ((M - m) / INR bins)) bins (Fin r) = Fin (IZR k) /\
    (0 <= k < Z.of_nat bins)%Z.
Proof.
  intros HmM Hr Hb Hrange Hbins.
  assert (Hn : 0 < INR bins) by (apply lt_0_INR; exact Hb).
  assert (Hs : 0 < (M - m) / INR bins).
  { apply Rmult_lt_0_compat; [lra | apply Rinv_0_lt_compat; exact Hn]. }
  unfold binIndexOf, sub64, div64. cbn [sub neg add].
  rewrite overflowing_fin by (rewrite Rabs_pos_eq; lra).
  cbn [div]. rewrite Reqb_false by lra.
  set (q := (r + - m) / ((M - m) / INR bins)).
  assert (Hq : 0 <= q <= INR bins).
  { unfold q. split.
    - apply Rmult_le_pos; [lra | left; apply Rinv_0_lt_compat; exact Hs].
    - apply (Rmult_le_reg_r ((M - m) / INR bins)); [exact Hs|].
      unfold Rdiv at 1. rewrite Rmult_assoc, Rinv_l by lra.
      replace (INR bins * ((M - m) / INR bins)) with (M - m) by (field; lra).
      lra. }
  rewrite overflowing_fin by (rewrite Rabs_pos_eq; lra).
  destruct (underflowing_fin q) as [q' [Eq Hq']]. rewrite Eq. cbn [Math_floor].
  assert (Hqb : 0 <= q' <= INR bins) by (destruct Hq' as [-> | [-> _]]; lra).
  clear Eq Hq'. clearbody q.
  assert (Hf0 : (0 <= Zfloor q')%Z) by (apply Zfloor_lub; simpl; lra).
  assert (Hfb : (Zfloor q' <= Z.of_nat bins)%Z).
  { apply Zfloor_ub. rewrite <- INR_IZR_INZ. lra. }
  unfold leb. unfold Rleb. destruct (Rle_dec (INR bins) (IZR (Zfloor q'))) as [Hge | Hlt].
  - assert (H1 : 1 <= INR bins) by (apply (le_INR 1); lia).
    cbn [sub neg add]. unfold ltb, leb. rewrite Rleb_true by lra. cbn [negb].
    exists (Z.of_nat bins - 1)%Z. split.
    + f_equal. rewrite minus_IZR, <- INR_IZR_INZ. lra.
    + lia.
  - unfold ltb, leb. rewrite Rleb_true by (apply IZR_le in Hf0; lra). cbn [negb].
    exists (Zfloor q'). split; [reflexivity|].
    split; [exact Hf0|].
    apply lt_IZR. rewrite <- INR_IZR_INZ. lra.
Qed.

Lemma fillBins_counts (m M : R) (bins : nat) (rs : list R) (h : list HistogramBin) :
  m < M -> (0 < bins)%nat ->
  M - m < overflow_bound -> INR bins < overflow_bound ->
  List.length h = bins ->
  (forall r, In r rs -> m <= r <= M) ->
  exists h',
    fillBins (Fin m) (Fin ((M - m) / INR bins)) bins (map Fin rs) h = Ok h' /\
    List.length h' = bins /\
    totalCount h' = (totalCount h + List.length rs)%nat /\
    map range h' = map range h.
Proof.
  intros HmM Hb Hrange Hbins. revert h. induction rs as [|r rs IH]; intros h Hl Hin.
  - exists h. cbn. repeat split; [exact Hl | lia].
  - cbn [map fillBins].
    destruct (binIndexOf_range m M r bins HmM (Hin r (or_introl eq_refl)) Hb
                Hrange Hbins) as [k [Ek Hk]].
    rewrite Ek. unfold bumpAt. rewrite array_index_IZR by lia.
    destruct (bump_ok h (Z.to_nat k)) as [h1 [E1 [Hl1 [Ht1 Hr1]]]]; [lia|].
    rewrite E1. cbn [bind].
    destruct (IH h1) as [h' [E' [Hl' [Ht' Hr']]]].
    + lia.
    + intros v Hv. apply Hin. right. exact Hv.
    + exists h'. split; [exact E'|]. split; [exact Hl'|].
      split; [rewrite Ht', Ht1; cbn; lia | congruence].
Qed.

Lemma bumpAt_empty (idx : jsnum) : exists e, bumpAt [] idx = Throw e.
Proof.
  unfold bumpAt. destruct (array_index idx) as [i|]; [|eauto].
  destruct i; cbn; eauto.
Qed.

(** One value whose bin index is no array index makes the loop throw,
    whatever the bins hold when it is reached. *)
Lemma fillBins_throws (min binSize : jsnum) (bins : nat) (values : list jsnum)
    (v : jsnum) :
  In v values ->
  array_index (binIndexOf min binSize bins v) = None ->
  forall h, exists e, fillBins min binSize bins values h = Throw e.
Proof.
  intros Hin Hn. induction values as [|a values IH]; intros h; [destruct Hin|].
  cbn [fillBins]. destruct Hin as [-> | Hin].
  - unfold bumpAt. rewrite Hn. cbn [bind]. eauto.
  - destruct (bumpAt h (binIndexOf min binSize bins a)) as [h' | e]; cbn [bind].
    + apply IH. exact Hin.
    + eauto.
Qed.

(** A spread of [overflow_bound] or more: the range and the bin size are
    [Infinity], and the greatest value has the bin index [NaN]. *)
Lemma binIndexOf_overflow (m M : R) (bins : nat) :
  overflow_bound <= M - m ->
  div64 (sub64 (Fin M) (Fin m)) (Fin (INR bins)) = PInf /\
  array_index (binIndexOf (Fin m) PInf bins (Fin M)) = None.
Proof.
  intros H.
  assert (E : sub64 (Fin M) (Fin m) = PInf).
  { unfold sub64. cbn [sub neg add]. apply overflowing_big. lra. }
  split.
  - rewrite E. unfold div64. cbn [div].
    rewrite Rleb_true by apply pos_INR. reflexivity.
  - unfold binIndexOf. rewrite E. reflexivity.
Qed.

(** A bin size of [underflow_bound] or less becomes 0, and the least value
    has the bin index [NaN]. *)
Lemma binIndexOf_underflow (m M : R) (bins : nat) :
  m < M -> M - m < overflow_bound -> (M - m) / INR bins <= underflow_bound ->
  (0 < bins)%nat ->
  div64 (sub64 (Fin M) (Fin m)) (Fin (INR bins)) = Fin 0 /\
  array_index (binIndexOf (Fin m) (Fin 0) bins (Fin m)) = None.
Proof.
  intros HmM Hrange Hsmall Hb.
  assert (Hn : 0 < INR bins) by (apply lt_0_INR; exact Hb).
  assert (Hs : 0 < (M - m) / INR bins).
  { apply Rmult_lt_0_compat; [lra | apply Rinv_0_lt_compat; exact Hn]. }
  assert (H1 : 1 <= INR bins) by (apply (le_INR 1); lia).
  pose proof underflow_bound_small as Hu.
  pose proof (overflow_bound_above 0 ltac:(lia)) as H0. simpl in H0.
  split.
  - unfold sub64, div64. cbn [sub neg add].
    rewrite overflowing_fin by (rewrite Rabs_pos_eq; lra).
    cbn [div]. rewrite Reqb_false by lra.
    replace ((M + - m) / INR bins) with ((M - m) / INR bins)
      by (unfold Rminus; reflexivity).
    rewrite overflowing_fin by (rewrite Rabs_pos_eq; lra).
    apply underflowing_zero. rewrite Rabs_pos_eq; lra.
  - unfold binIndexOf, sub64, div64. cbn [sub neg add].
    rewrite overflowing_fin
      by (replace (m + - m) with 0 by lra; rewrite Rabs_R0; lra).
    cbn [div]. rewrite Reqb_true by reflexivity.
    rewrite Reqb_true by lra. reflexivity.
Qed.

Lemma totalCount_fresh {A : Type} (f : A -> string) (l : list A) :
  totalCount (map (fun i => {| range := f i; count := 0 |}) l) = 0%nat.
Proof. induction l as [|a l IH]; cbn; [reflexivity | exact IH]. Qed.

Section HistogramFacts.

Variable number_to_string : jsnum -> string.
Variable toFixed_string : nat -> jsnum -> string.

Let histogramOf := calculateHistogram number_to_string toFixed_string.

(** X2. On a column whose numeric cells are the finite numbers [rs],
    [calculateHistogram] returns no bin when there is no numeric cell and one
    bin holding every value when they are all equal.  Otherwise, with
    [0 < bins < 2^32], a spread (greatest minus least) below
    [overflow_bound] and a bin size [spread / bins] above [underflow_bound],
    it returns [bins] bins whose counts add up to the number of numeric
    cells.  Otherwise it throws: with [bins = 0], with [bins >= 2^32], when
    the spread reaches [overflow_bound] (the range is [Infinity] and the bin
    index of the greatest value is [NaN]), and when the bin size is
    [underflow_bound] or less (it is 0 and the bin index of the least value
    is [NaN]). *)
Theorem calculateHistogram_counts
    (dataset : Dataset) (columnName : string) (bins : nat) (rs : list R) :
  numbersOf (map (fun r => get r columnName) (rows dataset)) = map Fin rs ->
  (rs = [] -> histogramOf dataset columnName bins = Ok []) /\
  (rs <> [] -> constant rs ->
   exists m, In m rs /\
     histogramOf dataset columnName bins
     = Ok [ {| range := number_to_string (Fin m); count := List.length rs |} ]) /\
  (~ constant rs -> (0 < bins)%nat -> (Z.of_nat bins < 4294967296)%Z ->
   spread rs < overflow_bound -> underflow_bound < spread rs / INR bins ->
   exists h, histogramOf dataset columnName bins = Ok h /\
             List.length h = bins /\ totalCount h = List.length rs) /\
  (~ constant rs -> bins = 0%nat ->
   exists e, histogramOf dataset columnName bins = Throw e) /\
  (~ constant rs -> (4294967296 <= Z.of_nat bins)%Z ->
   exists e, histogramOf dataset columnName bins = Throw e) /\
  (~ constant rs -> overflow_bound <= spread rs ->
   exists e, histogramOf dataset columnName bins = Throw e) /\
  (~ constant rs -> (0 < bins)%nat -> spread rs / INR bins <= underflow_bound ->
   exists e, histogramOf dataset columnName bins = Throw e).
Proof.
  intros Hv. unfold histogramOf, calculateHistogram. rewrite Hv.
  rewrite length_map.
  destruct rs as [|r rs].
  { split; [reflexivity|]. split; [congruence|].
    repeat split; intros Hc; exfalso; apply Hc; intros a b []. }
  cbn [List.length Nat.eqb spread].
  rewrite Math_min_of_fin, Math_max_of_fin.
  destruct (listMin_spec r rs) as [Hmi Hml].
  destruct (listMax_spec r rs) as [Hma Hmu].
  cbn [num_equals jsnum_same].
  split; [discriminate|]. split.
  { intros _ Hc. apply min_max_constant in Hc.
    rewrite (Reqb_true _ _ Hc). exists (listMin r rs). split; [exact Hmi | reflexivity]. }
  assert (Hsplit : ~ constant (r :: rs) ->
            Reqb (listMin r rs) (listMax r rs) = false /\ listMin r rs < listMax r rs).
  { intros Hc.
    assert (Hne : listMin r rs <> listMax r rs).
    { intros E. apply Hc. apply min_max_constant. exact E. }
    split; [apply Reqb_false; exact Hne|].
    pose proof (Hml _ Hma). lra. }
  assert (Hover : ~ constant (r :: rs) -> overflow_bound <= listMax r rs - listMin r rs ->
            exists e,
              (if Reqb (listMin r rs) (listMax r rs)
               then Ok [ {| range := number_to_string (Fin (listMin r rs));
                            count := S (List.length rs) |} ]
               else
                 if negb (valid_array_length bins)
                 then Throw "RangeError: Invalid array length"
                 else
                   fillBins (Fin (listMin r rs))
                     (div64 (sub64 (Fin (listMax r rs)) (Fin (listMin r rs)))
                        (Fin (INR bins)))
                     bins (map Fin (r :: rs))
                     (map (fun i =>
                             {| range :=
                                  toFixed_string 1
                                    (add64 (Fin (listMin r rs))
                                       (mul64 (Fin (INR i))
                                          (div64 (sub64 (Fin (listMax r rs))
                                                    (Fin (listMin r rs)))
                                             (Fin (INR bins)))))
                                  ++ " - "
                                  ++ toFixed_string 1
                                       (add64 (Fin (listMin r rs))
                                          (mul64 (add (Fin (INR i)) (Fin 1))
                                             (div64 (sub64 (Fin (listMax r rs))
                                                       (Fin (listMin r rs)))
                                                (Fin (INR bins)))));
                                count := 0 |})
                        (seq 0 bins))) = Throw e).
  { intros Hc Hbig. destruct (Hsplit Hc) as [-> Hlt].
    destruct (valid_array_length bins); cbn [negb]; [|eauto].
    destruct (binIndexOf_overflow (listMin r rs) (listMax r rs) bins Hbig) as [E Hn].
    rewrite E.
    apply (fillBins_throws _ _ _ _ (Fin (listMax r rs))); [|exact Hn].
    apply in_map. exact Hma. }
  split; [|split; [|split; [|split]]].
  - intros Hc Hb Hlen Hrange Hsize. destruct (Hsplit Hc) as [-> Hlt].
    assert (Hvalid : valid_array_length bins = true)
      by (unfold valid_array_length; apply Z.ltb_lt; exact Hlen).
    rewrite Hvalid. cbn [negb].
    assert (Hn : 0 < INR bins) by (apply lt_0_INR; exact Hb).
    assert (H1 : 1 <= INR bins) by (apply (le_INR 1); lia).
    pose proof underflow_bound_pos as Hu.
    assert (Hsz : (listMax r rs - listMin r rs) / INR bins
                  <= listMax r rs - listMin r rs).
    { apply (Rmult_le_reg_r (INR bins)); [exact Hn|].
      unfold Rdiv. rewrite Rmult_assoc, Rinv_l by lra. nra. }
    assert (Ebin : div64 (sub64 (Fin (listMax r rs)) (Fin (listMin r rs)))
                     (Fin (INR bins))
                   = Fin ((listMax r rs - listMin r rs) / INR bins)).
    { unfold sub64, div64. cbn [sub neg add].
      rewrite overflowing_fin by (rewrite Rabs_pos_eq; lra).
      cbn [div]. rewrite Reqb_false by lra.
      replace ((listMax r rs + - listMin r rs) / INR bins)
        with ((listMax r rs - listMin r rs) / INR bins) by (unfold Rminus; reflexivity).
      rewrite overflowing_fin by (rewrite Rabs_pos_eq; lra).
      apply underflowing_keep. rewrite Rabs_pos_eq; lra. }
    rewrite Ebin.
    match goal with
    | |- context [fillBins _ _ _ _ ?h0] =>
        destruct (fillBins_counts (listMin r rs) (listMax r rs) bins (r :: rs) h0 Hlt Hb
                    Hrange (valid_array_length_bound bins Hvalid))
          as [h' [E [Hl [Ht _]]]]
    end.
    + rewrite length_map, length_seq. reflexivity.
    + intros v Hin. split; [apply Hml | apply Hmu]; exact Hin.
    + exists h'. split; [exact E|]. split; [exact Hl|].
      rewrite Ht, totalCount_fresh. reflexivity.
  - intros Hc ->. destruct (Hsplit Hc) as [-> Hlt].
    cbn [valid_array_length Z.of_nat Z.ltb Z.compare negb].
    cbn [seq map fillBins].
    match goal with
    | |- context [bumpAt [] ?idx] => destruct (bumpAt_empty idx) as [e He]
    end.
    rewrite He. exists e. reflexivity.
  - intros Hc Hlen. destruct (Hsplit Hc) as [-> Hlt].
    assert (Hvalid : valid_array_length bins = false)
      by (unfold valid_array_length; apply Z.ltb_ge; exact Hlen).
    rewrite Hvalid. cbn [negb]. eauto.
  - exact Hover.
  - intros Hc Hb Hsize.
    destruct (Rle_lt_dec overflow_bound (listMax r rs - listMin r rs)) as [Hbig | Hrange];
      [exact (Hover Hc Hbig)|].
    destruct (Hsplit Hc) as [-> Hlt].
    destruct (valid_array_length bins); cbn [negb]; [|eauto].
    destruct (binIndexOf_underflow (listMin r rs) (listMax r rs) bins Hlt Hrange Hsize Hb)
      as [E Hn].
    rewrite E.
    apply (fillBins_throws _ _ _ _ (Fin (listMin r rs))); [|exact Hn].
    apply in_map. exact Hmi.
Qed.

End HistogramFacts.

(** ** Column statistics *)

Lemma round_dec_error (d : nat) (x : R) :
  Rabs (round_dec d x - x) <= / 2 / 10 ^ d.
Proof.
  pose proof (pow10_pos d) as Hp.
  assert (Hpos : forall u, 0 <= u ->
            Rabs (IZR (Zfloor (u * 10 ^ d + / 2)) / 10 ^ d - u) <= / 2 / 10 ^ d).
  { intros u Hu.
    pose proof (Zfloor_bound (u * 10 ^ d + / 2)) as [H1 H2].
    set (F := IZR (Zfloor (u * 10 ^ d + / 2))) in *.
    replace (F / 10 ^ d - u) with ((F - u * 10 ^ d) / 10 ^ d) by (field; lra).
    unfold Rdiv. rewrite Rabs_mult, (Rabs_pos_eq (/ 10 ^ d))
      by (left; apply Rinv_0_lt_compat; exact Hp).
    apply Rmult_le_compat_r; [left; apply Rinv_0_lt_compat; exact Hp|].
    apply Rabs_le. lra. }
  unfold round_dec, Rltb. destruct (Rlt_dec x 0) as [Hneg | Hnn].
  - rewrite (Rabs_left x Hneg).
    specialize (Hpos (- x)). rewrite <- Rabs_Ropp.
    replace (- (- (IZR (Zfloor (- x * 10 ^ d + / 2)) / 10 ^ d) - x))
      with (IZR (Zfloor (- x * 10 ^ d + / 2)) / 10 ^ d - - x) by lra.
    apply Hpos. lra.
  - rewrite (Rabs_pos_eq x) by lra. apply Hpos. lra.
Qed.

Lemma round_dec_sign (d : nat) (x : R) : 0 <= x -> 0 <= round_dec d x.
Proof.
  intros Hx. pose proof (pow10_pos d) as Hp.
  rewrite round_dec_nonneg by exact Hx.
  apply Rmult_le_pos; [|left; apply Rinv_0_lt_compat; exact Hp].
  apply IZR_le. apply Zfloor_lub. simpl.
  assert (0 <= x * 10 ^ d) by (apply Rmult_le_pos; lra). lra.
Qed.

(** [toFixed] of a real is a real, within half a unit of the last decimal. *)
Lemma toFixed_fin (d : nat) (x : R) :
  exists y, toFixed d (Fin x) = Fin y /\
            Rabs (y - x) <= / 2 / 10 ^ d /\ (0 <= x -> 0 <= y).
Proof.
  pose proof (pow10_pos d) as Hp.
  unfold toFixed. destruct (Rleb (10 ^ 21) (Rabs x)).
  - exists x. split; [reflexivity|]. split; [|auto].
    replace (x - x) with 0 by lra. rewrite Rabs_R0.
    apply Rmult_le_pos; [lra | left; apply Rinv_0_lt_compat; exact Hp].
  - exists (round_dec d x). split; [reflexivity|].
    split; [apply round_dec_error | apply round_dec_sign].
Qed.

Lemma Math_pow_square (x : R) : Math_pow (Fin x) (Fin 2) = Fin (x * x).
Proof.
  assert (Hp : forall u, 0 < u -> Rpower u 2 = u * u).
  { intros u Hu. replace 2 with (INR 2) by (simpl; lra).
    rewrite Rpower_pow by exact Hu. simpl. lra. }
  unfold Math_pow. rewrite Reqb_false by lra.
  unfold Reqb. destruct (Req_dec_T x 0) as [-> | Hx].
  - rewrite Rltb_true by lra. f_equal. lra.
  - unfold Rltb. destruct (Rlt_dec 0 x) as [Hpos | Hneg].
    + f_equal. apply Hp. exact Hpos.
    + assert (E2 : Zfloor 2 = 2%Z) by (apply Zfloor_eq; lra).
      unfold is_integer. rewrite E2, Reqb_true by reflexivity.
      cbn [Z.odd]. f_equal. rewrite Hp by lra. lra.
Qed.

Lemma pow2_lt_overflow (n : nat) : (n < 1023)%nat -> 2 ^ n < overflow_bound.
Proof.
  intros H. apply Rlt_le_trans with (2 ^ S n).
  - pose proof (pow2_pos n). cbn [pow]. lra.
  - apply overflow_bound_above. lia.
Qed.

Lemma plus64_nums (n2s : jsnum -> string) (s2n : string -> jsnum) (a b : R) :
  Rabs (a + b) < overflow_bound ->
  plus64 n2s s2n (num a) (num b) = num (a + b).
Proof.
  intros H. unfold plus64.
  change (js_plus n2s s2n (num a) (num b)) with (num (a + b)).
  unfold num. rewrite overflowing_fin by exact H. reflexivity.
Qed.

(** The sum of the cells stays in range while the magnitudes add up to less
    than [overflow_bound]. *)
Lemma reduce_plus64_nums (n2s : jsnum -> string) (s2n : string -> jsnum)
    (c : R) (l : list R) (i : nat) (a : R) :
  (forall v, In v l -> Rabs v <= c) ->
  Rabs a + c * INR (List.length l) < overflow_bound ->
  reduce_from (fun u v (_ : nat) => plus64 n2s s2n u v) (nums l) i (num a)
  = num (a + sum l).
Proof.
  revert i a. induction l as [|b l IH]; intros i a Hc Hb.
  - cbn. unfold num. do 2 f_equal. lra.
  - change (nums (b :: l)) with (num b :: nums l). cbn [reduce_from].
    assert (Hbc : Rabs b <= c) by (apply Hc; left; reflexivity).
    assert (Hl : 0 <= c * INR (List.length l)).
    { apply Rmult_le_pos; [pose proof (Rabs_pos b); lra | apply pos_INR]. }
    cbn [List.length] in Hb. rewrite S_INR in Hb.
    pose proof (Rabs_triang a b) as Ht.
    rewrite plus64_nums by lra.
    rewrite IH.
    + unfold num. do 2 f_equal. cbn [sum]. lra.
    + intros v Hv. apply Hc. right. exact Hv.
    + lra.
Qed.

Lemma mean_between (lo hi : R) (l : list R) :
  l <> [] -> (forall v, In v l -> lo <= v <= hi) ->
  lo <= sum l / INR (List.length l) <= hi.
Proof.
  intros Hne Hb.
  assert (H : lo * INR (List.length l) <= sum l <= hi * INR (List.length l)).
  { clear Hne. induction l as [|a l IH]; [cbn; lra|].
    cbn [List.length sum]. rewrite S_INR.
    pose proof (Hb a (or_introl eq_refl)).
    assert (lo * INR (List.length l) <= sum l <= hi * INR (List.length l))
      by (apply IH; intros v Hv; apply Hb; right; exact Hv).
    lra. }
  assert (Hn : 0 < INR (List.length l)).
  { apply lt_0_INR. destruct l; [congruence | cbn; lia]. }
  split.
  - apply (Rmult_le_reg_r (INR (List.length l))); [exact Hn|].
    unfold Rdiv. rewrite Rmult_assoc, Rinv_l by lra. lra.
  - apply (Rmult_le_reg_r (INR (List.length l))); [exact Hn|].
    unfold Rdiv. rewrite Rmult_assoc, Rinv_l by lra. lra.
Qed.

Lemma square_bound (x B : R) : Rabs x <= B -> 0 <= x * x <= B * B.
Proof.
  intros H. pose proof (Rabs_pos x) as Hp.
  assert (E : x * x = Rabs x * Rabs x).
  { unfold Rabs. destruct (Rcase_abs x); lra. }
  rewrite E. split; [apply Rmult_le_pos; exact Hp|].
  apply Rmult_le_compat; assumption.
Qed.

(** The sum of the squared deviations stays in range, and is not negative. *)
Lemma reduce_squares_about (parse : string -> jsnum)
    (mean B : R) (vs : list R) (i : nat) (a : R) :
  (forall v, In v vs -> Rabs (v + - mean) <= B) ->
  B < overflow_bound ->
  0 <= a -> a + B * B * INR (List.length vs) < overflow_bound ->
  exists v,
    reduce_from
      (fun acc b (_ : nat) =>
         add64 acc (pow64 (sub64 (ToNumber parse b) (Fin mean)) (Fin 2)))
      (nums vs) i (Fin a) = Fin v /\
    0 <= v <= a + B * B * INR (List.length vs).
Proof.
  intros Hdev HB. revert i a. induction vs as [|b vs IH]; intros i a Ha Hsum.
  - exists a. split; [reflexivity|]. cbn [List.length INR]. lra.
  - change (nums (b :: vs)) with (num b :: nums vs). cbn [reduce_from].
    cbn [ToNumber num].
    change (sub64 (Fin b) (Fin mean)) with (overflowing (Fin (b + - mean))).
    assert (Hb : Rabs (b + - mean) <= B) by (apply Hdev; left; reflexivity).
    rewrite overflowing_fin by lra.
    unfold pow64. rewrite Math_pow_square.
    destruct (square_bound _ _ Hb) as [Hs0 Hs1].
    cbn [List.length] in Hsum. rewrite S_INR in Hsum.
    assert (Hl : 0 <= B * B * INR (List.length vs)).
    { apply Rmult_le_pos; [lra | apply pos_INR]. }
    rewrite overflowing_fin by (rewrite Rabs_pos_eq; lra).
    destruct (underflowing_fin ((b + - mean) * (b + - mean))) as [y [Ey Hy]].
    rewrite Ey.
    assert (Hy' : 0 <= y <= B * B) by (destruct Hy as [-> | [-> _]]; lra).
    unfold add64. cbn [add].
    rewrite overflowing_fin by (rewrite Rabs_pos_eq; lra).
    destruct (IH ltac:(intros v Hv; apply Hdev; right; exact Hv) (S i) (a + y))
      as [v [Ev Hv]]; [lra | lra |].
    exists v. split; [exact Ev|]. cbn [List.length]. rewrite S_INR. lra.
Qed.

Lemma map_ToNumber_nums (parse : string -> jsnum) (vs : list R) :
  map (ToNumber parse) (nums vs) = map Fin vs.
Proof. unfold nums. rewrite map_map. reflexivity. Qed.

Lemma Permutation_nums (l : list value) (vs : list R) :
  Permutation l (nums vs) -> exists vs', l = nums vs' /\ Permutation vs' vs.
Proof.
  intros H. unfold nums in H. apply Permutation_map_inv in H.
  destruct H as [vs' [E P]]. exists vs'. split; [exact E | symmetry; exact P].
Qed.

Lemma at_index_nums (vs : list R) (i : nat) :
  (i < List.length vs)%nat -> at_index (nums vs) i = num (nth i vs 0).
Proof.
  intros H. unfold at_index, nums.
  rewrite (nth_indep _ VUndef (num 0)) by (rewrite length_map; exact H).
  apply (map_nth num).
Qed.

(** The halved sum of two cells lies between them, also when it is tiny and
    becomes 0: the two cells then have opposite signs, or one is 0. *)
Lemma halved_sum_between (a b lo hi P : R) :
  lo <= a <= hi -> lo <= b <= hi ->
  Rabs a <= P -> Rabs b <= P -> P + P < overflow_bound ->
  (a = 0 \/ smallest_double <= Rabs a) ->
  (b = 0 \/ smallest_double <= Rabs b) ->
  exists median, div64 (Fin (a + b)) (Fin 2) = Fin median /\ lo <= median <= hi.
Proof.
  intros Ha Hb HPa HPb HP Hsa Hsb.
  pose proof (Rabs_triang a b) as Ht.
  assert (Hh : Rabs ((a + b) / 2) <= Rabs (a + b)).
  { unfold Rdiv. rewrite Rabs_mult, (Rabs_pos_eq (/ 2)) by lra.
    pose proof (Rabs_pos (a + b)). lra. }
  unfold div64. cbn [div]. rewrite Reqb_false by lra.
  rewrite overflowing_fin by lra.
  destruct (underflowing_fin ((a + b) / 2)) as [y [Ey [-> | [-> Hy]]]]; rewrite Ey.
  - exists ((a + b) / 2). split; [reflexivity | lra].
  - exists 0. split; [reflexivity|].
    pose proof smallest_double_pos as Hsd. unfold underflow_bound in Hy.
    unfold Rabs in Hy, Hsa, Hsb.
    destruct (Rcase_abs ((a + b) / 2)), (Rcase_abs a), (Rcase_abs b);
      destruct Hsa as [Hsa | Hsa], Hsb as [Hsb | Hsb]; lra.
Qed.

Section StatsFacts.

Variable number_to_string : jsnum -> string.
Variable string_to_number : string -> jsnum.

Let statsOf := calculateColumnStats number_to_string string_to_number.

(** X3. For a column declared [number] whose present cells are the finite
    numbers [r :: rs], at most [2^32] of them, each of a magnitude that
    multiplied by their number stays within [2^40], and each 0 or of the
    magnitude of a double, [calculateColumnStats] reports the least and the
    greatest of them, a median between the two, a mean within 0.01 of
    their arithmetic mean, a non-negative standard deviation, and the
    missing and unique counts of the column descriptor. *)
Theorem calculateColumnStats_numeric
    (dataset : Dataset) (columnName : string) (col : DatasetColumn)
    (r : R) (rs : list R) :
  find (fun c => String.eqb (name c) columnName) (columns dataset) = Some col ->
  type col = TNumber ->
  filter is_present (map (fun row => get row columnName) (rows dataset))
  = nums (r :: rs) ->
  INR (List.length (r :: rs)) <= 2 ^ 32 ->
  (forall v, In v (r :: rs) -> Rabs v * INR (List.length (r :: rs)) <= 2 ^ 40) ->
  (forall v, In v (r :: rs) -> v = 0 \/ smallest_double <= Rabs v) ->
  exists mean median std,
    statsOf dataset columnName
    = {| stat_mean := Some (Fin mean);
         stat_median := Some (num median);
         stat_std := Some (Fin std);
         stat_min := Some (Fin (listMin r rs));
         stat_max := Some (Fin (listMax r rs));
         missing := missingCount col;
         unique := uniqueCount col;
         stat_type := TNumber |} /\
    In (listMin r rs) (r :: rs) /\ In (listMax r rs) (r :: rs) /\
    (forall v, In v (r :: rs) -> listMin r rs <= v <= listMax r rs) /\
    listMin r rs <= median <= listMax r rs /\
    Rabs (mean - sum (r :: rs) / INR (List.length (r :: rs))) <= 0.01 /\
    0 <= std.
Proof.
  intros Hfind Htype Hvals Hcount Hmag Hsmall.
  unfold statsOf, calculateColumnStats. rewrite Hfind, Htype, Hvals.
  set (vs := r :: rs) in *.
  assert (Hlen : List.length (nums vs) = S (List.length rs))
    by (unfold nums, vs; rewrite length_map; reflexivity).
  rewrite Hlen. cbn [ColumnType_eqb Nat.ltb Nat.leb andb].
  destruct (listMin_spec r rs) as [Hmi Hml].
  destruct (listMax_spec r rs) as [Hma Hmu].
  change (List.length vs) with (S (List.length rs)) in Hcount, Hmag.
  set (n := INR (S (List.length rs))) in *.
  assert (Hn : 1 <= n) by (apply (le_INR 1); lia).
  (* the powers of two that bound the intermediate results *)
  set (P := 2 ^ 40) in *. set (B := 2 ^ 42).
  assert (HP : 1 <= P) by (change 1 with (2 ^ 0); apply pow2_le; lia).
  assert (HB : B = 4 * P) by (unfold B, P; lra).
  assert (HBB : B * B = 2 ^ 84).
  { unfold B. rewrite <- pow_add. reflexivity. }
  assert (H116 : B * B * 2 ^ 32 < overflow_bound).
  { rewrite HBB, <- pow_add. apply pow2_lt_overflow.
    apply Nat.ltb_lt. reflexivity. }
  assert (H72 : P * 2 ^ 32 < overflow_bound).
  { unfold P. rewrite <- pow_add. apply pow2_lt_overflow.
    apply Nat.ltb_lt. reflexivity. }
  assert (HBo : B < overflow_bound)
    by (apply pow2_lt_overflow; apply Nat.ltb_lt; reflexivity).
  assert (H32 : 1 <= 2 ^ 32) by (change 1 with (2 ^ 0); apply pow2_le; lia).
  clearbody P B.
  assert (Habs : forall v, In v vs -> Rabs v <= P).
  { intros v Hv. specialize (Hmag v Hv). pose proof (Rabs_pos v). nra. }
  assert (Hin : forall v, In v vs -> - P <= v <= P).
  { intros v Hv. specialize (Habs v Hv).
    pose proof (Rle_abs v). pose proof (Rle_abs (- v)) as H'.
    rewrite Rabs_Ropp in H'. lra. }
  (* mean *)
  unfold reduce.
  rewrite !(reduce_plus64_nums number_to_string string_to_number P vs 0 0 Habs)
    by (rewrite Rabs_R0; change (INR (List.length vs)) with n; nra).
  cbn [ToNumber num]. rewrite Rplus_0_l.
  destruct (mean_between (- P) P vs ltac:(discriminate) Hin) as [Hm1 Hm2].
  change (INR (List.length vs)) with n in Hm1, Hm2.
  assert (Ediv : div64 (Fin (sum vs)) (Fin n) = underflowing (Fin (sum vs / n))).
  { unfold div64. cbn [div]. rewrite Reqb_false by lra.
    rewrite overflowing_fin by (apply Rabs_def1; nra). reflexivity. }
  rewrite !Ediv.
  destruct (underflowing_fin (sum vs / n)) as [m0 [Em0 Hm0]]. rewrite Em0.
  destruct (toFixed_fin 2 m0) as [mean [Emean [Herr _]]].
  rewrite Emean.
  replace (/ 2 / 10 ^ 2) with 0.005 in Herr by (simpl; lra).
  pose proof underflow_bound_small as Hub.
  assert (Hmean : Rabs (mean - sum vs / n) <= 0.01).
  { destruct Hm0 as [-> | [-> Hz]].
    - lra.
    - rewrite Rminus_0_r in Herr. apply Rabs_le.
      pose proof (Rle_abs mean). pose proof (Rle_abs (- mean)) as H1.
      rewrite Rabs_Ropp in H1.
      pose proof (Rle_abs (sum vs / n)). pose proof (Rle_abs (- (sum vs / n))) as H2.
      rewrite Rabs_Ropp in H2. lra. }
  assert (HmeanP : - (P + 1) <= mean <= P + 1).
  { pose proof (Rle_abs (mean - sum vs / n)).
    pose proof (Rle_abs (- (mean - sum vs / n))) as H1.
    rewrite Rabs_Ropp in H1. lra. }
  (* sorted *)
  destruct (Permutation_nums _ vs
              (sort_perm (ascending string_to_number) (nums vs)))
    as [vs' [Esort Hperm]].
  rewrite Esort.
  assert (Hlen' : List.length (nums vs') = S (List.length rs)).
  { rewrite <- Esort. rewrite (Permutation_length (sort_perm _ _)). exact Hlen. }
  rewrite Hlen'.
  assert (Hl' : List.length vs' = S (List.length rs))
    by (unfold nums in Hlen'; rewrite length_map in Hlen'; exact Hlen').
  assert (Hnth : forall i, (i < S (List.length rs))%nat -> In (nth i vs' 0) vs).
  { intros i Hi. eapply Permutation_in; [exact Hperm|]. apply nth_In. lia. }
  assert (Hin' : forall i, (i < S (List.length rs))%nat ->
            listMin r rs <= nth i vs' 0 <= listMax r rs).
  { intros i Hi. split; [apply Hml | apply Hmu]; apply Hnth; exact Hi. }
  set (mid := Nat.div (S (List.length rs)) 2).
  assert (Hmid : (mid < S (List.length rs))%nat)
    by (apply Nat.div_lt; lia).
  (* variance and std *)
  destruct (reduce_squares_about string_to_number mean B vs 0 0) as [sq [Esq Hsq]].
  { intros v Hv. specialize (Hin v Hv). apply Rabs_le. lra. }
  { exact HBo. }
  { lra. }
  { change (INR (List.length vs)) with n.
    assert (0 <= B * B) by nra. nra. }
  rewrite Esq. change (INR (List.length vs)) with n in Hsq.
  assert (Hvar : 0 <= sq / n <= sq).
  { split.
    - apply Rmult_le_pos; [lra | left; apply Rinv_0_lt_compat; lra].
    - apply (Rmult_le_reg_r n); [lra|].
      unfold Rdiv. rewrite Rmult_assoc, Rinv_l by lra. nra. }
  assert (HsqB : sq < overflow_bound).
  { assert (0 <= B * B) by nra. nra. }
  assert (Evd : div64 (Fin sq) (Fin n) = underflowing (Fin (sq / n))).
  { unfold div64. cbn [div]. rewrite Reqb_false by lra.
    rewrite overflowing_fin by (rewrite Rabs_pos_eq; lra). reflexivity. }
  rewrite Evd.
  destruct (underflowing_fin (sq / n)) as [var [Evar Hvar']]. rewrite Evar.
  assert (Hvar0 : 0 <= var) by (destruct Hvar' as [-> | [-> _]]; lra).
  unfold Math_sqrt. rewrite Rltb_false by exact Hvar0.
  destruct (toFixed_fin 2 (sqrt var)) as [std [Estd [_ Hstd]]].
  rewrite Estd.
  rewrite map_ToNumber_nums.
  change (map Fin vs) with (map Fin (r :: rs)).
  rewrite Math_min_of_fin, Math_max_of_fin.
  (* median *)
  assert (Hmed : exists median,
            (if negb (S (List.length rs) mod 2 =? 0)%nat
             then at_index (nums vs') mid
             else VNum (div64 (ToNumber string_to_number
                               (plus64 number_to_string string_to_number
                                  (at_index (nums vs') (mid - 1))
                                  (at_index (nums vs') mid)))
                            (Fin 2)))
            = num median /\ listMin r rs <= median <= listMax r rs).
  { destruct (negb (S (List.length rs) mod 2 =? 0)%nat).
    - exists (nth mid vs' 0). split; [apply at_index_nums; lia | apply Hin'; exact Hmid].
    - rewrite !at_index_nums by lia.
      assert (Hm1' : (mid - 1 < S (List.length rs))%nat) by lia.
      pose proof (Habs _ (Hnth _ Hm1')) as Ha1. pose proof (Habs _ (Hnth _ Hmid)) as Ha2.
      pose proof (Rabs_triang (nth (mid - 1) vs' 0) (nth mid vs' 0)) as Ht.
      rewrite plus64_nums by lra. cbn [ToNumber num].
      destruct (halved_sum_between (nth (mid - 1) vs' 0) (nth mid vs' 0)
                  (listMin r rs) (listMax r rs) P)
        as [median [Emed Hmedb]].
      + apply Hin'. exact Hm1'.
      + apply Hin'. exact Hmid.
      + exact Ha1.
      + exact Ha2.
      + lra.
      + apply Hsmall. apply Hnth. exact Hm1'.
      + apply Hsmall. apply Hnth. exact Hmid.
      + exists median. rewrite Emed. split; [reflexivity | exact Hmedb]. }
  destruct Hmed as [median [Emed Hmedb]].
  rewrite Emed.
  exists mean, median, std.
  split; [reflexivity|].
  split; [exact Hmi|]. split; [exact Hma|].
  split; [intros v Hv; split; [apply Hml | apply Hmu]; exact Hv|].
  split; [exact Hmedb|].
  split; [exact Hmean|].
  apply Hstd. apply sqrt_pos.
Qed.

End StatsFacts.

(** ** Correlation of two arrays of numbers, and the correlation matrix *)

Lemma mul_comm (a b : jsnum) : mul a b = mul b a.
Proof.
  destruct a as [x| | |], b as [y| | |]; try reflexivity.
  cbn. f_equal. apply Rmult_comm.
Qed.

Lemma numbers_as_values (l : list value) :
  forallb is_number l = true -> l = map VNum (numbersOf l).
Proof.
  induction l as [|v l IH]; [reflexivity|].
  cbn [forallb]. intros H. apply andb_prop in H. destruct H as [Hv Hl].
  destruct v as [n| | | |]; try discriminate.
  cbn [is_number] in Hv. cbn [numbersOf].
  destruct (isNaN n); [discriminate|].
  cbn [map]. f_equal. apply IH. exact Hl.
Qed.

Section NumberArrays.

Variable number_to_string : jsnum -> string.
Variable string_to_number : string -> jsnum.

Let corr := calculateCorrelation number_to_string string_to_number.
Let plus := js_plus number_to_string string_to_number.
Let times := js_times string_to_number.

Lemma reduce_plus_numbers (xs : list jsnum) (i : nat) (a : jsnum) :
  reduce_from (fun u v (_ : nat) => plus u v) (map VNum xs) i (VNum a)
  = VNum (fold_left add xs a).
Proof.
  revert i a. induction xs as [|x xs IH]; intros i a; [reflexivity|].
  cbn [map reduce_from fold_left].
  change (plus (VNum a) (VNum x)) with (VNum (add a x)). apply IH.
Qed.

Lemma reduce_products_numbers (xs ys pre : list jsnum) (a : jsnum) :
  List.length xs = List.length ys ->
  reduce_from
    (fun s v i => add s (times v (at_index (map VNum (pre ++ ys)) i)))
    (map VNum xs) (List.length pre) a
  = fold_left (fun s p => add s (mul (fst p) (snd p))) (combine xs ys) a.
Proof.
  revert ys pre a. induction xs as [|x xs IH]; intros [|y ys] pre a H;
    try discriminate; [reflexivity|].
  cbn [map reduce_from combine fold_left fst snd].
  assert (E : at_index (map VNum (pre ++ y :: ys)) (List.length pre) = VNum y).
  { unfold at_index. rewrite map_app. cbn [map].
    rewrite app_nth2; rewrite length_map; [|lia].
    rewrite Nat.sub_diag. reflexivity. }
  rewrite E. change (times (VNum x) (VNum y)) with (mul x y).
  replace (pre ++ y :: ys) with ((pre ++ [y]) ++ ys)
    by (rewrite <- app_assoc; reflexivity).
  replace (S (List.length pre)) with (List.length (pre ++ [y]))
    by (rewrite length_app; simpl; lia).
  apply IH. simpl in H. congruence.
Qed.

Lemma reduce_squares_numbers (xs : list jsnum) (i : nat) (a : jsnum) :
  reduce_from (fun s v (_ : nat) => add s (times v v)) (map VNum xs) i a
  = fold_left (fun s p => add s (mul (fst p) (snd p))) (combine xs xs) a.
Proof.
  revert i a. induction xs as [|x xs IH]; intros i a; [reflexivity|].
  cbn [map reduce_from combine fold_left fst snd].
  change (times (VNum x) (VNum x)) with (mul x x). apply IH.
Qed.

(** On two arrays of numbers of equal length the code computes
    [correlationOf]. *)
Lemma calculateCorrelation_numbers (xs ys : list jsnum) :
  List.length xs = List.length ys ->
  corr (map VNum xs) (map VNum ys) = correlationOf xs ys.
Proof.
  intros H. unfold corr, calculateCorrelation, correlationOf, reduce.
  rewrite length_map.
  destruct (List.length xs =? 0)%nat; [reflexivity|].
  fold plus. fold times. change (num 0) with (VNum (Fin 0)).
  rewrite !reduce_plus_numbers, !reduce_squares_numbers.
  pose proof (reduce_products_numbers xs ys [] (Fin 0) H) as Hxy.
  cbn [app List.length] in Hxy. rewrite Hxy.
  unfold js_times. cbn [ToNumber].
  reflexivity.
Qed.

Lemma sumProducts_comm (xs ys : list jsnum) :
  sumProducts xs ys = sumProducts ys xs.
Proof.
  unfold sumProducts. generalize (Fin 0).
  revert ys. induction xs as [|x xs IH]; intros [|y ys] a; try reflexivity.
  cbn [combine fold_left fst snd]. rewrite (mul_comm x y). apply IH.
Qed.

Lemma correlationOf_comm (xs ys : list jsnum) :
  List.length xs = List.length ys -> correlationOf xs ys = correlationOf ys xs.
Proof.
  intros H. unfold correlationOf. rewrite <- H.
  destruct (List.length xs =? 0)%nat; [reflexivity|].
  rewrite (sumProducts_comm ys xs), (mul_comm (sumOf ys) (sumOf xs)).
  rewrite (mul_comm (sub (mul (Fin (INR (List.length xs))) (sumProducts ys ys))
                         (mul (sumOf ys) (sumOf ys)))).
  reflexivity.
Qed.

(** X4. The correlation of two arrays of numbers of equal length does not
    depend on their order, whatever the numbers (infinities and NaN
    included). *)
Theorem calculateCorrelation_symmetric (xs ys : list jsnum) :
  List.length xs = List.length ys ->
  corr (map VNum xs) (map VNum ys) = corr (map VNum ys) (map VNum xs).
Proof.
  intros H.
  rewrite (calculateCorrelation_numbers xs ys H).
  rewrite (calculateCorrelation_numbers ys xs (eq_sym H)).
  apply correlationOf_comm. exact H.
Qed.

End NumberArrays.

Lemma calculateCorrelation_symmetric_witness :
  calculateCorrelation unrendered unparsed
    (map VNum [Fin 1; PInf; Fin 4]) (map VNum [Fin 2; Fin 3; Fin 9])
  = calculateCorrelation unrendered unparsed
    (map VNum [Fin 2; Fin 3; Fin 9]) (map VNum [Fin 1; PInf; Fin 4]).
Proof.
  apply (calculateCorrelation_symmetric unrendered unparsed
           [Fin 1; PInf; Fin 4] [Fin 2; Fin 3; Fin 9]).
  reflexivity.
Defined.

Lemma nth_error_grid {A B C : Type} (f : A -> B -> C)
    (la : list A) (lb : list B) (i j : nat) (a : A) (b : B) :
  nth_error la i = Some a -> nth_error lb j = Some b ->
  nth_error (flat_map (fun a => map (f a) lb) la) (i * List.length lb + j)%nat
  = Some (f a b).
Proof.
  revert i. induction la as [|a0 la IH]; intros i Ha Hb.
  - destruct i; discriminate.
  - cbn [flat_map]. destruct i as [|i].
    + cbn in Ha. injection Ha as ->. cbn [Nat.mul Nat.add].
      rewrite nth_error_app1.
      * rewrite nth_error_map, Hb. reflexivity.
      * rewrite length_map. apply nth_error_Some. congruence.
    + cbn in Ha. rewrite nth_error_app2; rewrite length_map; [|lia].
      replace (S i * List.length lb + j - List.length lb)%nat
        with (i * List.length lb + j)%nat by lia.
      apply IH; assumption.
Qed.

Lemma length_grid {A B C : Type} (f : A -> B -> C) (la : list A) (lb : list B) :
  List.length (flat_map (fun a => map (f a) lb) la)
  = (List.length la * List.length lb)%nat.
Proof.
  induction la as [|a la IH]; [reflexivity|].
  cbn [flat_map]. rewrite length_app, length_map, IH. simpl. reflexivity.
Qed.

Lemma clean_rows_left (a b : string) (rs : list Row) :
  forallb is_number
    (map (fun r => get r a)
       (filter (fun r => is_number (get r a) && is_number (get r b)) rs)) = true.
Proof.
  induction rs as [|r rs IH]; [reflexivity|].
  cbn [filter].
  destruct (is_number (get r a)) eqn:Ea; cbn [andb]; [|exact IH].
  destruct (is_number (get r b)); [|exact IH].
  cbn [map forallb]. rewrite Ea, IH. reflexivity.
Qed.

Lemma clean_rows_right (a b : string) (rs : list Row) :
  forallb is_number
    (map (fun r => get r b)
       (filter (fun r => is_number (get r a) && is_number (get r b)) rs)) = true.
Proof.
  induction rs as [|r rs IH]; [reflexivity|].
  cbn [filter].
  destruct (is_number (get r a)); cbn [andb]; [|exact IH].
  destruct (is_number (get r b)) eqn:Eb; [|exact IH].
  cbn [map forallb]. rewrite Eb, IH. reflexivity.
Qed.

Lemma clean_rows_comm (a b : string) (rs : list Row) :
  filter (fun r => is_number (get r b) && is_number (get r a)) rs
  = filter (fun r => is_number (get r a) && is_number (get r b)) rs.
Proof.
  apply filter_ext. intros r. apply andb_comm.
Qed.

Lemma toFixed_notNaN (d : nat) (a : jsnum) :
  isNaN (if isNaN a then Fin 0 else toFixed d a) = false.
Proof.
  destruct a as [x| | |]; try reflexivity.
  cbn [isNaN toFixed]. destruct (Rleb (10 ^ 21) (Rabs x)); reflexivity.
Qed.

Section MatrixFacts.

Variable number_to_string : jsnum -> string.
Variable string_to_number : string -> jsnum.

Let matrixOf := generateCorrelationMatrix number_to_string string_to_number.

(** X5. The correlation matrix covers the first fifteen numeric columns (at
    most): with fewer than two of them it is empty; otherwise it has one
    cell per ordered pair of columns, in row-major order, no cell holds NaN,
    and the cell of (b, a) holds the same number as the cell of (a, b). *)
Theorem generateCorrelationMatrix_grid (dataset : Dataset) :
  let cols := firstn 15 (getNumericalColumns dataset) in
  let k := List.length cols in
  (k <= 15)%nat /\
  ((k < 2)%nat -> matrixOf dataset = []) /\
  ((2 <= k)%nat ->
     List.length (matrixOf dataset) = (k * k)%nat /\
     forall i j a b,
       nth_error cols i = Some a -> nth_error cols j = Some b ->
       exists c c',
         nth_error (matrixOf dataset) (i * k + j) = Some c /\
         nth_error (matrixOf dataset) (j * k + i) = Some c' /\
         cell_x c = a /\ cell_y c = b /\
         isNaN (cell_value c) = false /\
         cell_value c' = cell_value c).
Proof.
  intros cols k. split; [|split].
  - unfold k, cols. rewrite length_firstn. lia.
  - intros Hk. unfold matrixOf, generateCorrelationMatrix.
    fold cols. fold k. apply Nat.ltb_lt in Hk. rewrite Hk. reflexivity.
  - intros Hk. unfold matrixOf, generateCorrelationMatrix.
    fold cols. fold k.
    assert (Hk' : (k <? 2)%nat = false) by (apply Nat.ltb_ge; exact Hk).
    rewrite Hk'. split.
    + apply (length_grid _ cols cols).
    + intros i j a b Ha Hb.
      eexists. eexists.
      split; [exact (nth_error_grid _ cols cols i j a b Ha Hb)|].
      split; [exact (nth_error_grid _ cols cols j i b a Hb Ha)|].
      cbn [cell_x cell_y cell_value].
      split; [reflexivity|]. split; [reflexivity|].
      split; [apply toFixed_notNaN|].
      rewrite (clean_rows_comm a b).
      set (rs := filter (fun r => is_number (get r a) && is_number (get r b))
                   (rows dataset)).
      pose proof (numbers_as_values _ (clean_rows_left a b (rows dataset))) as Ea.
      pose proof (numbers_as_values _ (clean_rows_right a b (rows dataset))) as Eb.
      fold rs in Ea, Eb.
      assert (Hlen : List.length (numbersOf (map (fun r => get r a) rs))
                     = List.length (numbersOf (map (fun r => get r b) rs))).
      { rewrite <- (length_map VNum (numbersOf (map (fun r => get r a) rs))).
        rewrite <- (length_map VNum (numbersOf (map (fun r => get r b) rs))).
        rewrite <- Ea, <- Eb. rewrite !length_map. reflexivity. }
      rewrite Ea, Eb.
      rewrite (calculateCorrelation_numbers number_to_string string_to_number
                 _ _ Hlen).
      rewrite (calculateCorrelation_numbers number_to_string string_to_number
                 _ _ (eq_sym Hlen)).
      rewrite (correlationOf_comm _ _ Hlen). reflexivity.
Qed.

End MatrixFacts.

Lemma calculateHistogram_counts_witness :
  exists h,
    calculateHistogram unrendered (fun _ _ => EmptyString) flags "f" 4 = Ok h /\
    List.length h = 4%nat /\ totalCount h = 2%nat.
Proof.
  destruct (calculateHistogram_counts unrendered (fun _ _ => EmptyString)
              flags "f" 4 [0; 1] eq_refl) as (_ & _ & H & _).
  assert (E : spread [0; 1] = 1).
  { unfold spread, listMax, listMin. cbn [fold_left]. unfold Rmax, Rmin.
    destruct (Rle_dec 0 1); lra. }
  assert (E4 : INR 4 = 4) by (simpl; lra).
  apply H.
  - intros Hc. specialize (Hc 0 1 (or_introl eq_refl) (or_intror (or_introl eq_refl))).
    lra.
  - lia.
  - lia.
  - rewrite E. pose proof (pow2_lt_overflow 0 ltac:(lia)) as H0. simpl in H0. lra.
  - rewrite E, E4. pose proof underflow_bound_small. lra.
Defined.

Lemma calculateColumnStats_numeric_witness :
  exists s,
    calculateColumnStats unrendered unparsed flags "f" = s /\
    stat_min s = Some (Fin (listMin 0 [1])) /\
    stat_max s = Some (Fin (listMax 0 [1])).
Proof.
  destruct (calculateColumnStats_numeric unrendered unparsed flags "f"
              {| name := "f"; type := TNumber; missingCount := 0; uniqueCount := 2 |}
              0 [1] eq_refl eq_refl eq_refl)
    as (mean & median & std & H & _).
  - assert (H32 : 2 ^ 1 <= 2 ^ 32) by (apply pow2_le; lia).
    simpl in *. lra.
  - assert (H40 : 2 ^ 1 <= 2 ^ 40) by (apply pow2_le; lia).
    assert (E2 : INR 2 = 2) by (simpl; lra).
    intros v [<- | [<- | []]]; cbn [List.length]; rewrite E2.
    + rewrite Rabs_R0. simpl in H40. lra.
    + rewrite Rabs_R1. simpl in H40. lra.
  - pose proof smallest_double_small.
    intros v [<- | [<- | []]]; [left; reflexivity | right; rewrite Rabs_R1; lra].
  - eexists. split; [exact H|]. split; reflexivity.
Defined.

(** ** The ranking when the target reads [undefined] in every row *)

Lemma mul_NaN_r (a : jsnum) : mul a NaN = NaN.
Proof. destruct a; reflexivity. Qed.

Lemma add_NaN_r (a : jsnum) : add a NaN = NaN.
Proof. destruct a; reflexivity. Qed.

Lemma sub_NaN_r (a : jsnum) : sub a NaN = NaN.
Proof. unfold sub. cbn [neg]. apply add_NaN_r. Qed.

Lemma sort_ties {A : Type} (cmp : A -> A -> jsnum) (l : list A) :
  (forall a b, In a l -> In b l -> is_pos (cmp a b) = false) ->
  sort cmp l = l.
Proof.
  induction l as [|a l IH]; intros H; [reflexivity|].
  cbn [sort]. rewrite IH by (intros; apply H; right; assumption).
  destruct l as [|b l]; [reflexivity|].
  cbn [sort_insert]. rewrite H; [reflexivity | left; reflexivity |].
  right. left. reflexivity.
Qed.

Section MissingTarget.

Variable number_to_string : jsnum -> string.
Variable string_to_number : string -> jsnum.

Let corr := calculateCorrelation number_to_string string_to_number.
Let rank := calculateFeatureImpacts number_to_string string_to_number.

Lemma reduce_plus_undefined_num (n i : nat) (a : jsnum) :
  reduce_from (fun u v (_ : nat) => js_plus number_to_string string_to_number u v)
    (repeat VUndef (S n)) i (VNum a)
  = VNum NaN.
Proof.
  revert i a. induction n as [|n IH]; intros i a.
  - cbn [repeat reduce_from]. unfold js_plus. cbn [is_string orb ToNumber].
    rewrite add_NaN_r. reflexivity.
  - change (repeat VUndef (S (S n))) with (VUndef :: repeat VUndef (S n)).
    cbn [reduce_from]. unfold js_plus at 2. cbn [is_string orb ToNumber].
    apply IH.
Qed.

Lemma reduce_squares_undefined (n i : nat) (a : jsnum) :
  reduce_from (fun s v (_ : nat) => add s (js_times string_to_number v v))
    (repeat VUndef (S n)) i a
  = NaN.
Proof.
  revert i a. induction n as [|n IH]; intros i a.
  - cbn [repeat reduce_from]. unfold js_times. cbn [ToNumber mul].
    apply add_NaN_r.
  - change (repeat VUndef (S (S n))) with (VUndef :: repeat VUndef (S n)).
    cbn [reduce_from]. apply IH.
Qed.

(** Against a target of [undefined]s the correlation is NaN, or 0 when
    there is no row. *)
Lemma calculateCorrelation_undefined (x : list value) :
  let c := corr x (repeat VUndef (List.length x)) in
  (if isNaN c then Fin 0 else c) = Fin 0.
Proof.
  unfold corr, calculateCorrelation.
  destruct x as [|v x]; [reflexivity|].
  cbn [List.length Nat.eqb]. unfold reduce.
  change (num 0) with (VNum (Fin 0)).
  rewrite reduce_plus_undefined_num, reduce_squares_undefined.
  unfold js_times. cbn [ToNumber].
  repeat first [rewrite mul_NaN_r | rewrite sub_NaN_r].
  reflexivity.
Qed.

Lemma undefined_column (rs : list Row) (k : string) :
  (forall r, In r rs -> get r k = VUndef) ->
  map (fun r => get r k) rs = repeat VUndef (List.length rs).
Proof.
  induction rs as [|r rs IH]; intros H; [reflexivity|].
  cbn [map List.length repeat]. rewrite H by (left; reflexivity).
  rewrite IH by (intros; apply H; right; assumption). reflexivity.
Qed.

Lemma targetIsString_undefined (n : nat) :
  targetIsString (repeat VUndef n) = false.
Proof. destruct n; reflexivity. Qed.

Lemma featureNums_length (dataset : Dataset) (col : DatasetColumn) :
  List.length (featureNums dataset col) = List.length (rows dataset).
Proof.
  unfold featureNums, labelEncode.
  destruct (negb (ColumnType_eqb (type col) TNumber)); rewrite !length_map;
    reflexivity.
Qed.

(** X6. When the target column reads [undefined] in every row (or there is
    no row), every feature gets the impact 0 and the ranking lists the
    columns other than the target in dataset order. *)
Theorem calculateFeatureImpacts_missing_target
    (dataset : Dataset) (targetCol : string) :
  targetCol <> EmptyString ->
  (forall r, In r (rows dataset) -> get r targetCol = VUndef) ->
  rank dataset targetCol
  = map (fun col => {| feature_name := name col; impact := Fin 0 |})
        (featureColumns dataset targetCol).
Proof.
  intros Hne Hrows. unfold rank, calculateFeatureImpacts.
  apply String.eqb_neq in Hne. rewrite Hne.
  assert (E : impacts number_to_string string_to_number dataset targetCol
              = map (fun col => {| feature_name := name col; impact := Fin 0 |})
                    (featureColumns dataset targetCol)).
  { unfold impacts, featureColumns. apply map_ext. intros col.
    unfold impactOf, targetNums.
    rewrite (undefined_column _ _ Hrows), targetIsString_undefined.
    rewrite <- (featureNums_length dataset col).
    f_equal. apply calculateCorrelation_undefined. }
  rewrite E. apply sort_ties.
  intros a b Ha Hb. apply in_map_iff in Ha, Hb.
  destruct Ha as [ca [<- _]]. destruct Hb as [cb [<- _]].
  unfold byAbsImpact. cbn [impact Math_abs sub neg add is_pos].
  apply Rltb_false. rewrite Rabs_R0. lra.
Qed.

End MissingTarget.

Lemma calculateFeatureImpacts_missing_target_witness :
  calculateFeatureImpacts unrendered unparsed gappy "z"
  = [ {| feature_name := "a"; impact := Fin 0 |};
      {| feature_name := "t"; impact := Fin 0 |} ]%string.
Proof.
  apply (calculateFeatureImpacts_missing_target unrendered unparsed gappy "z").
  - discriminate.
  - intros r [<- | [<- | []]]; reflexivity.
Defined.

(** ** Further facts about a run of the synthesizer *)

Lemma tnZ_bounds (a : R) (d : Draws) :
  0.6 <= a <= 0.99 -> unit_interval (draw_tp d) ->
  (60 <= tpZ a d <= 119)%Z /\ (48 <= tnZ a d <= 99)%Z.
Proof.
  intros Ha Hd. unfold unit_interval in Hd.
  pose proof (totalCorrectZ_bounds a Ha) as [H1 H2].
  pose proof (tpZ_bounds a d Ha Hd) as [H3 _].
  apply IZR_le in H1, H2.
  pose proof (Zfloor_bound
                (IZR (totalCorrectZ a) * (0.5 + draw_tp d * 0.1) + / 2)) as Hb.
  fold (tpZ a d) in Hb.
  assert (U : IZR (tpZ a d) < IZR 120) by nra.
  assert (L : IZR 47 < IZR (tnZ a d)).
  { unfold tnZ. rewrite minus_IZR. nra. }
  assert (V : IZR (tnZ a d) < IZR 100).
  { unfold tnZ. rewrite minus_IZR. nra. }
  apply lt_IZR in U, L, V. lia.
Qed.

Lemma fnZ_bounds (a : R) (d : Draws) :
  0.6 <= a <= 0.99 -> unit_interval (draw_fp d) ->
  (1 <= fpZ a d <= 48)%Z /\ (1 <= fnZ a d <= 48)%Z.
Proof.
  intros Ha Hd. unfold unit_interval in Hd.
  pose proof (totalCorrectZ_bounds a Ha) as [H1 H2].
  apply IZR_le in H1, H2.
  pose proof (Zfloor_bound
                ((200 + - IZR (totalCorrectZ a)) * (0.4 + draw_fp d * 0.2) + / 2))
    as Hb.
  fold (fpZ a d) in Hb.
  assert (A1 : IZR 0 < IZR (fpZ a d)) by nra.
  assert (A2 : IZR (fpZ a d) < IZR 49) by nra.
  assert (A3 : IZR 0 < IZR (fnZ a d)).
  { unfold fnZ. rewrite !minus_IZR. nra. }
  assert (A4 : IZR (fnZ a d) < IZR 49).
  { unfold fnZ. rewrite !minus_IZR. nra. }
  apply lt_IZR in A1, A2, A3, A4. lia.
Qed.

Lemma ratio_above_half (p q : Z) :
  (0 < q < p)%Z -> / 2 < IZR p / IZR (p + q) < 1.
Proof.
  intros [Hq Hp]. apply IZR_lt in Hq, Hp.
  rewrite plus_IZR.
  assert (Hs : 0 < IZR p + IZR q) by lra.
  split.
  - apply (Rmult_lt_reg_r (IZR p + IZR q)); [exact Hs|].
    unfold Rdiv. rewrite Rmult_assoc, Rinv_l by lra. lra.
  - apply (Rmult_lt_reg_r (IZR p + IZR q)); [exact Hs|].
    unfold Rdiv. rewrite Rmult_assoc, Rinv_l by lra. lra.
Qed.

Section RunFacts.

Variable number_to_string : jsnum -> string.
Variable string_to_number : string -> jsnum.

Let rank := calculateFeatureImpacts number_to_string string_to_number.
Let simulate := simulateBackendTraining number_to_string string_to_number.

(** X7. In every run whose draws lie in [0,1) the four cells of the
    confusion matrix are positive: TP in [60, 119], TN in [48, 99], FP and
    FN in [1, 48].  So no division of the derived metrics is by zero, the
    [|| 0] fallbacks are never taken, and precision and recall are the
    plain ratios, both strictly between 1/2 and 1 before rounding. *)
Theorem confusionMatrix_positive
    (dataset : Dataset) (modelConfig : ModelConfig)
    (preprocessing : PreprocessingConfig) (d : Draws) :
  draws_ok d ->
  exists res TP FP FN TN,
    simulate dataset modelConfig preprocessing d = Ok res /\
    confusionMatrix res
    = [ [Fin (IZR TP); Fin (IZR FP)]; [Fin (IZR FN); Fin (IZR TN)] ] /\
    (60 <= TP <= 119)%Z /\ (1 <= FP <= 48)%Z /\
    (1 <= FN <= 48)%Z /\ (48 <= TN <= 99)%Z /\
    precision (metrics res) = Fin (round_dec 4 (IZR TP / IZR (TP + FP))) /\
    recall (metrics res) = Fin (round_dec 4 (IZR TP / IZR (TP + FN))) /\
    / 2 < IZR TP / IZR (TP + FP) < 1 /\
    / 2 < IZR TP / IZR (TP + FN) < 1.
Proof.
  intros Hd.
  destruct (simulate_run number_to_string string_to_number
              dataset modelConfig preprocessing d)
    as (res & mc & a & Hres & _ & _ & _ & Ha & Hm & Hcm & _).
  exists res, (tpZ a d), (fpZ a d), (fnZ a d), (tnZ a d).
  split; [exact Hres|]. split; [exact Hcm|].
  pose proof (tnZ_bounds a d Ha (ok_tp d Hd)) as [Htp Htn].
  pose proof (fnZ_bounds a d Ha (ok_fp d Hd)) as [Hfp Hfn].
  repeat (split; [lia|]).
  assert (H1 : (0 <= tpZ a d)%Z) by lia.
  assert (H2 : (0 <= fpZ a d)%Z) by lia.
  assert (H3 : (0 <= fnZ a d)%Z) by lia.
  assert (H4 : (0 <= tnZ a d)%Z) by lia.
  destruct (deriveMetrics_counts (isClassification modelConfig)
              _ _ _ _ d H1 H2 H3 H4) as [Ep [Er _]].
  rewrite Hm, Ep, Er. unfold specPrecision, specRecall.
  assert (E1 : (tpZ a d + fpZ a d =? 0)%Z = false) by (apply Z.eqb_neq; lia).
  assert (E2 : (tpZ a d + fnZ a d =? 0)%Z = false) by (apply Z.eqb_neq; lia).
  rewrite E1, E2.
  split; [reflexivity|]. split; [reflexivity|].
  split; apply ratio_above_half; lia.
Qed.

End RunFacts.

Lemma confusionMatrix_positive_witness :
  exists res TP FP FN TN,
    simulateBackendTraining unrendered unparsed flags
      (configFor ML "Random Forest" "t") initialPreprocessing (drawsWithRmse 0)
    = Ok res /\
    confusionMatrix res
    = [ [Fin (IZR TP); Fin (IZR FP)]; [Fin (IZR FN); Fin (IZR TN)] ] /\
    (1 <= FP)%Z /\ (1 <= FN)%Z.
Proof.
  destruct (confusionMatrix_positive unrendered unparsed flags
              (configFor ML "Random Forest" "t") initialPreprocessing
              (drawsWithRmse 0))
    as (res & TP & FP & FN & TN & Hres & Hcm & _ & Hfp & Hfn & _).
  - apply drawsWithRmse_ok. unfold unit_interval. lra.
  - exists res, TP, FP, FN, TN. repeat split; try assumption; lia.
Defined.

Lemma aligned_rank :
  calculateFeatureImpacts unrendered unparsed aligned "t"
  = [ {| feature_name := "f"; impact := Fin 1 |} ]%string.
Proof.
  unfold calculateFeatureImpacts. cbn [String.eqb Ascii.eqb Bool.eqb].
  assert (E : impacts unrendered unparsed aligned "t"
              = [ {| feature_name := "f";
                     impact :=
                       let c := calculateCorrelation unrendered unparsed
                                  (nums [0; 1]) (nums [0; 1]) in
                       if isNaN c then Fin 0 else c |} ]%string)
    by reflexivity.
  rewrite E. cbv zeta.
  rewrite (calculateCorrelation_nums unrendered unparsed [0; 1] [0; 1] eq_refl).
  rewrite pearson_self; [reflexivity|].
  unfold varTerm, covTerm. simpl. lra.
Qed.

Section AucFacts.

Variable number_to_string : jsnum -> string.
Variable string_to_number : string -> jsnum.

Let rank := calculateFeatureImpacts number_to_string string_to_number.
Let simulate := simulateBackendTraining number_to_string string_to_number.

(** X8. The reported AUC is the accuracy plus 0.02, without a cap at 1.  For
    a classification model whose base accuracy, correlation bonus and noise
    add up to 0.9825 or more, the accuracy is 0.985 or 0.99 and the AUC 1.005
    or 1.01: above 1, which is the full mark of the radar chart that shows
    it. *)
Theorem auc_above_one
    (dataset : Dataset) (modelConfig : ModelConfig)
    (preprocessing : PreprocessingConfig) (d : Draws) (b m : R) :
  isClassification modelConfig = true ->
  baseAccuracy modelConfig = Fin b ->
  maxCorrelation (rank dataset (targetColumn modelConfig)) = Ok (Fin m) ->
  0.9825 <= b + (m - 0.5) * 0.2 + draw_accuracy d * 0.05 ->
  exists res A,
    simulate dataset modelConfig preprocessing d = Ok res /\
    accuracy (metrics res) = Fin A /\
    (A = 0.985 \/ A = 0.99) /\
    auc (metrics res) = Some (Fin (A + 0.02)) /\
    nth_error (radarData res) 4
    = Some {| metric := "AUC"; radar_value := Fin (A + 0.02); fullMark := Fin 1 |} /\
    1 < A + 0.02.
Proof.
  intros Hcls Hb Hmc Hsum.
  destruct (simulate_run number_to_string string_to_number
              dataset modelConfig preprocessing d)
    as (res & mc & a & Hres & Hmc' & _ & Hact & Ha & Hm & _ & _ & _ & _ & _ & Hr & _).
  fold rank in Hmc'. rewrite Hmc in Hmc'. injection Hmc' as <-.
  assert (Ea : 0.9825 <= a).
  { unfold actualAccuracy, accuracyModifier in Hact. rewrite Hb in Hact.
    cbn [add sub neg mul] in Hact.
    unfold Math_max, Math_min, leb, Rleb in Hact.
    destruct (Rle_dec 0.6 _) as [H1 | H1] in Hact; [|lra].
    destruct (Rle_dec 0.99 _) as [H2 | H2] in Hact;
      injection Hact as <-; lra. }
  pose proof (totalCorrectZ_bounds a Ha) as [_ Hu].
  assert (Hl : (197 <= totalCorrectZ a)%Z).
  { unfold totalCorrectZ. apply Zfloor_lub. lra. }
  assert (Hacc : accuracy (metrics res) = Fin (IZR (totalCorrectZ a) / 200)).
  { rewrite Hm. apply simulate_accuracy. exact Ha. }
  assert (Hauc : auc (metrics res)
                 = Some (Fin (IZR (totalCorrectZ a) / 200 + 0.02))).
  { rewrite Hm, Hcls. unfold deriveMetrics. cbn [auc tp tn].
    rewrite raw_accuracy. cbn [add].
    assert (Hk : 0.985 <= IZR (totalCorrectZ a) / 200 <= 0.99).
    { apply IZR_le in Hu, Hl. lra. }
    rewrite toFixed_small by (apply small_abs; lra).
    replace (IZR (totalCorrectZ a) / 200 + 0.02)
      with (IZR (totalCorrectZ a + 4) / 200) by (rewrite plus_IZR; lra).
    rewrite round_dec_200 by lia. reflexivity. }
  exists res, (IZR (totalCorrectZ a) / 200).
  split; [exact Hres|]. split; [exact Hacc|].
  split.
  { assert (Hk : totalCorrectZ a = 197%Z \/ totalCorrectZ a = 198%Z) by lia.
    destruct Hk as [-> | ->]; [left | right]; lra. }
  split; [exact Hauc|].
  split.
  { rewrite Hr. unfold buildRadar, auc_or_zero. rewrite Hauc.
    reflexivity. }
  apply IZR_le in Hl. lra.
Qed.

End AucFacts.

Lemma auc_above_one_witness :
  exists res A,
    simulateBackendTraining unrendered unparsed aligned
      (tunedConfig DL "Simple Transformer" "t") initialPreprocessing
      (drawsWithRmse 0)
    = Ok res /\
    auc (metrics res) = Some (Fin (A + 0.02)) /\ 1 < A + 0.02.
Proof.
  destruct (auc_above_one unrendered unparsed aligned
              (tunedConfig DL "Simple Transformer" "t") initialPreprocessing
              (drawsWithRmse 0) (0.88 + 0.05) 1)
    as (res & A & Hres & _ & _ & Hauc & _ & Hgt).
  - reflexivity.
  - reflexivity.
  - cbn [tunedConfig targetColumn]. rewrite aligned_rank.
    cbn. rewrite Rabs_R1. reflexivity.
  - cbn [drawsWithRmse draw_accuracy]. lra.
  - exists res, A. split; [exact Hres|]. split; [exact Hauc | exact Hgt].
Defined.

(** ** SHAP and LIME values *)

Lemma mapi_from_nth {A B : Type} (f : A -> nat -> B) (l : list A) (i k : nat) (a : A) :
  nth_error l k = Some a -> nth_error (mapi_from f l i) k = Some (f a (i + k)%nat).
Proof.
  revert i k. induction l as [|b l IH]; intros i [|k] H; try discriminate.
  - cbn in H. injection H as ->. cbn. rewrite Nat.add_0_r. reflexivity.
  - cbn in H. cbn [mapi_from nth_error]. rewrite (IH (S i) k H).
    do 2 f_equal. lia.
Qed.

(** A SHAP value lies between 0.8 and 1 times the magnitude of the impact,
    and taking its absolute value changes nothing. *)
Lemma shap_value_range (a : jsnum) (c : R) :
  isNaN a = false -> unit_interval c ->
  let v := mul (Math_abs a) (add (Fin 0.8) (mul (Fin c) (Fin 0.2))) in
  leb (mul (Fin 0.8) (Math_abs a)) v = true /\
  leb v (Math_abs a) = true /\
  Math_abs v = v.
Proof.
  intros Ha Hc. unfold unit_interval in Hc. cbn [mul add]. cbv zeta.
  destruct a as [x| | |]; try discriminate.
  - cbn [Math_abs mul leb]. pose proof (Rabs_pos x) as Hx.
    split; [apply Rleb_true; nra|]. split; [apply Rleb_true; nra|].
    f_equal. apply Rabs_pos_eq. nra.
  - cbn [Math_abs mul]. unfold mul_inf.
    rewrite !Reqb_false, !Rltb_true by lra. repeat split.
  - cbn [Math_abs mul]. unfold mul_inf.
    rewrite !Reqb_false, !Rltb_true by lra. repeat split.
Qed.

(** A LIME value has the sign of the impact and between 0.5 and 1 times its
    magnitude. *)
Lemma lime_value_range (a : jsnum) (c : R) :
  isNaN a = false -> unit_interval c ->
  let v := mul a (add (Fin 0.5) (mul (Fin c) (Fin 0.5))) in
  is_pos v = is_pos a /\
  is_pos (neg v) = is_pos (neg a) /\
  leb (mul (Fin 0.5) (Math_abs a)) (Math_abs v) = true /\
  leb (Math_abs v) (Math_abs a) = true.
Proof.
  intros Ha Hc. unfold unit_interval in Hc. cbn [mul add]. cbv zeta.
  destruct a as [x| | |]; try discriminate.
  - cbn [Math_abs mul leb is_pos neg].
    assert (Hk : 0.5 <= 0.5 + c * 0.5 < 1) by lra.
    set (k := 0.5 + c * 0.5) in *.
    assert (Eabs : Rabs (x * k) = Rabs x * k).
    { rewrite Rabs_mult, (Rabs_pos_eq k) by lra. reflexivity. }
    pose proof (Rabs_pos x) as Hx.
    repeat split.
    + unfold Rltb. destruct (Rlt_dec 0 (x * k)), (Rlt_dec 0 x);
        try reflexivity; exfalso; nra.
    + unfold Rltb. destruct (Rlt_dec 0 (- (x * k))), (Rlt_dec 0 (- x));
        try reflexivity; exfalso; nra.
    + apply Rleb_true. rewrite Eabs. nra.
    + apply Rleb_true. rewrite Eabs. nra.
  - cbn [Math_abs mul]. unfold mul_inf.
    rewrite !Reqb_false, !Rltb_true by lra. repeat split.
  - cbn [Math_abs mul]. unfold mul_inf.
    rewrite !Reqb_false, !Rltb_true by lra. repeat split.
Qed.

Section ExplanationFacts.

Variable number_to_string : jsnum -> string.
Variable string_to_number : string -> jsnum.

Let rank := calculateFeatureImpacts number_to_string string_to_number.
Let simulate := simulateBackendTraining number_to_string string_to_number.

(** X9. In every run whose draws lie in [0,1), the SHAP, LIME and
    feature-importance lists hold one entry for each of the first eight
    ranked features, in ranking order and under the feature's name.  The
    SHAP value lies between 0.8 and 1 times the magnitude of the impact and
    the importance equals it; the LIME value has the sign of the impact and
    between 0.5 and 1 times its magnitude. *)
Theorem explanations_follow_ranking
    (dataset : Dataset) (modelConfig : ModelConfig)
    (preprocessing : PreprocessingConfig) (d : Draws) :
  draws_ok d ->
  exists res,
    simulate dataset modelConfig preprocessing d = Ok res /\
    let top := firstn 8 (rank dataset (targetColumn modelConfig)) in
    (List.length top <= 8)%nat /\
    List.length (shapValues res) = List.length top /\
    List.length (limeValues res) = List.length top /\
    List.length (featureImportance res) = List.length top /\
    forall i item,
      nth_error top i = Some item ->
      exists s l imp,
        nth_error (shapValues res) i = Some s /\
        nth_error (limeValues res) i = Some l /\
        nth_error (featureImportance res) i = Some imp /\
        feature s = feature_name item /\
        feature l = feature_name item /\
        imp_feature imp = feature_name item /\
        importance imp = fv_value s /\
        leb (mul (Fin 0.8) (Math_abs (impact item))) (fv_value s) = true /\
        leb (fv_value s) (Math_abs (impact item)) = true /\
        is_pos (fv_value l) = is_pos (impact item) /\
        is_pos (neg (fv_value l)) = is_pos (neg (impact item)) /\
        leb (mul (Fin 0.5) (Math_abs (impact item))) (Math_abs (fv_value l)) = true /\
        leb (Math_abs (fv_value l)) (Math_abs (impact item)) = true.
Proof.
  intros Hd.
  destruct (simulate_run number_to_string string_to_number
              dataset modelConfig preprocessing d)
    as (res & mc & a & Hres & _ & _ & _ & _ & _ & _ & _ & Hs & Hl & Hf & _).
  exists res. split; [exact Hres|]. cbv zeta.
  fold rank in Hs, Hl.
  set (top := firstn 8 (rank dataset (targetColumn modelConfig))) in *.
  split; [unfold top; rewrite length_firstn; lia|].
  split; [rewrite Hs; apply mapi_from_length|].
  split; [rewrite Hl; apply mapi_from_length|].
  split; [rewrite Hf, length_map, Hs; apply mapi_from_length|].
  intros i item Hi.
  assert (Hnn : isNaN (impact item) = false).
  { pose proof (calculateFeatureImpacts_notNaN number_to_string string_to_number
                  dataset (targetColumn modelConfig)) as Hall.
    rewrite Forall_forall in Hall. apply Hall.
    apply nth_error_In in Hi. unfold top in Hi.
    rewrite <- (firstn_skipn 8 (calculateFeatureImpacts number_to_string
                                  string_to_number dataset (targetColumn modelConfig))).
    apply in_or_app. left. exact Hi. }
  pose proof (mapi_from_nth
                (fun item i =>
                   {| feature := feature_name item;
                      fv_value := mul (Math_abs (impact item))
                                    (add (Fin 0.8) (mul (Fin (draw_shap d i)) (Fin 0.2))) |})
                top 0 i item Hi) as Es.
  pose proof (mapi_from_nth
                (fun item i =>
                   {| feature := feature_name item;
                      fv_value := mul (impact item)
                                    (add (Fin 0.5) (mul (Fin (draw_lime d i)) (Fin 0.5))) |})
                top 0 i item Hi) as El.
  fold (explainShap top d) in Es. fold (explainLime top d) in El.
  rewrite <- Hs in Es. rewrite <- Hl in El. cbn [Nat.add] in Es, El.
  destruct (shap_value_range (impact item) (draw_shap d i) Hnn (ok_shap d Hd i))
    as (S1 & S2 & S3).
  destruct (lime_value_range (impact item) (draw_lime d i) Hnn (ok_lime d Hd i))
    as (L1 & L2 & L3 & L4).
  eexists _, _, _.
  split; [exact Es|]. split; [exact El|].
  split; [rewrite Hf, nth_error_map, Es; reflexivity|].
  cbn [feature fv_value imp_feature importance].
  repeat (split; [first [reflexivity | assumption]|]).
  assumption.
Qed.

End ExplanationFacts.

Lemma explanations_follow_ranking_witness :
  exists res,
    simulateBackendTraining unrendered unparsed aligned
      (configFor ML "Random Forest" "t") initialPreprocessing (drawsWithRmse 0)
    = Ok res /\
    List.length (shapValues res) = 1%nat.
Proof.
  destruct (explanations_follow_ranking unrendered unparsed aligned
              (configFor ML "Random Forest" "t") initialPreprocessing
              (drawsWithRmse 0))
    as (res & Hres & H).
  - apply drawsWithRmse_ok. unfold unit_interval. lra.
  - cbv zeta in H. destruct H as (_ & Hs & _).
    exists res. split; [exact Hres|]. rewrite Hs.
    cbn [configFor targetColumn]. rewrite aligned_rank. reflexivity.
Defined.

(** ** Bounds on the logged loss and accuracy *)

Lemma round_dec_le (d : nat) (x y : R) :
  0 <= x <= y -> round_dec d x <= round_dec d y.
Proof.
  intros [Hx Hxy]. pose proof (pow10_pos d) as Hp.
  rewrite !round_dec_nonneg by lra.
  apply Rmult_le_compat_r; [left; apply Rinv_0_lt_compat; exact Hp|].
  apply IZR_le. apply Zfloor_le. nra.
Qed.

Lemma round4_between (x lo hi : R) (zl zh : Z) :
  0 <= lo -> lo * 10 ^ 4 = IZR zl -> hi * 10 ^ 4 = IZR zh ->
  lo <= x <= hi -> lo <= round_dec 4 x <= hi.
Proof.
  intros H0 Hl Hh Hx.
  pose proof (round_dec_exact 4 lo zl H0 Hl) as El.
  assert (H0h : 0 <= hi) by lra.
  pose proof (round_dec_exact 4 hi zh H0h Hh) as Eh.
  split.
  - apply Rle_trans with (round_dec 4 lo); [rewrite El; lra|].
    apply round_dec_le; lra.
  - apply Rle_trans with (round_dec 4 hi); [|rewrite Eh; lra].
    apply round_dec_le; lra.
Qed.

Lemma accAt_increasing (A : R) (k : nat) : 0.5 <= A -> accAt A k <= accAt A (S k).
Proof.
  intros HA. pose proof (accAt_bounds A k HA) as H. cbn [accAt]. lra.
Qed.

Section LossHistoryFacts.

Variable number_to_string : jsnum -> string.
Variable string_to_number : string -> jsnum.

Let simulate := simulateBackendTraining number_to_string string_to_number.

(** X10. In every run whose draws lie in [0,1), the entry of epoch [i + 1]
    is at position [i] of the loss history; its loss lies in [0.1, 0.7], its
    accuracy between 0.5 and the reported accuracy, the validation figures
    are the loss plus 0.05 and the accuracy minus 0.03, and the logged
    accuracy never decreases from one epoch to the next. *)
Theorem lossHistory_trend
    (dataset : Dataset) (modelConfig : ModelConfig)
    (preprocessing : PreprocessingConfig) (d : Draws) :
  draws_ok d ->
  exists res A,
    simulate dataset modelConfig preprocessing d = Ok res /\
    accuracy (metrics res) = Fin A /\
    List.length (lossHistory res) = epochs modelConfig /\
    forall i e,
      nth_error (lossHistory res) i = Some e ->
      epoch e = S i /\
      exists l c,
        loss e = Fin l /\ log_accuracy e = Fin c /\
        0.1 <= l <= 0.7 /\ 0.5 <= c <= A /\
        val_loss e = Fin (l + 0.05) /\
        val_accuracy e = Fin (c - 0.03) /\
        forall e',
          nth_error (lossHistory res) (S i) = Some e' ->
          exists c', log_accuracy e' = Fin c' /\ c <= c'.
Proof.
  intros Hd.
  destruct (simulate_run number_to_string string_to_number
              dataset modelConfig preprocessing d)
    as (res & mc & a & Hres & _ & _ & _ & Ha & Hm & _ & Hl & _).
  pose proof (accuracy_unit a Ha) as Hu.
  pose proof (totalCorrectZ_bounds a Ha) as Hz.
  set (A := IZR (totalCorrectZ a) / 200) in *.
  assert (Hacc : accuracy (metrics res) = Fin A).
  { rewrite Hm. apply simulate_accuracy. exact Ha. }
  assert (Hh : lossHistory res = map (entryAt A d) (seq 1 (epochs modelConfig))).
  { rewrite Hl, Hacc. unfold simulateLossHistory.
    apply (lossLoop_entries _ d (epochs modelConfig) 0); [lra|].
    apply (ok_loss d Hd). }
  assert (HA4 : round_dec 4 A = A) by (apply round_dec_200; lia).
  assert (Hnth : forall i e, nth_error (lossHistory res) i = Some e ->
                             e = entryAt A d (S i)).
  { intros i e He. rewrite Hh, nth_error_map in He.
    destruct (nth_error (seq 1 (epochs modelConfig)) i) as [k|] eqn:Ek;
      [|discriminate].
    assert (Hi : (i < List.length (seq 1 (epochs modelConfig)))%nat)
      by (apply nth_error_Some; congruence).
    rewrite length_seq in Hi.
    rewrite (nth_error_nth' _ 0%nat) in Ek by (rewrite length_seq; exact Hi).
    rewrite seq_nth in Ek by exact Hi.
    injection Ek as <-. cbn in He. injection He as <-. reflexivity. }
  clearbody A.
  exists res, A. split; [exact Hres|]. split; [exact Hacc|].
  split; [rewrite Hh, length_map, length_seq; reflexivity|].
  intros i e He. rewrite (Hnth i e He). cbn [entryAt epoch].
  split; [reflexivity|].
  exists (round_dec 4 (lossAt d (S i))), (round_dec 4 (accAt A (S i))).
  cbn [loss log_accuracy val_loss val_accuracy].
  split; [reflexivity|]. split; [reflexivity|].
  pose proof (lossAt_bounds d (S i) (ok_loss d Hd)) as Hb.
  assert (HA5 : 0.5 <= A) by lra.
  pose proof (accAt_bounds A (S i) HA5) as Hc.
  split.
  { apply (round4_between _ 0.1 0.7 1000 7000);
      [lra | simpl; lra | simpl; lra | exact Hb]. }
  split.
  { split.
    - refine (proj1 (round4_between _ 0.5 1 5000 10000 _ _ _ _));
        [lra | simpl; lra | simpl; lra |].
      destruct Hc as [Hc1 Hc2]. split; [exact Hc1 | lra].
    - apply Rle_trans with (round_dec 4 A); [|rewrite HA4; lra].
      apply round_dec_le. lra. }
  split; [reflexivity|]. split; [reflexivity|].
  intros e' He'. rewrite (Hnth (S i) e' He').
  exists (round_dec 4 (accAt A (S (S i)))). split; [reflexivity|].
  apply round_dec_le. split; [lra|].
  apply accAt_increasing. lra.
Qed.

End LossHistoryFacts.

Lemma lossHistory_trend_witness :
  exists res,
    simulateBackendTraining unrendered unparsed flags
      (configFor ML "Random Forest" "t") initialPreprocessing (drawsWithRmse 0)
    = Ok res /\
    List.length (lossHistory res) = 20%nat.
Proof.
  destruct (lossHistory_trend unrendered unparsed flags
              (configFor ML "Random Forest" "t") initialPreprocessing
              (drawsWithRmse 0))
    as (res & A & Hres & _ & Hlen & _).
  - apply drawsWithRmse_ok. unfold unit_interval. lra.
  - exists res. split; [exact Hres | exact Hlen].
Defined.

(** ** ROC and precision-recall curves *)

Lemma Rpower_1_base (c : R) : Rpower 1 c = 1.
Proof. unfold Rpower. rewrite ln_1, Rmult_0_r. apply exp_0. Qed.

Lemma Rpower_pos (x c : R) : 0 < Rpower x c.
Proof. unfold Rpower. apply exp_pos. Qed.

Lemma Rpower_le_1 (x c : R) : 0 < x <= 1 -> 0 <= c -> Rpower x c <= 1.
Proof.
  intros Hx Hc. rewrite <- (Rpower_1_base c).
  apply Rle_Rpower_l; [exact Hc | exact Hx].
Qed.

Lemma exp_le (a b : R) : a <= b -> exp a <= exp b.
Proof.
  intros [H | ->]; [left; apply exp_increasing; exact H | right; reflexivity].
Qed.

Lemma ln_nonpos (x : R) : 0 < x <= 1 -> ln x <= 0.
Proof.
  intros [H0 [H1 | ->]]; [|rewrite ln_1; lra].
  rewrite <- ln_1. left. apply ln_increasing; assumption.
Qed.

Lemma Rpower_ge_self (x c : R) : 0 < x <= 1 -> 0 <= c <= 1 -> x <= Rpower x c.
Proof.
  intros Hx Hc. pose proof (ln_nonpos x Hx) as Hl.
  rewrite <- (exp_ln x) at 1 by lra.
  unfold Rpower. apply exp_le. nra.
Qed.

Lemma grid_unit (i : nat) : (i <= 20)%nat -> 0 <= INR i / 20 <= 1.
Proof.
  intros H. apply le_INR in H. pose proof (pos_INR i) as H0.
  assert (E : INR 20 = 20) by (rewrite INR_IZR_INZ; reflexivity).
  rewrite E in H. lra.
Qed.

Lemma grid_pos (i : nat) : 0 < INR (S i) / 20.
Proof. pose proof (pos_INR i) as H. rewrite S_INR. lra. Qed.

Lemma grid_le (i j : nat) : (i <= j)%nat -> INR i / 20 <= INR j / 20.
Proof. intros H. apply le_INR in H. lra. Qed.

Lemma round_dec_grid (i : nat) : round_dec 2 (INR i / 20) = INR i / 20.
Proof.
  pose proof (pos_INR i) as H0.
  apply (round_dec_exact 2 _ (5 * Z.of_nat i)); [lra|].
  rewrite mult_IZR, <- INR_IZR_INZ. simpl. lra.
Qed.

Lemma rocY_range (s : R) (i : nat) :
  1 <= s -> (i <= 20)%nat -> INR i / 20 <= rocY s i <= 1.
Proof.
  intros Hs Hi. destruct i as [|i]; [simpl; lra|].
  pose proof (grid_unit (S i) Hi) as Hu. pose proof (grid_pos i) as Hp.
  assert (Hc : 0 <= 1 / s <= 1).
  { split.
    - apply Rmult_le_pos; [lra | left; apply Rinv_0_lt_compat; lra].
    - apply (Rmult_le_reg_r s); [lra|]. unfold Rdiv.
      rewrite Rmult_assoc, Rinv_l by lra. lra. }
  cbn [rocY]. split.
  - apply Rpower_ge_self; lra.
  - apply Rpower_le_1; lra.
Qed.

Lemma rocY_le (s : R) (i j : nat) :
  1 <= s -> (i <= j)%nat -> rocY s i <= rocY s j.
Proof.
  intros Hs Hij. destruct i as [|i].
  - destruct j as [|j]; [simpl; lra|]. cbn [rocY].
    left. apply Rpower_pos.
  - destruct j as [|j]; [lia|]. cbn [rocY].
    apply Rle_Rpower_l.
    + apply Rmult_le_pos; [lra | left; apply Rinv_0_lt_compat; lra].
    + split; [apply grid_pos | apply grid_le; exact Hij].
Qed.

Lemma prY_range (s : R) (i : nat) :
  0 <= s -> (i <= 20)%nat -> 0 <= prY s i <= 1.
Proof.
  intros Hs Hi. destruct i as [|i]; [simpl; lra|].
  pose proof (grid_unit (S i) Hi) as Hu. pose proof (grid_pos i) as Hp.
  cbn [prY].
  pose proof (Rpower_le_1 (INR (S i) / 20) s (conj Hp (proj2 Hu)) Hs) as H1.
  pose proof (Rpower_pos (INR (S i) / 20) s) as H2. lra.
Qed.

Lemma prY_le (s : R) (i j : nat) :
  0 <= s -> (i <= j)%nat -> (j <= 20)%nat -> prY s j <= prY s i.
Proof.
  intros Hs Hij Hj. destruct i as [|i].
  - pose proof (prY_range s j Hs Hj) as H. simpl. lra.
  - destruct j as [|j]; [lia|]. cbn [prY].
    assert (H : Rpower (INR (S i) / 20) s <= Rpower (INR (S j) / 20) s).
    { apply Rle_Rpower_l; [exact Hs|].
      split; [apply grid_pos | apply grid_le; exact Hij]. }
    lra.
Qed.

(** The points of pass [i], for a finite steepness of at least 1. *)
Lemma rocPoint_fin (s : R) (i : nat) :
  1 <= s -> (i <= 20)%nat ->
  rocPoint (Fin s) i
  = {| point_x := Fin (INR i / 20); point_y := Fin (round_dec 2 (rocY s i)) |}.
Proof.
  intros Hs Hi. pose proof (grid_unit i Hi) as Hu.
  pose proof (rocY_range s i Hs Hi) as Hr.
  unfold rocPoint. cbn [div]. rewrite !Reqb_false by lra.
  rewrite (toFixed_small 2 (INR i / 20)) by (apply small_abs; lra).
  rewrite round_dec_grid. f_equal.
  destruct i as [|i].
  - cbn [num_equals jsnum_same]. rewrite Reqb_true by (simpl; lra).
    rewrite toFixed_small by (apply small_abs; lra). reflexivity.
  - pose proof (grid_pos i) as Hp.
    cbn [num_equals jsnum_same]. rewrite Reqb_false by lra.
    assert (He : 1 / s <> 0).
    { apply Rgt_not_eq. apply Rmult_lt_0_compat;
        [lra | apply Rinv_0_lt_compat; lra]. }
    cbn [Math_pow]. rewrite (Reqb_false (1 / s)) by exact He.
    rewrite Reqb_false by lra. rewrite Rltb_true by exact Hp.
    cbn [rocY] in Hr |- *.
    set (r := Rpower (INR (S i) / 20) (1 / s)) in *.
    assert (Hm : Math_min (Fin 1) (Fin r) = Fin r).
    { unfold Math_min, leb, Rleb. destruct (Rle_dec 1 r); [f_equal; lra | reflexivity]. }
    rewrite Hm. apply toFixed_small. apply small_abs. lra.
Qed.

Lemma prPoint_fin (s : R) (i : nat) :
  1 <= s -> (i <= 20)%nat ->
  prPoint (Fin s) i
  = {| point_x := Fin (INR i / 20); point_y := Fin (round_dec 2 (prY s i)) |}.
Proof.
  intros Hs Hi. pose proof (grid_unit i Hi) as Hu.
  assert (Hs0 : 0 <= s) by lra.
  pose proof (prY_range s i Hs0 Hi) as Hr.
  unfold prPoint. cbn [div]. rewrite !Reqb_false by lra.
  rewrite (toFixed_small 2 (INR i / 20)) by (apply small_abs; lra).
  rewrite round_dec_grid. f_equal.
  cbn [Math_pow]. rewrite (Reqb_false s) by lra.
  destruct i as [|i].
  - rewrite Reqb_true by (simpl; lra). rewrite Rltb_true by lra.
    cbn [sub neg add]. cbn [prY].
    assert (Hm : Math_max (Fin 0) (Fin (1 + - 0)) = Fin 1).
    { unfold Math_max, leb. rewrite Rleb_true by lra. f_equal. lra. }
    rewrite Hm. apply toFixed_small. apply small_abs. lra.
  - pose proof (grid_pos i) as Hp.
    rewrite Reqb_false by lra. rewrite Rltb_true by exact Hp.
    cbn [sub neg add]. cbn [prY] in Hr |- *.
    set (r := Rpower (INR (S i) / 20) s) in *.
    assert (Hm : Math_max (Fin 0) (Fin (1 + - r)) = Fin (1 - r)).
    { unfold Math_max, leb. rewrite Rleb_true by lra. f_equal. }
    rewrite Hm. apply toFixed_small. apply small_abs. lra.
Qed.

Lemma nth_error_seq_map {A : Type} (f : nat -> A) (n i : nat) :
  (i < n)%nat -> nth_error (map f (seq 0 n)) i = Some (f i).
Proof.
  intros H. rewrite nth_error_map.
  rewrite (nth_error_nth' _ 0%nat) by (rewrite length_seq; exact H).
  rewrite seq_nth by exact H. reflexivity.
Qed.

Section CurveFacts.

Variable number_to_string : jsnum -> string.
Variable string_to_number : string -> jsnum.

Let simulate := simulateBackendTraining number_to_string string_to_number.

(** X11. For the accuracy reported by any run, the ROC and the
    precision-recall curves have 21 points each, at the abscissas 0, 0.05,
    ..., 1.  The ROC curve goes from (0, 0) to (1, 1), never decreases and
    stays on or above the diagonal; the precision-recall curve goes from
    (0, 1) to (1, 0) and never increases; every ordinate is a number of
    [0, 1]. *)
Theorem curves_shape
    (dataset : Dataset) (modelConfig : ModelConfig)
    (preprocessing : PreprocessingConfig) (d : Draws) :
  exists res,
    simulate dataset modelConfig preprocessing d = Ok res /\
    let roc := rocCurve (accuracy (metrics res)) in
    let pr := prCurve (accuracy (metrics res)) in
    List.length roc = 21%nat /\ List.length pr = 21%nat /\
    nth_error roc 0 = Some {| point_x := Fin 0; point_y := Fin 0 |} /\
    nth_error roc 20 = Some {| point_x := Fin 1; point_y := Fin 1 |} /\
    nth_error pr 0 = Some {| point_x := Fin 0; point_y := Fin 1 |} /\
    nth_error pr 20 = Some {| point_x := Fin 1; point_y := Fin 0 |} /\
    forall i j, (i <= j <= 20)%nat ->
      exists yi yj pi pj,
        nth_error roc i = Some {| point_x := Fin (INR i / 20); point_y := Fin yi |} /\
        nth_error roc j = Some {| point_x := Fin (INR j / 20); point_y := Fin yj |} /\
        nth_error pr i = Some {| point_x := Fin (INR i / 20); point_y := Fin pi |} /\
        nth_error pr j = Some {| point_x := Fin (INR j / 20); point_y := Fin pj |} /\
        INR i / 20 <= yi /\ yi <= yj /\ yj <= 1 /\
        0 <= pj /\ pj <= pi /\ pi <= 1.
Proof.
  destruct (simulate_run number_to_string string_to_number
              dataset modelConfig preprocessing d)
    as (res & mc & a & Hres & _ & _ & _ & Ha & Hm & _).
  pose proof (accuracy_unit a Ha) as Hu.
  assert (Hacc : accuracy (metrics res) = Fin (IZR (totalCorrectZ a) / 200)).
  { rewrite Hm. apply simulate_accuracy. exact Ha. }
  exists res. split; [exact Hres|]. cbv zeta. rewrite Hacc.
  set (A := IZR (totalCorrectZ a) / 200) in *. clearbody A.
  unfold rocCurve, prCurve, steepness. cbn [mul add].
  set (s := 4 + A * 4).
  assert (Hs : 1 <= s) by (unfold s; lra).
  assert (Hs0 : 0 <= s) by lra.
  assert (Hroc : forall i, (i <= 20)%nat ->
            nth_error (map (rocPoint (Fin s)) (seq 0 21)) i
            = Some {| point_x := Fin (INR i / 20);
                      point_y := Fin (round_dec 2 (rocY s i)) |}).
  { intros i Hi. rewrite nth_error_seq_map by lia.
    rewrite rocPoint_fin by assumption. reflexivity. }
  assert (Hpr : forall i, (i <= 20)%nat ->
            nth_error (map (prPoint (Fin s)) (seq 0 21)) i
            = Some {| point_x := Fin (INR i / 20);
                      point_y := Fin (round_dec 2 (prY s i)) |}).
  { intros i Hi. rewrite nth_error_seq_map by lia.
    rewrite prPoint_fin by assumption. reflexivity. }
  assert (R0 : round_dec 2 0 = 0) by (apply (round_dec_exact 2 0 0); simpl; lra).
  assert (R1 : round_dec 2 1 = 1) by (apply (round_dec_exact 2 1 100); simpl; lra).
  assert (G20 : INR 20 / 20 = 1).
  { rewrite INR_IZR_INZ. simpl. lra. }
  assert (G0 : INR 0 / 20 = 0) by (simpl; lra).
  split; [rewrite length_map, length_seq; reflexivity|].
  split; [rewrite length_map, length_seq; reflexivity|].
  split.
  { rewrite (Hroc 0%nat) by lia. cbn [rocY]. rewrite R0, G0. reflexivity. }
  split.
  { rewrite (Hroc 20%nat) by lia. cbn [rocY].
    rewrite G20, Rpower_1_base, R1. reflexivity. }
  split.
  { rewrite (Hpr 0%nat) by lia. cbn [prY]. rewrite R1, G0. reflexivity. }
  split.
  { rewrite (Hpr 20%nat) by lia. cbn [prY].
    rewrite G20, Rpower_1_base. replace (1 - 1) with 0 by lra.
    rewrite R0. reflexivity. }
  intros i j [Hij Hj].
  assert (Hi : (i <= 20)%nat) by lia.
  exists (round_dec 2 (rocY s i)), (round_dec 2 (rocY s j)),
         (round_dec 2 (prY s i)), (round_dec 2 (prY s j)).
  split; [apply Hroc; exact Hi|]. split; [apply Hroc; exact Hj|].
  split; [apply Hpr; exact Hi|]. split; [apply Hpr; exact Hj|].
  pose proof (grid_unit i Hi) as Gi.
  pose proof (rocY_range s i Hs Hi) as Ri.
  pose proof (rocY_range s j Hs Hj) as Rj.
  pose proof (rocY_le s i j Hs Hij) as Rij.
  pose proof (prY_range s i Hs0 Hi) as Pi.
  pose proof (prY_range s j Hs0 Hj) as Pj.
  pose proof (prY_le s i j Hs0 Hij Hj) as Pij.
  split.
  { rewrite <- (round_dec_grid i). apply round_dec_le. lra. }
  split; [apply round_dec_le; lra|].
  split; [rewrite <- R1; apply round_dec_le; lra|].
  split; [rewrite <- R0; apply round_dec_le; lra|].
  split; [apply round_dec_le; lra|].
  rewrite <- R1. apply round_dec_le. lra.
Qed.

End CurveFacts.

(** ** Learning curve and word cloud *)

Lemma ln_10_above_1 : 1 < ln 10.
Proof.
  pose proof ln_lt_2 as H2.
  assert (H8 : ln 8 = 3 * ln 2).
  { replace 8 with (2 ^ 3) by (simpl; lra). rewrite ln_pow by lra. simpl. lra. }
  assert (H : ln 8 < ln 10) by (apply ln_increasing; lra).
  lra.
Qed.

Lemma ln_le (x y : R) : 0 < x -> x <= y -> ln x <= ln y.
Proof.
  intros H0 [H | ->]; [left; apply ln_increasing; assumption | right; reflexivity].
Qed.

Lemma decades_nth (k : nat) :
  (k < 10)%nat -> nth_error decades k = Some (10 * (k + 1))%nat.
Proof.
  intros H. unfold decades. rewrite nth_error_map.
  rewrite (nth_error_nth' _ 0%nat) by (rewrite length_seq; exact H).
  rewrite seq_nth by exact H. cbn [option_map]. do 2 f_equal. lia.
Qed.

Lemma learningPoint_fin (A : R) (i : nat) :
  (10 <= i)%nat ->
  learningPoint (Fin A) i
  = {| point_x := Fin (INR i);
       point_y := Fin (Rmin A (0.5 + ln (INR i) * 0.1)) |}.
Proof.
  intros Hi. apply le_INR in Hi.
  assert (E : INR 10 = 10) by (rewrite INR_IZR_INZ; reflexivity).
  rewrite E in Hi.
  unfold learningPoint. f_equal. cbn [Math_log].
  rewrite Rltb_false, Reqb_false by lra. cbn [mul add].
  unfold Math_min, leb, Rleb, Rmin.
  destruct (Rle_dec A (0.5 + ln (INR i) * 0.1)); reflexivity.
Qed.

Section LearningCurveFacts.

Variable number_to_string : jsnum -> string.
Variable string_to_number : string -> jsnum.

Let simulate := simulateBackendTraining number_to_string string_to_number.

(** X12. For the accuracy [A] reported by any run, the learning curve has
    ten points at the abscissas 10, 20, ..., 100; every ordinate lies between
    0.6 and [A], and the ordinates never decrease. *)
Theorem learningCurve_shape
    (dataset : Dataset) (modelConfig : ModelConfig)
    (preprocessing : PreprocessingConfig) (d : Draws) :
  exists res A,
    simulate dataset modelConfig preprocessing d = Ok res /\
    accuracy (metrics res) = Fin A /\
    let curve := learningCurve (accuracy (metrics res)) in
    List.length curve = 10%nat /\
    forall k k', (k <= k' < 10)%nat ->
      exists y y',
        nth_error curve k
        = Some {| point_x := Fin (INR (10 * (k + 1))); point_y := Fin y |} /\
        nth_error curve k'
        = Some {| point_x := Fin (INR (10 * (k' + 1))); point_y := Fin y' |} /\
        0.6 <= y /\ y <= y' /\ y' <= A.
Proof.
  destruct (simulate_run number_to_string string_to_number
              dataset modelConfig preprocessing d)
    as (res & mc & a & Hres & _ & _ & _ & Ha & Hm & _).
  pose proof (accuracy_unit a Ha) as Hu.
  assert (Hacc : accuracy (metrics res) = Fin (IZR (totalCorrectZ a) / 200)).
  { rewrite Hm. apply simulate_accuracy. exact Ha. }
  set (A := IZR (totalCorrectZ a) / 200) in *. clearbody A.
  exists res, A. split; [exact Hres|]. split; [exact Hacc|].
  cbv zeta. rewrite Hacc. unfold learningCurve.
  split; [rewrite length_map; unfold decades; rewrite length_map, length_seq; reflexivity|].
  assert (Hnth : forall k, (k < 10)%nat ->
            nth_error (map (learningPoint (Fin A)) decades) k
            = Some {| point_x := Fin (INR (10 * (k + 1)));
                      point_y := Fin (Rmin A (0.5 + ln (INR (10 * (k + 1))) * 0.1)) |}).
  { intros k Hk. rewrite nth_error_map, (decades_nth k Hk). cbn [option_map].
    rewrite learningPoint_fin by lia. reflexivity. }
  intros k k' [Hkk Hk'].
  assert (Hk : (k < 10)%nat) by lia.
  eexists _, _. split; [apply Hnth; exact Hk|]. split; [apply Hnth; exact Hk'|].
  assert (E10 : INR 10 = 10) by (rewrite INR_IZR_INZ; reflexivity).
  assert (G : forall n, (10 <= n)%nat -> 10 <= INR n).
  { intros n Hn. apply le_INR in Hn. rewrite E10 in Hn. exact Hn. }
  pose proof (G (10 * (k + 1))%nat ltac:(lia)) as G1.
  assert (G2 : INR (10 * (k + 1)) <= INR (10 * (k' + 1))) by (apply le_INR; lia).
  pose proof (ln_le 10 (INR (10 * (k + 1))) ltac:(lra) G1) as L1.
  pose proof (ln_le (INR (10 * (k + 1))) (INR (10 * (k' + 1))) ltac:(lra) G2) as L2.
  pose proof ln_10_above_1 as L0.
  unfold Rmin.
  destruct (Rle_dec A (0.5 + ln (INR (10 * (k + 1))) * 0.1)),
           (Rle_dec A (0.5 + ln (INR (10 * (k' + 1))) * 0.1));
    repeat split; lra.
Qed.

End LearningCurveFacts.

(** X13. Whatever the draws of [0,1), the word cloud lists the ten words in
    their order, each with an integer weight from 20 to 99. *)
Theorem wordCloud_weights (draw : nat -> R) :
  (forall i, unit_interval (draw i)) ->
  map text (wordCloud draw) = words /\
  forall w, In w (wordCloud draw) ->
    exists z : Z, word_value w = Fin (IZR z) /\ (20 <= z <= 99)%Z.
Proof.
  intros Hd. split; [reflexivity|].
  assert (Hw : forall i, exists z : Z,
             add (Math_floor (mul (Fin (draw i)) (Fin 80))) (Fin 20) = Fin (IZR z)
             /\ (20 <= z <= 99)%Z).
  { intros i. pose proof (Hd i) as Hi. unfold unit_interval in Hi.
    exists (Zfloor (draw i * 80) + 20)%Z. cbn [mul Math_floor add]. split.
    - rewrite plus_IZR. reflexivity.
    - pose proof (Zfloor_bound (draw i * 80)) as Hb.
      assert (L : (0 <= Zfloor (draw i * 80))%Z) by (apply Zfloor_lub; lra).
      assert (U : IZR (Zfloor (draw i * 80)) < IZR 80) by lra.
      apply lt_IZR in U. lia. }
  intros w Hin. unfold wordCloud, words in Hin. cbn [mapi_from] in Hin.
  repeat (destruct Hin as [<- | Hin]; [apply Hw|]). destruct Hin.
Qed.

Lemma wordCloud_weights_witness :
  map text (wordCloud (fun _ => 0)) = words.
Proof.
  apply (wordCloud_weights (fun _ => 0)).
  intros i. unfold unit_interval. lra.
Defined.

(** ** Normal deviates, residuals and projections *)

Lemma redraw_nonzero (s : nat -> R) (fuel : nat) (u : R) (pos : nat) :
  u <> 0 -> redraw_while_zero s fuel u pos = Some (u, pos).
Proof.
  intros H. destruct fuel; cbn [redraw_while_zero];
    rewrite Reqb_false by exact H; reflexivity.
Qed.

Lemma redraw_step (s : nat -> R) (fuel pos : nat) :
  redraw_while_zero s (S fuel) 0 pos = redraw_while_zero s fuel (s pos) (S pos).
Proof. cbn [redraw_while_zero]. rewrite Reqb_true by reflexivity. reflexivity. Qed.

(** The loop stops at the first draw that is not 0, if the fuel reaches it. *)
Lemma redraw_found (s : nat -> R) (fuel pos k : nat) :
  (forall j, (j < k)%nat -> s (pos + j)%nat = 0) ->
  s (pos + k)%nat <> 0 -> (k < fuel)%nat ->
  redraw_while_zero s fuel 0 pos = Some (s (pos + k)%nat, S (pos + k)).
Proof.
  revert fuel pos. induction k as [|k IH]; intros fuel pos Hz Hk Hf.
  - destruct fuel as [|fuel]; [lia|]. rewrite redraw_step.
    rewrite Nat.add_0_r in *. apply redraw_nonzero. exact Hk.
  - destruct fuel as [|fuel]; [lia|]. rewrite redraw_step.
    assert (E0 : s pos = 0).
    { specialize (Hz 0%nat). rewrite Nat.add_0_r in Hz. apply Hz. lia. }
    rewrite E0.
    replace (pos + S k)%nat with (S pos + k)%nat in * by lia.
    apply IH; [|exact Hk | lia].
    intros j Hj. replace (S pos + j)%nat with (pos + S j)%nat by lia.
    apply Hz. lia.
Qed.

(** What the loop returns is a draw other than 0. *)
Lemma redraw_sound (s : nat -> R) (fuel pos : nat) (u : R) (pos' : nat) :
  redraw_while_zero s fuel 0 pos = Some (u, pos') ->
  exists k, u = s (pos + k)%nat /\ pos' = S (pos + k) /\ u <> 0.
Proof.
  revert pos. induction fuel as [|fuel IH]; intros pos H.
  - cbn [redraw_while_zero] in H. rewrite Reqb_true in H by reflexivity.
    discriminate.
  - rewrite redraw_step in H.
    destruct (Req_dec_T (s pos) 0) as [E | E].
    + rewrite E in H. destruct (IH (S pos) H) as (k & Hu & Hp & Hn).
      exists (S k). replace (pos + S k)%nat with (S pos + k)%nat by lia.
      auto.
    + rewrite redraw_nonzero in H by exact E. injection H as <- <-.
      exists 0%nat. rewrite Nat.add_0_r. auto.
Qed.

Lemma boxMuller_value (u v : R) :
  0 < u < 1 ->
  mul (Math_sqrt (mul (Fin (-2)) (Math_log (Fin u))))
      (Math_cos (mul (mul (Fin 2) (Fin PI)) (Fin v)))
  = Fin (boxMuller u v) /\
  Rabs (boxMuller u v) <= sqrt (-2 * ln u).
Proof.
  intros Hu.
  assert (Hl : ln u < 0).
  { rewrite <- ln_1. apply ln_increasing; lra. }
  split.
  - cbn [Math_log]. rewrite Rltb_false, Reqb_false by lra.
    cbn [mul Math_sqrt]. rewrite Rltb_false by lra.
    cbn [Math_cos mul]. reflexivity.
  - unfold boxMuller. rewrite Rabs_mult.
    pose proof (sqrt_pos (-2 * ln u)) as Hs.
    rewrite (Rabs_pos_eq _ Hs).
    pose proof (COS_bound (2 * PI * v)) as [Hc1 Hc2].
    assert (Hc : Rabs (cos (2 * PI * v)) <= 1) by (apply Rabs_le; lra).
    nra.
Qed.

Lemma randn_bm_found (s : nat -> R) (fuel pos a b : nat) :
  (forall i, unit_interval (s i)) ->
  (forall j, (j < a)%nat -> s (pos + j)%nat = 0) ->
  s (pos + a)%nat <> 0 ->
  (forall j, (j < b)%nat -> s (pos + a + 1 + j)%nat = 0) ->
  s (pos + a + 1 + b)%nat <> 0 ->
  (a < fuel)%nat -> (b < fuel)%nat ->
  randn_bm s fuel pos
  = Some (Fin (boxMuller (s (pos + a)%nat) (s (pos + a + 1 + b)%nat)),
          (pos + a + b + 2)%nat) /\
  Rabs (boxMuller (s (pos + a)%nat) (s (pos + a + 1 + b)%nat))
  <= sqrt (-2 * ln (s (pos + a)%nat)).
Proof.
  intros Hs Ha Hna Hb Hnb Hfa Hfb.
  assert (Hu : 0 < s (pos + a)%nat < 1).
  { pose proof (Hs (pos + a)%nat) as H. unfold unit_interval in H. lra. }
  destruct (boxMuller_value (s (pos + a)%nat) (s (pos + a + 1 + b)%nat) Hu)
    as [Hv Hbound].
  split; [|exact Hbound].
  unfold randn_bm, gbind.
  rewrite (redraw_found s fuel pos a Ha Hna Hfa).
  replace (S (pos + a)) with (pos + a + 1)%nat by lia.
  rewrite (redraw_found s fuel (pos + a + 1) b Hb Hnb Hfb).
  unfold gret. rewrite Hv. do 2 f_equal. lia.
Qed.

Lemma randn_bm_sound (s : nat -> R) (fuel pos : nat) (z : jsnum) (pos' : nat) :
  (forall i, unit_interval (s i)) ->
  randn_bm s fuel pos = Some (z, pos') ->
  exists u v,
    0 < u < 1 /\ 0 < v < 1 /\ z = Fin (boxMuller u v) /\
    (pos + 2 <= pos')%nat.
Proof.
  intros Hs H. unfold randn_bm, gbind in H.
  destruct (redraw_while_zero s fuel 0 pos) as [[u p1]|] eqn:E1; [|discriminate].
  destruct (redraw_while_zero s fuel 0 p1) as [[v p2]|] eqn:E2; [|discriminate].
  unfold gret in H. injection H as <- <-.
  destruct (redraw_sound _ _ _ _ _ E1) as (k1 & Hu & Hp1 & Hnu).
  destruct (redraw_sound _ _ _ _ _ E2) as (k2 & Hv & Hp2 & Hnv).
  assert (Hu1 : 0 < u < 1).
  { pose proof (Hs (pos + k1)%nat) as H. unfold unit_interval in H.
    rewrite <- Hu in H. lra. }
  assert (Hv1 : 0 < v < 1).
  { pose proof (Hs (p1 + k2)%nat) as H. unfold unit_interval in H.
    rewrite <- Hv in H. lra. }
  exists u, v. split; [exact Hu1|]. split; [exact Hv1|].
  split; [apply boxMuller_value; exact Hu1 | lia].
Qed.

(** With draws of (0,1), none being 0, one pass of each loop suffices. *)
Lemma randn_bm_direct (s : nat -> R) (fuel pos : nat) :
  (forall i, unit_interval (s i)) -> (forall i, s i <> 0) -> (0 < fuel)%nat ->
  randn_bm s fuel pos
  = Some (Fin (boxMuller (s pos) (s (S pos))), (pos + 2)%nat).
Proof.
  intros Hs Hn Hf.
  destruct (randn_bm_found s fuel pos 0 0 Hs) as [E _]; try lia;
    try apply Hn; try (intros j Hj; lia).
  replace (pos + 0)%nat with pos in E by lia.
  replace (pos + 1 + 0)%nat with (S pos) in E by lia.
  replace (pos + 0 + 2)%nat with (pos + 2)%nat in E by lia.
  exact E.
Qed.

(** X14. [randn_bm] skips the draws that are 0.  When the draws lie in
    [0,1): if a first draw [u] other than 0 and then a second one [v] are
    found within the fuel, the result is the real number
    [sqrt(-2 ln u) * cos(2 pi v)], of magnitude at most [sqrt(-2 ln u)], and
    every draw up to [v] is consumed; and whatever it returns is such a
    number, for two draws of (0,1), never NaN. *)
Theorem randn_bm_result (s : nat -> R) (fuel pos : nat) :
  (forall i, unit_interval (s i)) ->
  (forall a b,
     (forall j, (j < a)%nat -> s (pos + j)%nat = 0) ->
     s (pos + a)%nat <> 0 ->
     (forall j, (j < b)%nat -> s (pos + a + 1 + j)%nat = 0) ->
     s (pos + a + 1 + b)%nat <> 0 ->
     (a < fuel)%nat -> (b < fuel)%nat ->
     randn_bm s fuel pos
     = Some (Fin (boxMuller (s (pos + a)%nat) (s (pos + a + 1 + b)%nat)),
             (pos + a + b + 2)%nat) /\
     Rabs (boxMuller (s (pos + a)%nat) (s (pos + a + 1 + b)%nat))
     <= sqrt (-2 * ln (s (pos + a)%nat))) /\
  (forall z pos',
     randn_bm s fuel pos = Some (z, pos') ->
     exists u v,
       0 < u < 1 /\ 0 < v < 1 /\ z = Fin (boxMuller u v) /\
       (pos + 2 <= pos')%nat).
Proof.
  intros Hs. split.
  - intros a b. apply randn_bm_found. exact Hs.
  - intros z pos'. apply randn_bm_sound. exact Hs.
Qed.

Lemma randn_bm_result_witness :
  randn_bm sparseDraws 2 0%nat = Some (Fin (boxMuller (/ 2) (/ 4)), 4%nat).
Proof.
  destruct (randn_bm_result sparseDraws 2 0%nat) as [H _].
  - intros i. unfold unit_interval, sparseDraws.
    destruct i as [|[|[|[|i]]]]; lra.
  - destruct (H 1%nat 1%nat) as [E _]; try lia.
    + intros j Hj. assert (j = 0)%nat by lia. subst j. reflexivity.
    + cbn. lra.
    + intros j Hj. assert (j = 0)%nat by lia. subst j. reflexivity.
    + cbn. lra.
    + exact E.
Defined.

Lemma residualsLoop_sound (s : nat -> R) (fuel n : nat) :
  (forall i, unit_interval (s i)) ->
  forall pos pts pos',
    residualsLoop s fuel n pos = Some (pts, pos') ->
    List.length pts = n /\ (pos + 3 * n <= pos')%nat /\
    Forall (fun p => exists x y,
              p = {| point_x := Fin x; point_y := Fin y |} /\ 0 <= x < 100) pts.
Proof.
  intros Hs. induction n as [|n IH]; intros pos pts pos' H.
  - cbn in H. injection H as <- <-. repeat split; [lia | constructor].
  - cbn [residualsLoop] in H. unfold gbind, Math_random in H.
    destruct (randn_bm s fuel (S pos)) as [[z p1]|] eqn:E1; [|discriminate].
    destruct (residualsLoop s fuel n p1) as [[rest p2]|] eqn:E2; [|discriminate].
    unfold gret in H. injection H as <- <-.
    destruct (randn_bm_sound s fuel (S pos) z p1 Hs E1) as (u & v & _ & _ & -> & Hp).
    destruct (IH p1 rest p2 E2) as (Hlen & Hpos & Hall).
    split; [cbn [List.length]; lia|]. split; [lia|].
    constructor; [|exact Hall].
    pose proof (Hs pos) as Hr. unfold unit_interval in Hr.
    exists (s pos * 100), (boxMuller u v * 5). split; [reflexivity | lra].
Qed.

Lemma residualsLoop_direct (s : nat -> R) (fuel n : nat) :
  (forall i, unit_interval (s i)) -> (forall i, s i <> 0) -> (0 < fuel)%nat ->
  forall pos, exists pts,
    residualsLoop s fuel n pos = Some (pts, (pos + 3 * n)%nat).
Proof.
  intros Hs Hn Hf. induction n as [|n IH]; intros pos.
  - exists []. cbn. unfold gret. do 2 f_equal. lia.
  - destruct (IH (S pos + 2)%nat) as [rest Hrest].
    eexists. cbn [residualsLoop]. unfold gbind, Math_random.
    rewrite (randn_bm_direct s fuel (S pos) Hs Hn Hf), Hrest.
    unfold gret. do 2 f_equal. lia.
Qed.

(** X15. With draws of [0,1): whenever [residuals] is computed it holds 50
    points, each with an abscissa of [0, 100) and a real ordinate, and at
    least 150 draws were consumed; and when no draw is 0 it is computed, with
    exactly 150 draws. *)
Theorem residuals_points (s : nat -> R) (fuel pos : nat) :
  (forall i, unit_interval (s i)) ->
  (forall pts pos',
     residuals s fuel pos = Some (pts, pos') ->
     List.length pts = 50%nat /\ (pos + 150 <= pos')%nat /\
     Forall (fun p => exists x y,
               p = {| point_x := Fin x; point_y := Fin y |} /\ 0 <= x < 100) pts) /\
  ((forall i, s i <> 0) -> (0 < fuel)%nat ->
   exists pts, residuals s fuel pos = Some (pts, (pos + 150)%nat)).
Proof.
  intros Hs. split.
  - intros pts pos' H.
    destruct (residualsLoop_sound s fuel 50 Hs pos pts pos' H) as (H1 & H2 & H3).
    split; [exact H1|]. split; [lia | exact H3].
  - intros Hn Hf.
    destruct (residualsLoop_direct s fuel 50 Hs Hn Hf pos) as [pts H].
    exists pts. exact H.
Qed.

Lemma halves_unit : forall i, unit_interval (halves i).
Proof. intros i. unfold unit_interval, halves. lra. Qed.

Lemma halves_nonzero : forall i, halves i <> 0.
Proof. intros i. unfold halves. lra. Qed.

Lemma residuals_points_witness :
  exists pts, residuals halves 1 0%nat = Some (pts, 150%nat).
Proof.
  destruct (residuals_points halves 1 0%nat halves_unit) as [_ H].
  apply H; [exact halves_nonzero | lia].
Defined.

Lemma projectionLoop_sound (s : nat -> R) (fuel : nat) (sep sp : R) (n : nat) :
  (forall i, unit_interval (s i)) ->
  forall i pos pts pos',
    projectionLoop s fuel (Fin sep) (Fin sp) n i pos = Some (pts, pos') ->
    List.length pts = n /\ (pos + 5 * n <= pos')%nat /\
    forall k p,
      nth_error pts k = Some p ->
      label p = (if (i + k <? 75)%nat then "Class 0" else "Class 1")%string /\
      exists x y, lp_x p = Fin x /\ lp_y p = Fin y.
Proof.
  intros Hs. induction n as [|n IH]; intros i pos pts pos' H.
  - cbn in H. injection H as <- <-. repeat split; try lia.
    + destruct k; discriminate.
    + destruct k; discriminate.
  - cbn [projectionLoop] in H. unfold gbind at 1 in H.
    assert (Hpoint : forall (mk : jsnum -> jsnum -> R -> LabelledPoint) q pos1,
              gbind (randn_bm s fuel)
                (fun z1 => gbind (randn_bm s fuel)
                   (fun z2 => gbind (Math_random s)
                      (fun r => gret (mk z1 z2 r)))) pos = Some (q, pos1) ->
              exists u1 v1 u2 v2 r,
                q = mk (Fin (boxMuller u1 v1)) (Fin (boxMuller u2 v2)) r /\
                (pos + 5 <= pos1)%nat).
    { intros mk q pos1 Hq. unfold gbind in Hq.
      destruct (randn_bm s fuel pos) as [[z1 p1]|] eqn:E1; [|discriminate].
      destruct (randn_bm s fuel p1) as [[z2 p2]|] eqn:E2; [|discriminate].
      unfold Math_random, gret in Hq. injection Hq as <- <-.
      destruct (randn_bm_sound s fuel pos z1 p1 Hs E1) as (u1 & v1 & _ & _ & -> & Hp1).
      destruct (randn_bm_sound s fuel p1 z2 p2 Hs E2) as (u2 & v2 & _ & _ & -> & Hp2).
      exists u1, v1, u2, v2, (s p2). split; [reflexivity | lia]. }
    destruct (i <? 75)%nat eqn:Ei.
    + match type of H with
      | match ?m with _ => _ end = _ => destruct m as [[q p1]|] eqn:Eq; [|discriminate]
      end.
      unfold gbind in H.
      destruct (projectionLoop s fuel (Fin sep) (Fin sp) n (S i) p1)
        as [[rest p2]|] eqn:E2; [|discriminate].
      unfold gret in H. injection H as <- <-.
      destruct (Hpoint (fun z1 z2 r =>
                  {| lp_x := sub (mul z1 (Fin sp)) (Fin sep);
                     lp_y := add (mul z2 (Fin sp)) (mul (Fin r) (Fin 2));
                     label := "Class 0" |}) q p1 Eq)
        as (u1 & v1 & u2 & v2 & r & -> & Hp).
      destruct (IH (S i) p1 rest p2 E2) as (Hlen & Hpos & Hall).
      split; [cbn [List.length]; lia|]. split; [lia|].
      intros [|k] p Hk.
      * cbn in Hk. injection Hk as <-. rewrite Nat.add_0_r, Ei.
        split; [reflexivity|]. cbn [lp_x lp_y mul sub add neg].
        eexists _, _. split; reflexivity.
      * cbn in Hk. replace (i + S k)%nat with (S i + k)%nat by lia.
        apply Hall. exact Hk.
    + match type of H with
      | match ?m with _ => _ end = _ => destruct m as [[q p1]|] eqn:Eq; [|discriminate]
      end.
      unfold gbind in H.
      destruct (projectionLoop s fuel (Fin sep) (Fin sp) n (S i) p1)
        as [[rest p2]|] eqn:E2; [|discriminate].
      unfold gret in H. injection H as <- <-.
      destruct (Hpoint (fun z1 z2 r =>
                  {| lp_x := add (mul z1 (Fin sp)) (Fin sep);
                     lp_y := sub (mul z2 (Fin sp)) (mul (Fin r) (Fin 2));
                     label := "Class 1" |}) q p1 Eq)
        as (u1 & v1 & u2 & v2 & r & -> & Hp).
      destruct (IH (S i) p1 rest p2 E2) as (Hlen & Hpos & Hall).
      split; [cbn [List.length]; lia|]. split; [lia|].
      intros [|k] p Hk.
      * cbn in Hk. injection Hk as <-. rewrite Nat.add_0_r, Ei.
        split; [reflexivity|]. cbn [lp_x lp_y mul sub add neg].
        eexists _, _. split; reflexivity.
      * cbn in Hk. replace (i + S k)%nat with (S i + k)%nat by lia.
        apply Hall. exact Hk.
Qed.

Lemma projectionLoop_direct (s : nat -> R) (fuel : nat) (separation spread : jsnum)
    (n : nat) :
  (forall i, unit_interval (s i)) -> (forall i, s i <> 0) -> (0 < fuel)%nat ->
  forall i pos, exists pts,
    projectionLoop s fuel separation spread n i pos = Some (pts, (pos + 5 * n)%nat).
Proof.
  intros Hs Hn Hf. induction n as [|n IH]; intros i pos.
  - exists []. cbn. unfold gret. do 2 f_equal. lia.
  - destruct (IH (S i) (S (pos + 2 + 2))%nat) as [rest Hrest].
    cbn [projectionLoop].
    destruct (i <? 75)%nat; eexists; unfold gbind, Math_random;
      rewrite (randn_bm_direct s fuel pos Hs Hn Hf);
      rewrite (randn_bm_direct s fuel (pos + 2) Hs Hn Hf);
      unfold gret; rewrite Hrest; do 2 f_equal; lia.
Qed.

(** X16. With draws of [0,1) and a finite separation and spread: whenever
    [generateProjection] is computed it holds 150 points with real
    coordinates, the first 75 labelled Class 0 and the other 75 Class 1, and
    at least 750 draws were consumed; and when no draw is 0 it is computed,
    with exactly 750 draws. *)
Theorem generateProjection_points (s : nat -> R) (fuel pos : nat) (sep sp : R) :
  (forall i, unit_interval (s i)) ->
  (forall pts pos',
     generateProjection s fuel (Fin sep) (Fin sp) pos = Some (pts, pos') ->
     List.length pts = 150%nat /\ (pos + 750 <= pos')%nat /\
     forall k p,
       nth_error pts k = Some p ->
       label p = (if (k <? 75)%nat then "Class 0" else "Class 1")%string /\
       exists x y, lp_x p = Fin x /\ lp_y p = Fin y) /\
  ((forall i, s i <> 0) -> (0 < fuel)%nat ->
   exists pts,
     generateProjection s fuel (Fin sep) (Fin sp) pos = Some (pts, (pos + 750)%nat)).
Proof.
  intros Hs. split.
  - intros pts pos' H.
    destruct (projectionLoop_sound s fuel sep sp 150 Hs 0 pos pts pos' H)
      as (H1 & H2 & H3).
    split; [exact H1|]. split; [lia|]. exact H3.
  - intros Hn Hf.
    destruct (projectionLoop_direct s fuel (Fin sep) (Fin sp) 150 Hs Hn Hf 0 pos)
      as [pts H].
    exists pts. exact H.
Qed.

Lemma generateProjection_points_witness :
  exists pts,
    generateProjection halves 1 (Fin 2) (Fin 1.5) 0%nat = Some (pts, 750%nat).
Proof.
  destruct (generateProjection_points halves 1 0%nat 2 1.5 halves_unit) as [_ H].
  apply H; [exact halves_nonzero | lia].
Defined.

(** ** Toggles of the page state *)

Lemma includes_In (l : list string) (s : string) :
  includes l s = true <-> In s l.
Proof.
  unfold includes. rewrite existsb_exists. split.
  - intros [x [Hx He]]. apply String.eqb_eq in He. subst. exact Hx.
  - intros H. exists s. split; [exact H | apply String.eqb_refl].
Qed.

Lemma includes_false (l : list string) (s : string) :
  includes l s = false <-> ~ In s l.
Proof.
  rewrite <- includes_In. destruct (includes l s); split; intros H;
    try reflexivity; try discriminate; try (intros H'; discriminate).
  exfalso. apply H. reflexivity.
Qed.

Lemma filter_out_In (l : list string) (id x : string) :
  In x (filter (fun p => negb (String.eqb p id)) l) <-> In x l /\ x <> id.
Proof.
  rewrite filter_In. split; intros [H1 H2]; split; try exact H1.
  - intros ->. rewrite String.eqb_refl in H2. discriminate.
  - apply Bool.negb_true_iff. apply String.eqb_neq. exact H2.
Qed.

Lemma filter_out_absent (l : list string) (id : string) :
  ~ In id l -> filter (fun p => negb (String.eqb p id)) l = l.
Proof.
  induction l as [|a l IH]; intros H; [reflexivity|].
  cbn [filter]. destruct (String.eqb a id) eqn:E.
  - apply String.eqb_eq in E. subst. exfalso. apply H. left. reflexivity.
  - cbn [negb]. rewrite IH; [reflexivity|]. intros Hin. apply H. right. exact Hin.
Qed.

Lemma filter_out_last (l : list string) (id : string) :
  ~ In id l -> filter (fun p => negb (String.eqb p id)) (l ++ [id]) = l.
Proof.
  intros H. rewrite filter_app, (filter_out_absent l id H).
  cbn [filter]. rewrite String.eqb_refl. cbn [negb]. apply app_nil_r.
Qed.

Lemma filter_out_perm (l : list string) (id : string) :
  NoDup l -> In id l ->
  Permutation (filter (fun p => negb (String.eqb p id)) l ++ [id]) l.
Proof.
  induction l as [|a l IH]; intros Hnd Hin; [destruct Hin|].
  inversion Hnd as [|a' l' Ha Hl]; subst.
  cbn [filter]. destruct (String.eqb a id) eqn:E.
  - apply String.eqb_eq in E. subst a. cbn [negb].
    rewrite (filter_out_absent l id Ha).
    apply Permutation_sym. apply Permutation_cons_append.
  - cbn [negb app]. apply perm_skip. apply IH; [exact Hl|].
    destruct Hin as [-> | Hin]; [|exact Hin].
    rewrite String.eqb_refl in E. discriminate.
Qed.

(** The facts shared by the two toggles. *)
Lemma toggle_facts (id : string) (prev : list string) :
  let next := toggleProjection id prev in
  (In id next <-> ~ In id prev) /\
  (forall x, x <> id -> (In x next <-> In x prev)) /\
  (NoDup prev -> NoDup next) /\
  (~ In id prev -> toggleProjection id next = prev) /\
  (NoDup prev -> In id prev -> Permutation (toggleProjection id next) prev).
Proof.
  cbv zeta. unfold toggleProjection.
  destruct (includes prev id) eqn:E.
  - apply includes_In in E.
    assert (Hout : ~ In id (filter (fun p => negb (String.eqb p id)) prev)).
    { rewrite filter_out_In. intros [_ H]. apply H. reflexivity. }
    split; [|split; [|split; [|split]]].
    + split; [intros H; contradiction | intros H; contradiction].
    + intros x Hx. rewrite filter_out_In. split; [intros [H _]; exact H | auto].
    + intros Hnd. apply NoDup_filter. exact Hnd.
    + intros H. contradiction.
    + intros Hnd _. apply includes_false in Hout. rewrite Hout.
      apply filter_out_perm; assumption.
  - apply includes_false in E.
    split; [|split; [|split; [|split]]].
    + split; [intros _; exact E|]. intros _. apply in_or_app. right. left. reflexivity.
    + intros x Hx. rewrite in_app_iff. split; [|auto].
      intros [H | [H | []]]; [exact H | congruence].
    + intros Hnd. apply NoDup_app; [exact Hnd | repeat constructor; intros [] |].
      intros x Hx [<- | []]. contradiction.
    + intros _.
      assert (Hin : includes (prev ++ [id]) id = true).
      { apply includes_In. apply in_or_app. right. left. reflexivity. }
      rewrite Hin. apply filter_out_last. exact E.
    + intros _ H. contradiction.
Qed.

(** X17. [handleDropColumn] filters the column out of the list of dropped
    columns when it is in it and appends it otherwise: it flips the
    membership of the column and of no other column, leaves each of the
    nine other settings as it was and keeps the list free of duplicates.
    Toggling twice a column that was not dropped restores the
    configuration; toggling twice a dropped column leaves the same columns
    dropped, the toggled one moved to the end. *)
Theorem handleDropColumn_toggle (colName : string) (prev : PreprocessingConfig) :
  let next := handleDropColumn colName prev in
  (In colName (droppedColumns prev) ->
   droppedColumns next
   = filter (fun c => negb (String.eqb c colName)) (droppedColumns prev)) /\
  (~ In colName (droppedColumns prev) ->
   droppedColumns next = droppedColumns prev ++ [colName]) /\
  (In colName (droppedColumns next) <-> ~ In colName (droppedColumns prev)) /\
  (forall c, c <> colName ->
     (In c (droppedColumns next) <-> In c (droppedColumns prev))) /\
  (NoDup (droppedColumns prev) -> NoDup (droppedColumns next)) /\
  (~ In colName (droppedColumns prev) -> handleDropColumn colName next = prev) /\
  (NoDup (droppedColumns prev) -> In colName (droppedColumns prev) ->
   Permutation (droppedColumns (handleDropColumn colName next)) (droppedColumns prev)) /\
  missingValueStrategy next = missingValueStrategy prev /\
  scaling next = scaling prev /\ encoding next = encoding prev /\
  splitRatio next = splitRatio prev /\
  outlierRemoval next = outlierRemoval prev /\
  dimensionalityReduction next = dimensionalityReduction prev /\
  classBalancing next = classBalancing prev /\
  featureEngineering next = featureEngineering prev /\
  textProcessing next = textProcessing prev.
Proof.
  cbv zeta.
  destruct (toggle_facts colName (droppedColumns prev)) as (H1 & H2 & H3 & H4 & H5).
  change (droppedColumns (handleDropColumn colName prev))
    with (toggleProjection colName (droppedColumns prev)).
  split.
  { intros Hin. apply includes_In in Hin. unfold toggleProjection.
    rewrite Hin. reflexivity. }
  split.
  { intros Hout. apply includes_false in Hout. unfold toggleProjection.
    rewrite Hout. reflexivity. }
  split; [exact H1|]. split; [exact H2|]. split; [exact H3|].
  split.
  { intros Hn. specialize (H4 Hn). destruct prev. unfold handleDropColumn.
    cbn [droppedColumns missingValueStrategy scaling encoding splitRatio
         outlierRemoval dimensionalityReduction classBalancing
         featureEngineering textProcessing] in *.
    f_equal. exact H4. }
  split; [|repeat split].
  intros Hnd Hin.
  change (droppedColumns
            (handleDropColumn colName (handleDropColumn colName prev)))
    with (toggleProjection colName
            (toggleProjection colName (droppedColumns prev))).
  apply H5; assumption.
Qed.

Lemma toggled_includes (ids : list string) (start : list string) (x : string) :
  includes (toggled start ids) x
  = xorb (includes start x) (Nat.odd (count_occ string_dec ids x)).
Proof.
  revert start. induction ids as [|id ids IH]; intros start.
  - cbn. rewrite Bool.xorb_false_r. reflexivity.
  - unfold toggled. cbn [fold_left]. fold (toggled (toggleProjection id start) ids).
    rewrite IH. cbn [count_occ].
    destruct (toggle_facts id start) as (H1 & H2 & _).
    destruct (string_dec id x) as [-> | Hne].
    + rewrite Nat.odd_succ, <- Nat.negb_odd.
      assert (E : includes (toggleProjection x start) x = negb (includes start x)).
      { destruct (includes start x) eqn:E1.
        - apply includes_In in E1. apply includes_false. rewrite H1. auto.
        - apply includes_false in E1. apply includes_In. rewrite H1. exact E1. }
      rewrite E. destruct (includes start x), (Nat.odd (count_occ string_dec ids x));
        reflexivity.
    + assert (E : includes (toggleProjection id start) x = includes start x).
      { assert (Hx : x <> id) by congruence.
        destruct (includes start x) eqn:E1.
        - apply includes_In in E1. apply includes_In. rewrite (H2 x Hx). exact E1.
        - apply includes_false in E1. apply includes_false. rewrite (H2 x Hx). exact E1. }
      rewrite E. reflexivity.
Qed.

Lemma toggled_NoDup (ids : list string) (start : list string) :
  NoDup start -> NoDup (toggled start ids).
Proof.
  revert start. induction ids as [|id ids IH]; intros start H; [exact H|].
  unfold toggled. cbn [fold_left]. apply IH.
  destruct (toggle_facts id start) as (_ & _ & H3 & _). apply H3. exact H.
Qed.

(** X18. From the initial selection [pca], after any sequence of clicks the
    selected projections hold no duplicate, and a projection is selected
    exactly when it was clicked an odd number of times, or an even number of
    times for [pca]. *)
Theorem toggleProjection_parity (ids : list string) (x : string) :
  NoDup (toggled initialProjections ids) /\
  (In x (toggled initialProjections ids) <->
   Nat.odd (count_occ string_dec ids x) = negb (String.eqb x "pca")).
Proof.
  split.
  - apply toggled_NoDup. unfold initialProjections. repeat constructor.
    intros [].
  - rewrite <- includes_In, toggled_includes.
    unfold initialProjections, includes. cbn [existsb]. rewrite Bool.orb_false_r.
    destruct (String.eqb x "pca"), (Nat.odd (count_occ string_dec ids x));
      cbn; split; intros H; try reflexivity; try discriminate.
Qed.

(** ** The training panel *)

Lemma tick_progress (z : Z) (draw : R) :
  unit_interval draw -> (5 <= z <= 101)%Z ->
  exists z' : Z,
    (if leb (Fin 95) (Fin (IZR z)) then Fin (IZR z)
     else add (Fin (IZR z)) (Math_floor (mul (Fin draw) (Fin 8))))
    = Fin (IZR z') /\
    ((95 <= z)%Z -> z' = z) /\
    ((z < 95)%Z -> z' = (z + Zfloor (draw * 8))%Z) /\
    (0 <= Zfloor (draw * 8) <= 7)%Z.
Proof.
  intros Hd Hz. unfold unit_interval in Hd. cbn [leb].
  pose proof (Zfloor_bound (draw * 8)) as Hb.
  assert (L : (0 <= Zfloor (draw * 8))%Z) by (apply Zfloor_lub; lra).
  assert (U : IZR (Zfloor (draw * 8)) < IZR 8) by lra.
  apply lt_IZR in U.
  destruct (Z_le_gt_dec 95 z) as [H | H].
  - rewrite Rleb_true by (apply IZR_le; exact H).
    exists z. split; [reflexivity|]. lia.
  - rewrite Rleb_false by (apply IZR_lt; lia).
    exists (z + Zfloor (draw * 8))%Z. cbn [mul Math_floor add].
    split; [rewrite plus_IZR; reflexivity|]. lia.
Qed.

Lemma slice_last_snoc {A : Type} (n : nat) (l : list A) (x : A) :
  (0 < n)%nat ->
  slice_last n (slice_last n l ++ [x]) = slice_last n (l ++ [x]).
Proof.
  intros Hn. unfold slice_last.
  rewrite !length_app, length_skipn. cbn [List.length].
  destruct (le_lt_dec n (List.length l)) as [Hge | Hlt].
  - replace (List.length l - (List.length l - n) + 1 - n)%nat with 1%nat by lia.
    replace (List.length l + 1 - n)%nat with (1 + (List.length l - n))%nat by lia.
    rewrite <- skipn_skipn. f_equal.
    rewrite skipn_app.
    replace (List.length l - n - List.length l)%nat with 0%nat by lia.
    reflexivity.
  - replace (List.length l - n)%nat with 0%nat by lia.
    cbn [skipn]. rewrite Nat.sub_0_r. reflexivity.
Qed.

Lemma ticks_progress (draw : nat -> R) (line : nat -> string) (n : nat) :
  (forall i, unit_interval (draw i)) ->
  exists z : Z, progress (ticks draw line n) = Fin (IZR z) /\ (5 <= z <= 101)%Z.
Proof.
  intros Hd. induction n as [|n [z [Hz Hr]]].
  - exists 5%Z. split; [reflexivity | lia].
  - cbn [ticks tick progress]. rewrite Hz.
    destruct (tick_progress z (draw n) (Hd n) Hr) as (z' & E & H1 & H2 & H3).
    exists z'. split; [exact E|].
    destruct (Z_le_gt_dec 95 z) as [H | H]; [rewrite (H1 H) | rewrite H2]; lia.
Qed.

Lemma ticks_logs (draw : nat -> R) (line : nat -> string) (n : nat) :
  logs (ticks draw line n)
  = skipn (3 + n - 6) (logs startTraining ++ map line (seq 0 n)).
Proof.
  induction n as [|n IH]; [reflexivity|].
  cbn [ticks tick logs]. rewrite IH.
  assert (E : skipn (3 + n - 6) (logs startTraining ++ map line (seq 0 n))
              = slice_last 6 (logs startTraining ++ map line (seq 0 n))).
  { unfold slice_last. rewrite length_app, length_map, length_seq. reflexivity. }
  rewrite E, slice_last_snoc by lia.
  unfold slice_last. rewrite <- app_assoc.
  rewrite seq_S, map_app. cbn [map Nat.add].
  rewrite !length_app, length_map, length_seq.
  cbn [startTraining logs List.length].
  f_equal. lia.
Qed.

Lemma ticks_logs_length (draw : nat -> R) (line : nat -> string) (n : nat) :
  List.length (logs (ticks draw line n)) = Nat.min (3 + n) 6.
Proof.
  rewrite ticks_logs, length_skipn, length_app, length_map, length_seq.
  cbn [startTraining logs List.length]. lia.
Qed.

(** X19. While training, whatever the draws of [0,1): the progress is 5
    before the first firing of the interval and an integer from 5 to 101
    ever after; a firing leaves it alone once it has reached 95 and
    otherwise adds the integer part of eight times its draw, from 0 to 7.
    The log holds, in order, the last six of the three opening lines
    followed by the lines of the firings so far. *)
Theorem training_ticks (draw : nat -> R) (line : nat -> string) (n : nat) :
  (forall i, unit_interval (draw i)) ->
  progress (ticks draw line 0) = Fin 5 /\
  logs (ticks draw line 0) = logs startTraining /\
  exists z z' : Z,
    progress (ticks draw line n) = Fin (IZR z) /\
    progress (ticks draw line (S n)) = Fin (IZR z') /\
    (5 <= z <= 101)%Z /\
    ((95 <= z)%Z -> z' = z) /\
    ((z < 95)%Z -> z' = (z + Zfloor (draw n * 8))%Z) /\
    (0 <= Zfloor (draw n * 8) <= 7)%Z /\
    logs (ticks draw line n)
    = skipn (3 + n - 6) (logs startTraining ++ map line (seq 0 n)) /\
    List.length (logs (ticks draw line n)) = Nat.min (3 + n) 6.
Proof.
  intros Hd. split; [reflexivity|]. split; [reflexivity|].
  destruct (ticks_progress draw line n Hd) as (z & Hz & Hr).
  destruct (tick_progress z (draw n) (Hd n) Hr)
    as (z' & E & Hfreeze & Hstep & Hfloor).
  exists z, z'. split; [exact Hz|].
  split; [cbn [ticks tick progress]; rewrite Hz; exact E|].
  split; [exact Hr|]. split; [exact Hfreeze|]. split; [exact Hstep|].
  split; [exact Hfloor|].
  split; [apply ticks_logs | apply ticks_logs_length].
Qed.

Lemma training_ticks_witness :
  exists z : Z,
    progress (ticks (fun _ => 0) (fun _ => EmptyString) 3) = Fin (IZR z) /\
    (5 <= z <= 101)%Z.
Proof.
  destruct (training_ticks (fun _ => 0) (fun _ => EmptyString) 3)
    as (_ & _ & z & z' & Hz & _ & Hr & _).
  - intros i. unfold unit_interval. lra.
  - exists z. split; [exact Hz | exact Hr].
Defined.

(** ** The tabs of the results panel *)

Section TabFacts.

Variable number_to_string : jsnum -> string.
Variable string_to_number : string -> jsnum.

Let simulate := simulateBackendTraining number_to_string string_to_number.

(** X20. For the bundle returned by any run, the results panel offers the
    tab [ml] first (the tab shown initially), then the projection and
    interpretability tabs, with the deep-learning tab in second place
    exactly for a DL model and the NLP tab in last place exactly for an NLP
    model; no tab comes twice. *)
Theorem availableTabs_of_run
    (dataset : Dataset) (modelConfig : ModelConfig)
    (preprocessing : PreprocessingConfig) (d : Draws) :
  exists res,
    simulate dataset modelConfig preprocessing d = Ok res /\
    let ids := map fst (availableTabs (Some res)) in
    ids = match category modelConfig with
          | ML => [ "ml"; "preprocessing"; "explainability" ]
          | DL => [ "ml"; "dl"; "preprocessing"; "explainability" ]
          | NLP => [ "ml"; "preprocessing"; "explainability"; "nlp" ]
          end%string /\
    nth_error ids 0 = Some "ml"%string /\
    NoDup ids /\
    (In "dl"%string ids <-> category modelConfig = DL) /\
    (In "nlp"%string ids <-> category modelConfig = NLP).
Proof.
  destruct (simulate_run number_to_string string_to_number
              dataset modelConfig preprocessing d)
    as (res & mc & a & Hres & _ & _ & _ & _ & _ & _ & _ & _ & _ & _ & _ & _ & _ & Hcat).
  exists res. split; [exact Hres|]. cbv zeta.
  unfold availableTabs. rewrite Hcat.
  destruct (category modelConfig); cbn.
  - split; [reflexivity|]. split; [reflexivity|].
    split.
    { repeat constructor; cbn; intuition discriminate. }
    split; split; intros H; try discriminate; intuition discriminate.
  - split; [reflexivity|]. split; [reflexivity|].
    split.
    { repeat constructor; cbn; intuition discriminate. }
    split; split; intros H; try discriminate; try reflexivity; intuition discriminate.
  - split; [reflexivity|]. split; [reflexivity|].
    split.
    { repeat constructor; cbn; intuition discriminate. }
    split; split; intros H; try discriminate; try reflexivity; intuition discriminate.
Qed.

End TabFacts.

(** ** The column shown by the analysis panel *)

Lemma filter_none {A : Type} (f : A -> bool) (l : list A) :
  (forall x, In x l -> f x = false) -> filter f l = [].
Proof.
  induction l as [|a l IH]; intros H; [reflexivity|].
  cbn [filter]. rewrite (H a) by (left; reflexivity).
  apply IH. intros x Hx. apply H. right. exact Hx.
Qed.

Lemma first_of_filter (f : DatasetColumn -> bool) (cols : list DatasetColumn)
    (d : string) :
  (0 <? List.length (map name (filter f cols)))%nat = true ->
  In (nth 0 (map name (filter f cols)) d) (map name cols).
Proof.
  intros H. apply Nat.ltb_lt in H.
  assert (Hin : In (nth 0 (map name (filter f cols)) d) (map name (filter f cols)))
    by (apply nth_In; exact H).
  apply in_map_iff in Hin. destruct Hin as [c [<- Hc]].
  apply filter_In in Hc. apply in_map. apply Hc.
Qed.

(** X21. With a dataset loaded, the effect of the analysis panel keeps a
    selection that names a column; otherwise it selects the first numeric
    column, or else the first string or boolean column.  So when some column
    has a type other than unknown, the selection afterwards names a column of
    the dataset; when every column is of type unknown, the selection is left
    as it was, even if it names no column.  Without dataset the selection is
    emptied. *)
Theorem resetSelectedColumn_valid (dataset : Dataset) (selectedColumn : string) :
  ((exists c, In c (columns dataset) /\ type c <> TUnknown) ->
   In (resetSelectedColumn (Some dataset) selectedColumn)
      (map name (columns dataset))) /\
  ((forall c, In c (columns dataset) -> type c = TUnknown) ->
   resetSelectedColumn (Some dataset) selectedColumn = selectedColumn) /\
  (selectedColumn <> EmptyString ->
   In selectedColumn (map name (columns dataset)) ->
   resetSelectedColumn (Some dataset) selectedColumn = selectedColumn) /\
  resetSelectedColumn None selectedColumn = EmptyString.
Proof.
  unfold resetSelectedColumn, getNumericalColumns, getCategoricalColumns.
  split; [|split; [|split; [|reflexivity]]].
  - intros [c [Hc Ht]].
    destruct (String.eqb selectedColumn "" ||
              negb (existsb (fun c0 => String.eqb (name c0) selectedColumn)
                      (columns dataset))) eqn:E.
    + destruct (0 <? List.length
                  (map name (filter (fun c0 => ColumnType_eqb (type c0) TNumber)
                               (columns dataset))))%nat eqn:E1.
      * apply first_of_filter. exact E1.
      * destruct (0 <? List.length
                    (map name
                       (filter (fun c0 => ColumnType_eqb (type c0) TString
                                          || ColumnType_eqb (type c0) TBoolean)
                          (columns dataset))))%nat eqn:E2.
        -- apply first_of_filter. exact E2.
        -- exfalso. apply Nat.ltb_ge in E1, E2.
           rewrite length_map in E1, E2.
           assert (N1 : ~ In c (filter (fun c0 => ColumnType_eqb (type c0) TNumber)
                                  (columns dataset))).
           { destruct (filter (fun c0 => ColumnType_eqb (type c0) TNumber)
                         (columns dataset)); [intros [] | cbn in E1; lia]. }
           assert (N2 : ~ In c (filter (fun c0 => ColumnType_eqb (type c0) TString
                                                  || ColumnType_eqb (type c0) TBoolean)
                                  (columns dataset))).
           { destruct (filter (fun c0 => ColumnType_eqb (type c0) TString
                                         || ColumnType_eqb (type c0) TBoolean)
                         (columns dataset)); [intros [] | cbn in E2; lia]. }
           rewrite filter_In in N1, N2.
           destruct (type c) eqn:Et.
           ++ apply N2. split; [exact Hc | reflexivity].
           ++ apply N1. split; [exact Hc | reflexivity].
           ++ apply N2. split; [exact Hc | reflexivity].
           ++ apply Ht. reflexivity.
    + apply Bool.orb_false_iff in E. destruct E as [_ E].
      apply Bool.negb_false_iff in E. apply existsb_exists in E.
      destruct E as [c0 [Hc0 He]]. apply String.eqb_eq in He. subst.
      apply in_map. exact Hc0.
  - intros Hall.
    assert (F1 : filter (fun c0 => ColumnType_eqb (type c0) TNumber)
                   (columns dataset) = []).
    { apply filter_none. intros c Hc. rewrite (Hall c Hc). reflexivity. }
    assert (F2 : filter (fun c0 => ColumnType_eqb (type c0) TString
                                   || ColumnType_eqb (type c0) TBoolean)
                   (columns dataset) = []).
    { apply filter_none. intros c Hc. rewrite (Hall c Hc). reflexivity. }
    rewrite F1, F2. cbn.
    destruct (String.eqb selectedColumn "" ||
              negb (existsb (fun c0 => String.eqb (name c0) selectedColumn)
                      (columns dataset))); reflexivity.
  - intros Hne Hin.
    apply String.eqb_neq in Hne. rewrite Hne. cbn [orb].
    assert (E : existsb (fun c0 => String.eqb (name c0) selectedColumn)
                  (columns dataset) = true).
    { apply existsb_exists. apply in_map_iff in Hin.
      destruct Hin as [c [Hn Hc]]. exists c. split; [exact Hc|].
      apply String.eqb_eq. exact Hn. }
    rewrite E. reflexivity.
Qed.

(** ** The CSV parser *)

Lemma get_assign (r : Row) (k k' : string) (v : value) :
  get (assign r k v) k' = if String.eqb k k' then v else get r k'.
Proof.
  induction r as [|[k0 v0] r IH].
  - cbn. reflexivity.
  - cbn [assign]. destruct (String.eqb k0 k) eqn:E0.
    + apply String.eqb_eq in E0. subst k0. cbn [get].
      destruct (String.eqb k k'); reflexivity.
    + cbn [get]. rewrite IH.
      destruct (String.eqb k0 k') eqn:E1; [|reflexivity].
      apply String.eqb_eq in E1. subst k'. rewrite String.eqb_sym, E0.
      reflexivity.
Qed.

Lemma distinct_length_from (l acc : list value) :
  (List.length (fold_left set_add l acc) <= List.length acc + List.length l)%nat.
Proof.
  revert acc. induction l as [|v l IH]; intros acc; cbn [fold_left List.length];
    [lia|].
  specialize (IH (set_add acc v)).
  assert (H : (List.length (set_add acc v) <= S (List.length acc))%nat).
  { unfold set_add. destruct (existsb (same_value_zero v) acc); [lia|].
    rewrite length_app. cbn. lia. }
  lia.
Qed.

Lemma distinct_length (l : list value) :
  (List.length (distinct l) <= List.length l)%nat.
Proof. apply (distinct_length_from l []). Qed.

Lemma typeOfFirst_parsed (values : list value) :
  Forall parsed_cell values ->
  let t := typeOfFirst (find (fun v => negb (is_missing v)) values) in
  t = TNumber \/ t = TString.
Proof.
  intros H. cbv zeta.
  destruct (find (fun v => negb (is_missing v)) values) as [v|] eqn:E;
    [|right; reflexivity].
  apply find_some in E. destruct E as [Hin _].
  rewrite Forall_forall in H. specialize (H v Hin).
  destruct v; cbn in H |- *; auto. contradiction.
Qed.

Section ParserFacts.

Variable split_lines : string -> list string.
Variable trim : string -> string.
Variable split_comma : string -> list string.
Variable unquote : string -> string.
Variable parseFloat : string -> jsnum.

Let fieldsOf := fields trim split_comma unquote.
Let cellOf := cell parseFloat.
Let rowOf := parseRow trim split_comma unquote parseFloat.
Let columnOf := parseColumn.
Let parse := parseCSV split_lines trim split_comma unquote parseFloat.

Lemma cell_parsed (val : option string) : parsed_cell (cellOf val).
Proof.
  unfold cellOf, cell. destruct val as [s|].
  - destruct (isNaN (parseFloat s)) eqn:E; cbn [negb andb]; [exact I|].
    destruct (negb (String.eqb s "")); [exact E | exact I].
  - cbn. exact I.
Qed.

Lemma fold_assign_parsed (values : list string) (his : list (string * nat))
    (r : Row) (k : string) :
  parsed_cell (get r k) ->
  parsed_cell
    (get (fold_left (fun row hi => assign row (fst hi) (cellOf (nth_error values (snd hi))))
            his r) k).
Proof.
  revert r. induction his as [|[h i] his IH]; intros r Hr; [exact Hr|].
  cbn [fold_left fst snd]. apply IH. rewrite get_assign.
  destruct (String.eqb h k); [apply cell_parsed | exact Hr].
Qed.

Lemma fold_assign_other (values : list string) (headers : list string)
    (start : nat) (r : Row) (k : string) :
  ~ In k headers ->
  get (fold_left (fun row hi => assign row (fst hi) (cellOf (nth_error values (snd hi))))
         (combine headers (seq start (List.length headers))) r) k
  = get r k.
Proof.
  revert start r. induction headers as [|h hs IH]; intros start r Hk;
    [reflexivity|].
  cbn [List.length seq combine fold_left fst snd].
  rewrite IH by (intros H; apply Hk; right; exact H).
  rewrite get_assign.
  destruct (String.eqb h k) eqn:E; [|reflexivity].
  apply String.eqb_eq in E. exfalso. apply Hk. left. exact E.
Qed.

Lemma fold_assign_at (values : list string) (headers : list string)
    (start : nat) (r : Row) (i : nat) (h : string) :
  NoDup headers -> nth_error headers i = Some h ->
  get (fold_left (fun row hi => assign row (fst hi) (cellOf (nth_error values (snd hi))))
         (combine headers (seq start (List.length headers))) r) h
  = cellOf (nth_error values (start + i)).
Proof.
  revert start r i. induction headers as [|h0 hs IH]; intros start r i Hnd Hi.
  - destruct i; discriminate.
  - inversion Hnd as [|h0' hs' Hnot Hnd']; subst.
    cbn [List.length seq combine fold_left fst snd].
    destruct i as [|i].
    + cbn in Hi. injection Hi as ->.
      rewrite fold_assign_other by exact Hnot.
      rewrite get_assign, String.eqb_refl, Nat.add_0_r. reflexivity.
    + cbn in Hi. rewrite (IH (S start) _ i Hnd' Hi).
      do 2 f_equal. lia.
Qed.

Lemma parseRow_parsed (headers : list string) (line k : string) :
  parsed_cell (get (rowOf headers line) k).
Proof.
  unfold rowOf, parseRow. apply fold_assign_parsed. exact I.
Qed.

Lemma parseColumn_facts (rawData : list Row) (header : string) :
  (forall row k, In row rawData -> parsed_cell (get row k)) ->
  let col := columnOf rawData header in
  name col = header /\
  (type col = TNumber \/ type col = TString) /\
  (missingCount col <= List.length rawData)%nat /\
  (uniqueCount col <= List.length rawData)%nat.
Proof.
  intros Hrows. cbv zeta. unfold columnOf, parseColumn.
  cbn [name type missingCount uniqueCount].
  split; [reflexivity|]. split; [|split].
  - apply typeOfFirst_parsed. rewrite Forall_forall. intros v Hv.
    apply in_map_iff in Hv. destruct Hv as [row [<- Hrow]].
    apply Hrows. exact Hrow.
  - pose proof (filter_length_le is_missing
                  (map (fun row => get row header) rawData)) as H.
    rewrite length_map in H. exact H.
  - pose proof (distinct_length (map (fun row => get row header) rawData)) as H.
    rewrite length_map in H. exact H.
Qed.

Lemma typed_columns_count (cols : list DatasetColumn) :
  (forall c, In c cols -> type c = TNumber \/ type c = TString) ->
  (List.length (filter (fun c => ColumnType_eqb (type c) TNumber) cols)
   + List.length (filter (fun c => ColumnType_eqb (type c) TString
                                   || ColumnType_eqb (type c) TBoolean) cols)
   = List.length cols)%nat.
Proof.
  induction cols as [|c cols IH]; intros H; [reflexivity|].
  cbn [filter List.length].
  specialize (IH (fun c' Hc' => H c' (or_intror Hc'))).
  destruct (H c (or_introl eq_refl)) as [E | E]; rewrite E; cbn; lia.
Qed.

(** X22. [parseCSV] throws on a content without non-blank line.  Otherwise
    it returns a dataset named after the file, with one column per header
    field, in order, and one row per further non-blank line.  When no header
    is [__proto__]: every cell read at a header is a number other than NaN, a
    string or [undefined]; every column is of type number or string, never
    boolean or unknown, so that the numeric and the categorical columns
    together are all the columns; its counts of missing and of distinct
    cells do not exceed the number of rows; and with distinct headers the
    cell of row [j] at header [i] is the one made from field [i] of line
    [j]. *)
Theorem parseCSV_dataset (content filename : string) :
  let lines := filter (fun line => negb (String.eqb (trim line) ""))
                 (split_lines content) in
  (lines = [] -> parse content filename = Throw "Empty CSV file") /\
  (forall first rest,
     lines = first :: rest ->
     exists ds,
       parse content filename = Ok ds /\
       dataset_name ds = filename /\
       map name (columns ds) = fieldsOf first /\
       List.length (rows ds) = List.length rest /\
       totalRows ds = List.length rest /\
       (~ In "__proto__"%string (fieldsOf first) ->
        (forall row h, In row (rows ds) -> In h (fieldsOf first) ->
           parsed_cell (get row h)) /\
        (forall col, In col (columns ds) ->
           (type col = TNumber \/ type col = TString) /\
           (missingCount col <= totalRows ds)%nat /\
           (uniqueCount col <= totalRows ds)%nat) /\
        (List.length (getNumericalColumns ds)
         + List.length (getCategoricalColumns ds)
         = List.length (columns ds))%nat /\
        (NoDup (fieldsOf first) ->
         forall i h j line,
           nth_error (fieldsOf first) i = Some h ->
           nth_error rest j = Some line ->
           exists row,
             nth_error (rows ds) j = Some row /\
             get row h = cellOf (nth_error (fieldsOf line) i)))).
Proof.
  cbv zeta. unfold parse, parseCSV.
  set (lines := filter (fun line => negb (String.eqb (trim line) ""))
                  (split_lines content)).
  split.
  - intros ->. reflexivity.
  - intros first rest ->. fold fieldsOf. fold rowOf.
    set (headers := fieldsOf first).
    set (rawData := map (rowOf headers) rest).
    eexists. split; [reflexivity|].
    cbn [dataset_name columns rows totalRows].
    assert (Hcells : forall row k, In row rawData -> parsed_cell (get row k)).
    { intros row k Hrow. unfold rawData in Hrow. apply in_map_iff in Hrow.
      destruct Hrow as [line [<- _]]. apply parseRow_parsed. }
    assert (Hcols : forall col, In col (map (parseColumn rawData) headers) ->
              (type col = TNumber \/ type col = TString) /\
              (missingCount col <= List.length rawData)%nat /\
              (uniqueCount col <= List.length rawData)%nat).
    { intros col Hcol. apply in_map_iff in Hcol. destruct Hcol as [h [<- _]].
      destruct (parseColumn_facts rawData h Hcells) as (_ & H1 & H2 & H3).
      auto. }
    split; [reflexivity|].
    split.
    { rewrite map_map. cbn [parseColumn name]. apply map_id. }
    split; [unfold rawData; apply length_map|].
    split; [unfold rawData; apply length_map|].
    intros _.
    split; [intros row h Hrow _; apply Hcells; exact Hrow|].
    split; [exact Hcols|].
    split.
    { unfold getNumericalColumns, getCategoricalColumns.
      cbn [columns]. rewrite !length_map.
      rewrite typed_columns_count; [apply length_map|].
      intros c Hc. apply Hcols. exact Hc. }
    intros Hnd i h j line Hi Hj.
    exists (rowOf headers line). split.
    + unfold rawData. rewrite nth_error_map, Hj. reflexivity.
    + unfold rowOf, parseRow. fold cellOf. fold fieldsOf.
      rewrite (fold_assign_at _ headers 0 [] i h Hnd Hi). reflexivity.
Qed.

End ParserFacts.

(** ** Value counts *)

Lemma lookup_count_key (o : list (string * nat)) (k k' : string) :
  lookup (count_key o k) k'
  = (lookup o k' + (if String.eqb k k' then 1 else 0))%nat.
Proof.
  induction o as [|[k0 c] o IH].
  - cbn. destruct (String.eqb k k'); reflexivity.
  - cbn [count_key]. destruct (String.eqb k0 k) eqn:E0.
    + apply String.eqb_eq in E0. subst k0. cbn [lookup].
      destruct (String.eqb k k'); lia.
    + cbn [lookup]. rewrite IH.
      destruct (String.eqb k0 k') eqn:E1; [|reflexivity].
      apply String.eqb_eq in E1. subst k'. rewrite String.eqb_sym, E0. lia.
Qed.

Lemma keys_count_key (o : list (string * nat)) (k k' : string) :
  In k' (map fst (count_key o k)) <-> k' = k \/ In k' (map fst o).
Proof.
  induction o as [|[k0 c] o IH].
  - cbn. intuition.
  - cbn [count_key]. destruct (String.eqb k0 k) eqn:E0.
    + apply String.eqb_eq in E0. subst k0. cbn. intuition.
    + cbn [map fst In]. rewrite IH. intuition.
Qed.

Lemma NoDup_count_key (o : list (string * nat)) (k : string) :
  NoDup (map fst o) -> NoDup (map fst (count_key o k)).
Proof.
  induction o as [|[k0 c] o IH]; intros H.
  - cbn. repeat constructor. intros [].
  - inversion H as [|k0' l Hnot Hnd]; subst.
    cbn [count_key]. destruct (String.eqb k0 k) eqn:E0.
    + cbn [map fst]. constructor; assumption.
    + cbn [map fst]. constructor; [|apply IH; exact Hnd].
      rewrite keys_count_key. intros [-> | Hin]; [|contradiction].
      rewrite String.eqb_refl in E0. discriminate.
Qed.

Lemma totalOf_count_key (o : list (string * nat)) (k : string) :
  totalOf (count_key o k) = S (totalOf o).
Proof.
  induction o as [|[k0 c] o IH]; [reflexivity|].
  cbn [count_key]. destruct (String.eqb k0 k); cbn [totalOf snd]; [lia|].
  rewrite IH. lia.
Qed.

Lemma length_count_key (o : list (string * nat)) (k : string) :
  (List.length (count_key o k) <= S (List.length o))%nat.
Proof.
  induction o as [|[k0 c] o IH]; [cbn; lia|].
  cbn [count_key]. destruct (String.eqb k0 k); cbn [List.length]; lia.
Qed.

Lemma lookup_In (o : list (string * nat)) (e : string * nat) :
  NoDup (map fst o) -> In e o -> lookup o (fst e) = snd e.
Proof.
  induction o as [|[k0 c] o IH]; intros Hnd Hin; [destruct Hin|].
  inversion Hnd as [|k0' l Hnot Hnd']; subst. cbn [lookup].
  destruct Hin as [<- | Hin].
  - cbn [fst snd]. rewrite String.eqb_refl. reflexivity.
  - destruct (String.eqb k0 (fst e)) eqn:E; [|apply IH; assumption].
    apply String.eqb_eq in E. subst k0. exfalso. apply Hnot.
    apply in_map. exact Hin.
Qed.

(** The tally after counting the keys [ks], from the tally [o]. *)
Lemma tally_from (ks : list string) (o : list (string * nat)) :
  NoDup (map fst o) ->
  let o' := fold_left count_key ks o in
  NoDup (map fst o') /\
  (forall k, lookup o' k = (lookup o k + count_occ string_dec ks k)%nat) /\
  (forall k, In k (map fst o') <-> In k ks \/ In k (map fst o)) /\
  totalOf o' = (totalOf o + List.length ks)%nat /\
  (List.length o' <= List.length o + List.length ks)%nat.
Proof.
  revert o. induction ks as [|k ks IH]; intros o Hnd; cbv zeta.
  - cbn. repeat split; try lia; intuition.
  - cbn [fold_left].
    destruct (IH (count_key o k) (NoDup_count_key o k Hnd))
      as (H1 & H2 & H3 & H4 & H5).
    split; [exact H1|]. split; [|split; [|split]].
    + intros k'. rewrite H2, lookup_count_key. cbn [count_occ].
      destruct (string_dec k k') as [-> | Hne].
      * rewrite String.eqb_refl. lia.
      * apply String.eqb_neq in Hne. rewrite Hne. lia.
    + intros k'. rewrite H3, keys_count_key. cbn [In]. intuition.
    + rewrite H4, totalOf_count_key. cbn [List.length]. lia.
    + pose proof (length_count_key o k). cbn [List.length]. lia.
Qed.

Lemma insert_index_perm (e : N * (string * nat)) (l : list (N * (string * nat))) :
  Permutation (insert_index e l) (e :: l).
Proof.
  induction l as [|e' l IH]; cbn [insert_index]; [reflexivity|].
  destruct (fst e <? fst e')%N; [reflexivity|].
  rewrite IH. apply perm_swap.
Qed.

Lemma index_entries_perm (o : list (string * nat)) :
  Permutation (map snd (index_entries o)) (filter is_index_key o).
Proof.
  induction o as [|e o IH]; [reflexivity|].
  cbn [index_entries filter]. unfold is_index_key at 1.
  destruct (array_index_key (fst e)); [|exact IH].
  rewrite (Permutation_map snd (insert_index_perm _ _)).
  cbn [map snd]. constructor. exact IH.
Qed.

Lemma filter_split_perm {A : Type} (f : A -> bool) (l : list A) :
  Permutation (filter f l ++ filter (fun x => negb (f x)) l) l.
Proof.
  induction l as [|a l IH]; [reflexivity|].
  cbn [filter]. destruct (f a); cbn [negb app].
  - constructor. exact IH.
  - apply Permutation_sym. apply Permutation_cons_app.
    apply Permutation_sym. exact IH.
Qed.

Lemma Object_entries_perm (o : list (string * nat)) :
  Permutation (Object_entries o) o.
Proof.
  unfold Object_entries. rewrite index_entries_perm. apply filter_split_perm.
Qed.

Lemma byCount_pos (a b : string * nat) :
  is_pos (byCount a b) = true <-> (snd a < snd b)%nat.
Proof.
  unfold byCount. cbn [sub neg add is_pos]. unfold Rltb.
  destruct (Rlt_dec 0 (INR (snd b) + - INR (snd a))) as [H | H]; split;
    intros H'; try reflexivity; try discriminate.
  - apply INR_lt. lra.
  - exfalso. apply H. apply lt_INR in H'. lra.
Qed.

Lemma sort_insert_counts (a : string * nat) (l : list (string * nat)) :
  StronglySorted countsBefore l ->
  StronglySorted countsBefore (sort_insert byCount a l).
Proof.
  intros Hs. induction Hs as [|b l Hs IH Hb]; cbn [sort_insert].
  - repeat constructor.
  - destruct (is_pos (byCount a b)) eqn:E.
    + apply byCount_pos in E. constructor; [exact IH|].
      apply (Forall_perm _ (a :: l)).
      * symmetry. apply sort_insert_perm.
      * constructor; [unfold countsBefore; lia | exact Hb].
    + assert (Hle : (snd b <= snd a)%nat).
      { destruct (le_lt_dec (snd b) (snd a)) as [H | H]; [exact H|].
        apply byCount_pos in H. congruence. }
      constructor; [constructor; assumption|].
      constructor; [exact Hle|].
      rewrite Forall_forall in Hb |- *. intros x Hx.
      specialize (Hb x Hx). unfold countsBefore in *. lia.
Qed.

Lemma sort_counts (l : list (string * nat)) :
  StronglySorted countsBefore (sort byCount l).
Proof.
  induction l as [|a l IH]; cbn [sort]; [constructor|].
  apply sort_insert_counts. exact IH.
Qed.

Lemma sorted_split {A : Type} (R : A -> A -> Prop) (l : list A) (n : nat) :
  StronglySorted R l ->
  StronglySorted R (firstn n l) /\
  forall a b, In a (firstn n l) -> In b (skipn n l) -> R a b.
Proof.
  intros Hs. revert n. induction Hs as [|x l Hs IH Hx]; intros n.
  - rewrite firstn_nil, skipn_nil. split; [constructor | intros a b []].
  - destruct n as [|n].
    + cbn. split; [constructor | intros a b []].
    + destruct (IH n) as [H1 H2]. cbn [firstn skipn]. split.
      * constructor; [exact H1|]. rewrite Forall_forall in Hx |- *.
        intros y Hy. apply Hx.
        rewrite <- (firstn_skipn n l). apply in_or_app. left. exact Hy.
      * intros a b [<- | Ha] Hb; [|apply H2; assumption].
        rewrite Forall_forall in Hx. apply Hx.
        rewrite <- (firstn_skipn n l). apply in_or_app. right. exact Hb.
Qed.

Lemma totalValue_entries (l : list (string * nat)) :
  totalValue (map (fun e => {| vc_name := fst e; vc_value := snd e |}) l)
  = totalOf l.
Proof.
  induction l as [|e l IH]; [reflexivity|].
  cbn [map totalValue totalOf vc_value]. rewrite IH. reflexivity.
Qed.

Lemma totalOf_perm (l l' : list (string * nat)) :
  Permutation l l' -> totalOf l = totalOf l'.
Proof.
  intros H. induction H; cbn [totalOf]; lia.
Qed.

Section ValueCountFacts.

Variable number_to_string : jsnum -> string.

Let keyOf := value_key number_to_string.
Let countsOf := calculateValueCounts number_to_string.

(** X23. [calculateValueCounts], on a column none of whose cells is
    rendered as the name of a property of [Object.prototype]: the result
    has at most [limit] entries, under distinct names; each entry counts the
    rows whose cell is rendered as its name, the cells that are null,
    undefined or the empty string being rendered as Missing; the entries
    come by non-increasing count, and a name left out occurs no more often
    than any name kept; with a limit of at least the number of rows nothing
    is left out and the counts add up to the number of rows. *)
Theorem calculateValueCounts_tally
    (dataset : Dataset) (columnName : string) (limit : nat) :
  (forall r, In r (rows dataset) ->
             ~ In (keyOf (get r columnName)) prototype_keys) ->
  let keys := map (fun r => keyOf (get r columnName)) (rows dataset) in
  let result := countsOf dataset columnName limit in
  (List.length result <= limit)%nat /\
  NoDup (map vc_name result) /\
  (forall e, In e result ->
     In (vc_name e) keys /\
     vc_value e = count_occ string_dec keys (vc_name e)) /\
  StronglySorted (fun a b => (vc_value b <= vc_value a)%nat) result /\
  (forall k e, In k keys -> ~ In k (map vc_name result) -> In e result ->
     (count_occ string_dec keys k <= vc_value e)%nat) /\
  ((List.length (rows dataset) <= limit)%nat ->
   totalValue result = List.length (rows dataset) /\
   forall k, In k keys -> In k (map vc_name result)).
Proof.
  intros _. cbv zeta.
  unfold countsOf, calculateValueCounts, tally.
  set (keys := map (fun r => keyOf (get r columnName)) (rows dataset)).
  assert (Et : fold_left
                 (fun counts r =>
                    count_key counts (value_key number_to_string (get r columnName)))
                 (rows dataset) []
               = fold_left count_key keys []).
  { unfold keys. generalize (@nil (string * nat)).
    induction (rows dataset) as [|r rs IH]; intros o; [reflexivity|].
    cbn [fold_left map]. apply IH. }
  rewrite Et. clear Et.
  destruct (tally_from keys [] (NoDup_nil _)) as (Hnd & Hlook & Hkeys & Htot & Hlen).
  cbv zeta in Hnd, Hlook, Hkeys, Htot, Hlen.
  set (o := fold_left count_key keys []) in *.
  set (sorted := sort byCount (Object_entries o)).
  assert (Hperm : Permutation sorted o).
  { unfold sorted. rewrite sort_perm. apply Object_entries_perm. }
  assert (Hsorted : StronglySorted countsBefore sorted) by apply sort_counts.
  destruct (sorted_split countsBefore sorted limit Hsorted) as [Hfirst Hrest].
  assert (Hnd' : NoDup (map fst sorted)).
  { apply (Permutation_NoDup (l := map fst o));
      [apply Permutation_map; symmetry; exact Hperm | exact Hnd]. }
  assert (Hin : forall e, In e (firstn limit sorted) -> In e o).
  { intros e He. apply (Permutation_in e Hperm).
    rewrite <- (firstn_skipn limit sorted). apply in_or_app. left. exact He. }
  assert (Hval : forall e, In e o ->
            In (fst e) keys /\ snd e = count_occ string_dec keys (fst e)).
  { intros e He. split.
    - destruct (Hkeys (fst e)) as [H _].
      destruct (H (in_map fst _ _ He)) as [Hk | []]. exact Hk.
    - rewrite <- (lookup_In o e Hnd He), Hlook. reflexivity. }
  split.
  { rewrite length_map, length_firstn. lia. }
  split.
  { rewrite map_map. cbn [vc_name].
    rewrite <- (firstn_skipn limit sorted), map_app in Hnd'.
    apply NoDup_app_remove_r in Hnd'. exact Hnd'. }
  split.
  { intros e He. apply in_map_iff in He. destruct He as [e0 [<- He0]].
    cbn [vc_name vc_value]. apply Hval. apply Hin. exact He0. }
  split.
  { clear -Hfirst. induction Hfirst as [|a l Hs IH Ha]; cbn [map]; constructor.
    - exact IH.
    - rewrite Forall_forall in Ha |- *. intros x Hx.
      apply in_map_iff in Hx. destruct Hx as [b [<- Hb]].
      cbn [vc_value]. apply Ha. exact Hb. }
  split.
  { intros k e Hk Hout He.
    apply in_map_iff in He. destruct He as [e0 [<- He0]]. cbn [vc_value].
    assert (Hko : In k (map fst o)) by (apply Hkeys; left; exact Hk).
    apply in_map_iff in Hko. destruct Hko as [ek [Hfk Hek]].
    assert (Hes : In ek sorted) by (apply (Permutation_in ek (Permutation_sym Hperm)); exact Hek).
    rewrite <- (firstn_skipn limit sorted) in Hes. apply in_app_or in Hes.
    destruct Hes as [Hes | Hes].
    - exfalso. apply Hout. rewrite map_map. cbn [vc_name].
      rewrite <- Hfk. apply in_map. exact Hes.
    - pose proof (Hrest e0 ek He0 Hes) as Hle. unfold countsBefore in Hle.
      destruct (Hval ek Hek) as [_ Hc]. rewrite Hfk in Hc. lia. }
  intros Hlimit.
  assert (Hall : firstn limit sorted = sorted).
  { apply firstn_all2. rewrite (Permutation_length Hperm). unfold keys in Hlen.
    rewrite length_map in Hlen. cbn [List.length] in Hlen. lia. }
  rewrite Hall. split.
  - rewrite totalValue_entries, (totalOf_perm _ _ Hperm), Htot.
    unfold keys. rewrite length_map. reflexivity.
  - intros k Hk. rewrite map_map. cbn [vc_name].
    assert (Hko : In k (map fst o)) by (apply Hkeys; left; exact Hk).
    apply (Permutation_in k (Permutation_map fst (Permutation_sym Hperm))).
    exact Hko.
Qed.

End ValueCountFacts.

Lemma calculateValueCounts_tally_witness :
  calculateValueCounts unrendered pets "pet" 10
  = [ {| vc_name := "cat"; vc_value := 2 |};
      {| vc_name := "Missing"; vc_value := 2 |};
      {| vc_name := "dog"; vc_value := 1 |} ]%string /\
  totalValue (calculateValueCounts unrendered pets "pet" 10) = 5%nat.
Proof.
  destruct (calculateValueCounts_tally unrendered pets "pet" 10)
    as (_ & _ & _ & _ & _ & H).
  - intros r Hr. cbn in Hr.
    repeat (destruct Hr as [<- | Hr];
            [cbn; intuition discriminate|]).
    destruct Hr.
  - split.
    + unfold calculateValueCounts, tally. cbn [rows pets fold_left get].
      cbn -[sort Object_entries byCount].
      unfold Object_entries. cbn -[sort byCount].
      unfold sort, sort_insert, byCount.
      cbn [snd sub neg add is_pos].
      repeat match goal with
             | |- context [Rltb ?a ?b] =>
                 first [ rewrite (Rltb_true a b) by (simpl; lra)
                       | rewrite (Rltb_false a b) by (simpl; lra) ]
             end.
      reflexivity.
    + apply H. cbn. lia.
Defined.

(** ** The bundle in full *)

Lemma redraw_total (s : nat -> R) (fuel pos : nat) :
  (exists k, (k < fuel)%nat /\ s (pos + k)%nat <> 0) ->
  exists u pos', redraw_while_zero s fuel 0 pos = Some (u, pos').
Proof.
  revert pos. induction fuel as [|fuel IH]; intros pos [k [Hk Hs]]; [lia|].
  rewrite redraw_step.
  destruct (Req_dec_T (s pos) 0) as [E | E].
  - rewrite E. apply IH. destruct k as [|k].
    + rewrite Nat.add_0_r in Hs. contradiction.
    + exists k. split; [lia|].
      replace (S pos + k)%nat with (pos + S k)%nat by lia. exact Hs.
  - rewrite redraw_nonzero by exact E. eauto.
Qed.

Lemma randn_bm_total (s : nat -> R) (fuel pos : nat) :
  fair s fuel -> exists z pos', randn_bm s fuel pos = Some (z, pos').
Proof.
  intros Hf. unfold randn_bm, gbind.
  destruct (redraw_total s fuel pos (Hf pos)) as (u & p1 & E1). rewrite E1.
  destruct (redraw_total s fuel p1 (Hf p1)) as (v & p2 & E2). rewrite E2.
  unfold gret. eauto.
Qed.

Lemma residualsLoop_total (s : nat -> R) (fuel n : nat) :
  fair s fuel ->
  forall pos, exists pts pos', residualsLoop s fuel n pos = Some (pts, pos').
Proof.
  intros Hf. induction n as [|n IH]; intros pos.
  - cbn. unfold gret. eauto.
  - cbn [residualsLoop]. unfold gbind, Math_random.
    destruct (randn_bm_total s fuel (S pos) Hf) as (z & p1 & E1). rewrite E1.
    destruct (IH p1) as (rest & p2 & E2). rewrite E2. unfold gret. eauto.
Qed.

Lemma projectionLoop_total (s : nat -> R) (fuel : nat) (separation spread : jsnum)
    (n : nat) :
  fair s fuel ->
  forall i pos, exists pts pos',
    projectionLoop s fuel separation spread n i pos = Some (pts, pos').
Proof.
  intros Hf. induction n as [|n IH]; intros i pos.
  - cbn. unfold gret. eauto.
  - cbn [projectionLoop].
    destruct (randn_bm_total s fuel pos Hf) as (z1 & p1 & E1).
    destruct (randn_bm_total s fuel p1 Hf) as (z2 & p2 & E2).
    destruct (IH (S i) (S p2)) as (rest & p3 & E3).
    destruct (i <? 75)%nat; unfold gbind, Math_random; rewrite E1, E2;
      unfold gret; rewrite E3; eauto.
Qed.

Lemma halves_fair : fair halves 1.
Proof. intros pos. exists 0%nat. split; [lia | apply halves_nonzero]. Qed.

Lemma halfCharts_ok : charts_ok halfCharts.
Proof. constructor; intros i; apply halves_unit. Qed.

Lemma halfCharts_fair : charts_fair halfCharts 1.
Proof. repeat split; apply halves_fair. Qed.

(** Without ranked feature the target accuracy is the base accuracy of the
    model plus the draw, no clamp being reached. *)
Lemma baseline_accuracy (modelConfig : ModelConfig) (d : Draws) :
  unit_interval (draw_accuracy d) ->
  let b := (if isDL modelConfig then 0.88 else 0.82)
           + (if tuning_enabled (tuning modelConfig) then 0.05 else 0) in
  baseAccuracy modelConfig = Fin b /\
  actualAccuracy modelConfig (Fin 0.5) d = Fin (b + draw_accuracy d * 0.05) /\
  0.82 <= b + draw_accuracy d * 0.05 < 0.98.
Proof.
  intros Hd b. unfold unit_interval in Hd.
  assert (Hb : baseAccuracy modelConfig = Fin b).
  { unfold baseAccuracy, b.
    destruct (isDL modelConfig), (tuning_enabled (tuning modelConfig));
      cbn [add]; f_equal; lra. }
  assert (Hr : 0.82 <= b + draw_accuracy d * 0.05 < 0.98).
  { unfold b. destruct (isDL modelConfig), (tuning_enabled (tuning modelConfig)); lra. }
  split; [exact Hb|]. split; [|exact Hr].
  unfold actualAccuracy, accuracyModifier. rewrite Hb.
  cbn [sub neg add mul]. rewrite Math_max_fin, Math_min_fin. f_equal.
  clearbody b.
  assert (E : forall x, x = b + draw_accuracy d * 0.05 ->
            Rmin 0.99 (Rmax 0.6 x) = b + draw_accuracy d * 0.05).
  { intros x ->. rewrite Rmax_right by lra. rewrite Rmin_right by lra. reflexivity. }
  apply E. lra.
Qed.

Section BundleFacts.

Variable number_to_string : jsnum -> string.
Variable string_to_number : string -> jsnum.

Let rank := calculateFeatureImpacts number_to_string string_to_number.
Let simulate := simulateBackendTraining number_to_string string_to_number.
Let bundleOf := simulateBackendTrainingBundle number_to_string string_to_number.

(** The bundle in full is the bundle of [simulateBackendTraining] with the
    chart series added, once the four series that call [randn_bm] are
    computed; it is never a thrown error. *)
Lemma bundle_run (dataset : Dataset) (modelConfig : ModelConfig)
    (preprocessing : PreprocessingConfig) (d : Draws) (c : ChartDraws) (fuel : nat) :
  exists res mc a,
    simulate dataset modelConfig preprocessing d = Ok res /\
    maxCorrelation (rank dataset (targetColumn modelConfig)) = Ok mc /\
    actualAccuracy modelConfig mc d = Fin a /\
    expl_modelName (explanation res) = modelName modelConfig /\
    expl_accuracyPercent (explanation res)
    = toFixed 1 (mul (accuracy (metrics res)) (Fin 100)) /\
    expl_kFold (explanation res)
    = (if cv_enabled (crossValidation modelConfig)
       then Some (kFold (crossValidation modelConfig)) else None) /\
    expl_tp (explanation res) = Fin (IZR (tpZ a d)) /\
    expl_tn (explanation res) = Fin (IZR (tnZ a d)) /\
    bundleOf dataset modelConfig preprocessing d c fuel
    = match generateProjection (draw_pca c) fuel
              (Fin (2 * (IZR (totalCorrectZ a) / 200))) (Fin 1.5) 0%nat with
      | None => None
      | Some (pcaComponents, _) =>
      match generateProjection (draw_tsne c) fuel
              (Fin (4 * (IZR (totalCorrectZ a) / 200))) (Fin 0.8) 0%nat with
      | None => None
      | Some (tsneComponents, _) =>
      match generateProjection (draw_umap c) fuel
              (Fin (5 * (IZR (totalCorrectZ a) / 200))) (Fin 0.5) 0%nat with
      | None => None
      | Some (umapComponents, _) =>
      match residuals (draw_residuals c) fuel 0%nat with
      | None => None
      | Some (points, _) =>
          Some (Ok {| bundle_result := res;
                      bundle_rocCurve := rocCurve (accuracy (metrics res));
                      bundle_precisionRecallCurve := prCurve (accuracy (metrics res));
                      bundle_residuals := points;
                      bundle_learningCurve := learningCurve (accuracy (metrics res));
                      bundle_layerActivations := layerActivations (draw_activations c);
                      bundle_pcaComponents := pcaComponents;
                      bundle_tsneComponents := tsneComponents;
                      bundle_umapComponents := umapComponents;
                      bundle_wordCloud := wordCloud (draw_words c) |})
      end end end end.
Proof.
  unfold simulate, bundleOf, simulateBackendTraining, simulateBackendTrainingBundle.
  fold (rank dataset (targetColumn modelConfig)).
  destruct (maxCorrelation_ok _
              (calculateFeatureImpacts_notNaN number_to_string string_to_number
                 dataset (targetColumn modelConfig)))
    as [mc [Emc Hmc]].
  fold rank in Emc. rewrite Emc. cbn [bind].
  destruct (actualAccuracy_clamped modelConfig mc d Hmc) as [a [Ea Ha]].
  rewrite Ea. rewrite counts_fin. cbn [tp fp fn tn].
  rewrite raw_accuracy. cbn [mul].
  set (shap := explainShap (firstn 8 (rank dataset (targetColumn modelConfig))) d).
  destruct (featNameAt_ok shap 0 "Feature X") as [n1 E1].
  destruct (featNameAt_ok shap 1 "Feature Y") as [n2 E2].
  rewrite E1, E2. cbn [bind].
  eexists. exists mc, a.
  split; [reflexivity|].
  cbn [metrics explanation expl_modelName expl_accuracyPercent expl_kFold
       expl_tp expl_tn].
  repeat (split; [first [reflexivity | assumption]|]).
  repeat match goal with
         | |- context [match ?g with Some _ => _ | None => None end] =>
             destruct g as [[? ?]|]; [|reflexivity]
         end.
  reflexivity.
Qed.


End BundleFacts.


(** ** Training and uploading from the page *)

Section PageFacts.

Variable number_to_string : jsnum -> string.
Variable string_to_number : string -> jsnum.

Let bundleOf := simulateBackendTrainingBundle number_to_string string_to_number.
Let train := handleTrain number_to_string string_to_number.


End PageFacts.

Lemma endsWith_nonempty (s suffix : string) :
  suffix <> EmptyString -> endsWith s suffix = true -> s <> EmptyString.
Proof.
  intros Hs H. unfold endsWith in H. apply andb_prop in H. destruct H as [H _].
  apply Nat.leb_le in H. intros ->. destruct suffix; [apply Hs; reflexivity|].
  cbn in H. lia.
Qed.

Section UploadFacts.

Variable split_lines : string -> list string.
Variable trim : string -> string.
Variable split_comma : string -> list string.
Variable unquote : string -> string.
Variable parseFloat : string -> jsnum.

Let parse := parseCSV split_lines trim split_comma unquote parseFloat.
Let upload := handleFileChange split_lines trim split_comma unquote parseFloat.
Let fieldsOf := fields trim split_comma unquote.

(** X25. Choosing a file in the upload panel.  A name that does not end in
    [.csv] is refused and a content without non-blank line fails to parse:
    an error is shown and the page is unchanged.  Otherwise the error is
    cleared, the parsed dataset (named after the file, hence never taken for
    the request to clear the page) becomes the dataset of the page, section
    2 opens and the target column becomes the last header; the status, the
    results of an earlier run and the preprocessing configuration, its
    dropped columns included, stay as they were. *)
Theorem handleFileChange_flow
    (file_name content : string) (error : option string) (app : App) :
  let lines := filter (fun line => negb (String.eqb (trim line) ""))
                 (split_lines content) in
  (endsWith file_name ".csv" = false ->
   upload (Some (file_name, content)) error app
   = (Some "Please upload a valid CSV file."%string, app)) /\
  (endsWith file_name ".csv" = true -> lines = [] ->
   upload (Some (file_name, content)) error app
   = (Some "Failed to parse CSV file."%string, app)) /\
  (forall first rest,
     endsWith file_name ".csv" = true -> lines = first :: rest ->
     exists ds app',
       parse content file_name = Ok ds /\
       upload (Some (file_name, content)) error app = (None, app') /\
       app_dataset app' = Some ds /\
       dataset_name ds = file_name /\
       activeSection app' = 2%nat /\
       status app' = status app /\
       results app' = results app /\
       app_preprocessing app' = app_preprocessing app /\
       (forall h, last (map Some (fieldsOf first)) None = Some h ->
                  app_modelConfig app' = withTarget (app_modelConfig app) h) /\
       (fieldsOf first = [] -> app_modelConfig app' = app_modelConfig app)) /\
  upload None error app = (error, app).
Proof.
  cbv zeta. unfold upload, handleFileChange, parse, parseCSV.
  split; [|split; [|split; [|reflexivity]]].
  - intros H. rewrite H. reflexivity.
  - intros H Hl. rewrite H, Hl. reflexivity.
  - intros first rest H Hl. rewrite H, Hl. cbn [negb].
    fold fieldsOf.
    assert (Hname : String.eqb file_name "" = false).
    { apply String.eqb_neq. apply (endsWith_nonempty file_name ".csv");
        [discriminate | exact H]. }
    eexists. eexists. split; [reflexivity|].
    unfold handleDatasetUpload. cbn [dataset_name columns]. rewrite Hname.
    split; [reflexivity|].
    cbn [app_dataset activeSection status results app_preprocessing
         app_modelConfig dataset_name].
    repeat (split; [reflexivity|]).
    rewrite length_map.
    set (rawData := map (parseRow trim split_comma unquote parseFloat
                           (fieldsOf first)) rest).
    split.
    + intros h Hlast.
      assert (Hne : fieldsOf first <> [])
        by (intros E; rewrite E in Hlast; discriminate).
      destruct (exists_last Hne) as (hs & h0 & E). rewrite E in *.
      rewrite map_app in Hlast. cbn [map] in Hlast.
      rewrite last_last in Hlast. injection Hlast as ->.
      rewrite length_app. cbn [List.length].
      replace (0 <? List.length hs + 1)%nat with true
        by (symmetry; apply Nat.ltb_lt; lia).
      replace (List.length hs + 1 - 1)%nat with (List.length hs) by lia.
      rewrite map_app, nth_error_app2; rewrite length_map; [|lia].
      rewrite Nat.sub_diag. reflexivity.
    + intros ->. reflexivity.
Qed.

End UploadFacts.

(** ** Statistics of a numeric column holding a cell that is no number *)

Lemma Math_min_NaN_r (a : jsnum) : Math_min a NaN = NaN.
Proof. destruct a; reflexivity. Qed.

Lemma Math_max_NaN_r (a : jsnum) : Math_max a NaN = NaN.
Proof. destruct a; reflexivity. Qed.

Lemma fold_min_NaN (l : list jsnum) (a : jsnum) :
  a = NaN \/ In NaN l -> fold_left Math_min l a = NaN.
Proof.
  revert a. induction l as [|x l IH]; intros a [H | H].
  - exact H.
  - destruct H.
  - subst a. cbn [fold_left]. apply IH. left. reflexivity.
  - cbn [fold_left]. apply IH. destruct H as [-> | H].
    + left. apply Math_min_NaN_r.
    + right. exact H.
Qed.

Lemma fold_max_NaN (l : list jsnum) (a : jsnum) :
  a = NaN \/ In NaN l -> fold_left Math_max l a = NaN.
Proof.
  revert a. induction l as [|x l IH]; intros a [H | H].
  - exact H.
  - destruct H.
  - subst a. cbn [fold_left]. apply IH. left. reflexivity.
  - cbn [fold_left]. apply IH. destruct H as [-> | H].
    + left. apply Math_max_NaN_r.
    + right. exact H.
Qed.

Section MixedColumnFacts.

Variable number_to_string : jsnum -> string.
Variable string_to_number : string -> jsnum.

Let statsOf := calculateColumnStats number_to_string string_to_number.

(** X26. A column is declared [number] from its first cell alone.  When
    such a column holds a present cell that does not convert to a number (a
    text that is no numeral, or NaN), [calculateColumnStats] reports NaN as
    both min and max. *)
Theorem calculateColumnStats_mixed
    (dataset : Dataset) (columnName : string) (col : DatasetColumn) (v : value) :
  find (fun c => String.eqb (name c) columnName) (columns dataset) = Some col ->
  type col = TNumber ->
  In v (map (fun r => get r columnName) (rows dataset)) ->
  is_present v = true ->
  isNaN (ToNumber string_to_number v) = true ->
  stat_min (statsOf dataset columnName) = Some NaN /\
  stat_max (statsOf dataset columnName) = Some NaN /\
  stat_type (statsOf dataset columnName) = TNumber.
Proof.
  intros Hcol Htype Hin Hp Hnan.
  unfold statsOf, calculateColumnStats. rewrite Hcol, Htype.
  set (values := filter is_present
                   (map (fun r => get r columnName) (rows dataset))).
  assert (Hv : In v values) by (apply filter_In; split; assumption).
  assert (Hlen : (0 <? List.length values)%nat = true).
  { apply Nat.ltb_lt. destruct values; [destruct Hv | cbn; lia]. }
  rewrite Hlen. cbn [ColumnType_eqb andb stat_min stat_max stat_type].
  assert (HN : In NaN (map (ToNumber string_to_number) values)).
  { apply in_map_iff. exists v. split; [|exact Hv].
    destruct (ToNumber string_to_number v); try discriminate. reflexivity. }
  split; [|split; [|reflexivity]]; f_equal.
  - apply fold_min_NaN. right. exact HN.
  - apply fold_max_NaN. right. exact HN.
Qed.

End MixedColumnFacts.

Lemma calculateColumnStats_mixed_witness :
  stat_min (calculateColumnStats unrendered unparsed mixed "age") = Some NaN.
Proof.
  destruct (calculateColumnStats_mixed unrendered unparsed mixed "age"
              {| name := "age"; type := TNumber; missingCount := 0; uniqueCount := 2 |}
              (VStr "unknown")) as (H & _).
  - reflexivity.
  - reflexivity.
  - right. left. reflexivity.
  - reflexivity.
  - reflexivity.
  - exact H.
Defined.
